(** * Proxy transport (transportv1): client and server over one gRPC stream

    A shallow embedding of
      - api/client/proxy/transport/transportv1/client.go  (module [Client])
      - the ProxyService implementation of package transportv1
        (module [Server])
    The goroutines of the two files are modelled as labelled transition
    systems whose actions are scheduled by the environment; channels are
    bounded FIFO buffers; a Go [select] over several ready cases takes the
    scheduler's pick. *)

From Stdlib Require Import List String Ascii Bool Arith Lia.
From Stdlib.Strings Require Import Byte.
Import ListNotations.
Open Scope string_scope.
Open Scope list_scope.

Set Implicit Arguments.

(* ================================================================== *)
(** ** Go runtime: byte slices, errors, channels *)
(* ================================================================== *)

Module Go.

Definition bytes := list byte.

(** Error values.  [Wrap] is [trace.Wrap(err, msg)] on a non-nil error,
    [FromGRPC]/[ToGRPC] are the [trail] conversions between trace errors
    and gRPC status errors, [Status] is any other error value (a raw gRPC
    status, a network error). *)
Inductive error : Type :=
| io_EOF
| BadParameter (msg : string)
| AccessDenied (msg : string)
| NotFound (msg : string)
| NotImplemented (msg : string)
| ConnectionProblem (cause : error) (msg : string)
| Status (msg : string)
| Wrap (e : error) (msg : string)
| FromGRPC (e : error) (msg : string)
| ToGRPC (e : error).

(** [trace.Wrap(err, msg)]: nil stays nil. *)
Definition trace_Wrap (err : option error) (msg : string) : option error :=
  match err with
  | None => None
  | Some e => Some (Wrap e msg)
  end.

(** [trail.FromGRPC(err, msg)]: nil stays nil. *)
Definition trail_FromGRPC (err : option error) (msg : string) : option error :=
  match err with
  | None => None
  | Some e => Some (FromGRPC e msg)
  end.

(** The wrappers are transparent for the classification predicates of
    package trace. *)
Fixpoint IsBadParameter (e : error) : bool :=
  match e with
  | BadParameter _ => true
  | Wrap e' _ | FromGRPC e' _ | ToGRPC e' => IsBadParameter e'
  | _ => false
  end.

Fixpoint IsConnectionProblem (e : error) : bool :=
  match e with
  | ConnectionProblem _ _ => true
  | Wrap e' _ | FromGRPC e' _ | ToGRPC e' => IsConnectionProblem e'
  | _ => false
  end.

(** [errors.Is(err, io.EOF)]. *)
Fixpoint IsEOF (e : error) : bool :=
  match e with
  | io_EOF => true
  | Wrap e' _ | FromGRPC e' _ | ToGRPC e' => IsEOF e'
  | _ => false
  end.

Fixpoint error_size (e : error) : nat :=
  match e with
  | ConnectionProblem e' _ | Wrap e' _ | FromGRPC e' _ | ToGRPC e' =>
      S (error_size e')
  | _ => 0
  end.

(** Outcome of one atomic step of a goroutine. *)
Inductive outcome (A : Type) : Type :=
| Done (a : A)
| Blocked
| Panic.
Arguments Blocked {A}.
Arguments Panic {A}.

(** A buffered channel [make(chan T, cap)] is its buffer, oldest first. *)
Section Chan.
Variable T : Type.

(** [c <- v]: proceeds when the buffer has room, blocks otherwise. *)
Definition chan_send (cap : nat) (c : list T) (v : T) : option (list T) :=
  if Nat.ltb (List.length c) cap then Some (c ++ [v]) else None.

(** [<-c] on an open channel: proceeds when the buffer is not empty. *)
Definition chan_recv (c : list T) : option (T * list T) :=
  match c with
  | [] => None
  | v :: c' => Some (v, c')
  end.
End Chan.

(** [close(c)] on a signalling channel [chan struct{}]: the channel is
    its closed flag; closing a closed channel panics. *)
Definition chan_close (closed : bool) : outcome bool :=
  if closed then Panic else Done true.

End Go.

Import Go.

(* ================================================================== *)
(** ** Wire messages (teleport.proxy.v1) *)
(* ================================================================== *)

Module proxyv1.

Record Frame := { Payload : bytes }.

Record TargetHost := { HostPort : string; TargetCluster : string }.

Record ClusterDetails := { FipsEnabled : bool }.

Record ProxyClusterRequest :=
  { ReqCluster : string; ReqFrame : option Frame }.

Record ProxyClusterResponse := { RespFrame : option Frame }.

(** The [oneof frame] of the ProxySSH envelopes. *)
Inductive isProxySSH_Frame :=
| Frame_Ssh (Ssh : Frame)
| Frame_Agent (Agent : Frame).

Record ProxySSHRequest :=
  { DialTarget : option TargetHost; SSHReqFrame : option isProxySSH_Frame }.

Record ProxySSHResponse :=
  { Details : option ClusterDetails; SSHRespFrame : option isProxySSH_Frame }.

End proxyv1.

Import proxyv1.

(* ================================================================== *)
(** ** gRPC streams and peers, as the two files use them *)
(* ================================================================== *)

Module grpc.

Definition Addr := string.

(** [credentials.AuthInfo]: nil, the identity attached by the auth
    middleware ([auth.IdentityInfo], carrying the access checker), or any
    other implementation. *)
Definition AccessChecker := nat.

Inductive AuthInfo :=
| NoAuthInfo
| IdentityInfo (Checker : AccessChecker)
| OtherAuthInfo (name : string).

Record Peer := { PeerAddr : Addr; PeerAuthInfo : AuthInfo }.

(** One end of a bidirectional stream, seen from the code that holds it:
    the messages still to arrive, the status that ends the stream once
    they are consumed ([io_EOF] for a clean end), the result every [Send]
    returns, the peer of the stream's context, and the messages sent so
    far. *)
Record Stream (In Out : Type) :=
  { inbound : list In;
    terminal : error;
    send_err : option error;
    ctx_peer : option Peer;
    outbox : list Out }.

Section Ops.
Variables In Out : Type.

Definition Recv (s : Stream In Out) : Stream In Out * (In + error) :=
  match inbound s with
  | m :: rest =>
      ({| inbound := rest; terminal := terminal s; send_err := send_err s;
          ctx_peer := ctx_peer s; outbox := outbox s |}, inl m)
  | [] => (s, inr (terminal s))
  end.

Definition Send (s : Stream In Out) (m : Out) : Stream In Out * option error :=
  match send_err s with
  | Some e => (s, Some e)
  | None =>
      ({| inbound := inbound s; terminal := terminal s; send_err := None;
          ctx_peer := ctx_peer s; outbox := outbox s ++ [m] |}, None)
  end.

(** The stream [s] with message [m] still to arrive before the rest. *)
Definition arrives (m : In) (s : Stream In Out) : Stream In Out :=
  {| inbound := m :: inbound s; terminal := terminal s;
     send_err := send_err s; ctx_peer := ctx_peer s; outbox := outbox s |}.

(** [peer.FromContext(stream.Context())]. *)
Definition peer_FromContext (s : Stream In Out) : option Peer := ctx_peer s.
End Ops.

End grpc.

Import grpc.

(* ================================================================== *)
(** ** api/utils/grpc/stream: ReadWriter and Conn *)
(* ================================================================== *)

Module streamutils.

Section ReadWriter.
(** The [Source] interface: [Recv] on a source in state [Src]. *)
Variable Src : Type.
Variable SourceRecv : Src -> outcome (Src * (bytes + error)).

Record ReadWriter := { source : Src; rBytes : bytes }.

(** Modelled from the spec: streamutils.NewReadWriter is not among the
    sources.  It wraps a byte source/sink pair; the call sites here pass
    a non-nil source, for which construction succeeds. *)
Definition NewReadWriter (src : Src) : ReadWriter + error :=
  inl {| source := src; rBytes := [] |}.

(** Modelled from the spec: streamutils.ReadWriter.Read is not among the
    sources.  Read buffers sub-frame remainders across calls; an error of
    the source reaches the caller as an end-of-stream indication when it
    is io.EOF and as a connection-problem error otherwise, with zero
    bytes read (the assertions of TestClient_DialCluster and
    TestClient_DialHost). *)
Definition Read (n : nat) (rw : ReadWriter)
  : outcome (ReadWriter * bytes * option error) :=
  match rBytes rw with
  | [] =>
      match SourceRecv (source rw) with
      | Blocked => Blocked
      | Panic => Panic
      | Done (src, inr err) =>
          if IsEOF err
          then Done ({| source := src; rBytes := [] |}, [], Some io_EOF)
          else Done ({| source := src; rBytes := [] |}, [],
                     Some (ConnectionProblem (Wrap err "")
                             "failed to receive on source"))
      | Done (src, inl data) =>
          Done ({| source := src; rBytes := skipn n data |},
                firstn n data, None)
      end
  | buf =>
      Done ({| source := source rw; rBytes := skipn n buf |},
            firstn n buf, None)
  end.

(** Modelled from the spec: streamutils.NewConn is not among the
    sources.  A connection is a reader/writer with a local and a remote
    address. *)
Record Conn :=
  { connRW : ReadWriter; LocalAddr : Addr; RemoteAddr : Addr }.

Definition NewConn (rw : ReadWriter) (src dst : Addr) : Conn :=
  {| connRW := rw; LocalAddr := src; RemoteAddr := dst |}.

(** Modelled from the spec: the connection's Read is not among the
    sources.  The connection reads through its reader/writer. *)
Definition ConnRead (n : nat) (c : Conn)
  : outcome (Conn * bytes * option error) :=
  match Read n (connRW c) with
  | Done (rw, b, err) =>
      Done ({| connRW := rw; LocalAddr := LocalAddr c;
               RemoteAddr := RemoteAddr c |}, b, err)
  | Blocked => Blocked
  | Panic => Panic
  end.
End ReadWriter.

End streamutils.

Import streamutils.

(** The two virtual streams multiplexed over one ProxySSH stream. *)
Inductive tag := ssh | agent.

(* ================================================================== *)
(** ** client.go *)
(* ================================================================== *)

Module Client.

Definition ClusterStream := Stream ProxyClusterResponse ProxyClusterRequest.
Definition SSHStream := Stream ProxySSHResponse ProxySSHRequest.

(** [proxyv1.ProxyServiceClient]: what each RPC of the generated client
    returns when it is opened. *)
Record ProxyServiceClient :=
  { GetClusterDetails : option ClusterDetails + error;
    ProxyCluster : ClusterStream + error;
    ProxySSH : SSHStream + error }.

Record Client := { clt : ProxyServiceClient }.

Definition NewClient (client : option ProxyServiceClient)
  : option Client * option error :=
  match client with
  | None => (None, Some (BadParameter "parameter client required"))
  | Some c => (Some {| clt := c |}, None)
  end.

Definition ClusterDetails_ (c : Client) : option ClusterDetails * option error :=
  match GetClusterDetails (clt c) with
  | inr err => (None, Some (FromGRPC err ""))
  | inl details => (details, None)
  end.

(** *** clusterStream *)

Record clusterStream := { stream : ClusterStream }.

Definition clusterStream_Recv (c : clusterStream)
  : clusterStream * (bytes + error) :=
  match Recv (stream c) with
  | (st, inr err) => ({| stream := st |}, inr (Wrap err ""))
  | (st, inl req) =>
      match RespFrame req with
      | None => ({| stream := st |}, inr (BadParameter "received invalid frame"))
      | Some f => ({| stream := st |}, inl (Payload f))
      end
  end.

Definition clusterStream_Send (c : clusterStream) (frame : bytes)
  : clusterStream * option error :=
  match Send (stream c)
          {| ReqCluster := ""; ReqFrame := Some {| Payload := frame |} |} with
  | (st, err) => ({| stream := st |}, trace_Wrap err "")
  end.

(** [clusterStream] as a [streamutils.Source]. *)
Definition clusterSource (c : clusterStream)
  : outcome (clusterStream * (bytes + error)) :=
  Done (clusterStream_Recv c).

Definition ClusterConn := Conn clusterStream.

Definition ClusterConn_Read (n : nat) (c : ClusterConn)
  : outcome (ClusterConn * bytes * option error) :=
  ConnRead clusterSource n c.

(** *** DialCluster *)

Definition DialCluster (c : Client) (cluster : string) (src : Addr)
  : option ClusterConn * option error :=
  match ProxyCluster (clt c) with
  | inr err => (None, Some (FromGRPC err "unable to establish proxy stream"))
  | inl stream0 =>
      match Send stream0 {| ReqCluster := cluster; ReqFrame := None |} with
      | (_, Some err) =>
          (None, Some (FromGRPC err "failed to send cluster request"))
      | (stream1, None) =>
          match NewReadWriter {| stream := stream1 |} with
          | inr err => (None, Some (Wrap err "unable to create stream reader"))
          | inl streamRW =>
              match peer_FromContext stream1 with
              | None =>
                  (None,
                   Some (BadParameter "unable to retrieve peer information"))
              | Some p => (Some (NewConn streamRW src (PeerAddr p)), None)
              end
          end
      end
  end.

(** *** sshStream: a virtual stream fed by the multiplexer *)

Record sshStream :=
  { incomingC : list bytes;          (* make(chan []byte, 10) *)
    errorC : list error;             (* make(chan error, 1) *)
    requestFn : bytes -> ProxySSHRequest }.

Definition incomingC_cap := 10.
Definition errorC_cap := 1.

Definition newClientStream (requestFn : bytes -> ProxySSHRequest) : sshStream :=
  {| incomingC := []; errorC := []; requestFn := requestFn |}.

(** The cases of the [select] in [Recv], in source order. *)
Inductive select_case := case_errorC | case_incomingC.

Definition take_errorC (s : sshStream) (err : error) (rest : list error) :=
  ({| incomingC := incomingC s; errorC := rest; requestFn := requestFn s |},
   @inr bytes error (Wrap err "")).

Definition take_incomingC (s : sshStream) (frame : bytes) (rest : list bytes) :=
  ({| incomingC := rest; errorC := errorC s; requestFn := requestFn s |},
   @inl bytes error frame).

(** [Recv]: blocks while neither channel is ready; when both are, the
    runtime's choice is [pick]. *)
Definition sshStream_Recv (pick : select_case) (s : sshStream)
  : outcome (sshStream * (bytes + error)) :=
  match errorC s, incomingC s with
  | [], [] => Blocked
  | err :: ec, [] => Done (take_errorC s err ec)
  | [], frame :: ic => Done (take_incomingC s frame ic)
  | err :: ec, frame :: ic =>
      match pick with
      | case_errorC => Done (take_errorC s err ec)
      | case_incomingC => Done (take_incomingC s frame ic)
      end
  end.

(** [Send] hands the wrapped frame to the parent stream. *)
Definition sshStream_Send (s : sshStream) (parent : SSHStream) (frame : bytes)
  : SSHStream * option error :=
  match Send parent (requestFn s frame) with
  | (st, err) => (st, trace_Wrap err "")
  end.

Definition agentRequestFn (payload : bytes) : ProxySSHRequest :=
  {| DialTarget := None;
     SSHReqFrame := Some (Frame_Agent {| Payload := payload |}) |}.

Definition sshRequestFn (payload : bytes) : ProxySSHRequest :=
  {| DialTarget := None;
     SSHReqFrame := Some (Frame_Ssh {| Payload := payload |}) |}.

(** *** The multiplexing goroutine of DialHost *)

Definition Keyring := nat.

(** Where the goroutine stands: at [stream.Recv()], at one of its three
    channel sends (holding the value to send), or returned. *)
Inductive loop_pc :=
| AtRecv
| AtSendErr (err : error)
| AtSendSsh (payload : bytes)
| AtSendAgent (payload : bytes)
| Returned.

(** Everything the goroutine, the connection and the agent responder
    share. *)
Record mux :=
  { parent : SSHStream;
    sshS : sshStream;
    agentS : sshStream;
    serveOnce : bool;                (* sync.Once: done *)
    agentRW_closed : bool;
    sshConn_closed : bool;
    pc : loop_pc }.

Inductive event :=
| Enqueued (t : tag) (payload : bytes)
| Skipped (resp : ProxySSHResponse)
| ErrorSent (t : tag) (err : error)
| ServeAgentStarted
| Received (t : tag) (payload : bytes)
| ReceivedErr (t : tag) (err : error).

Definition set_pc (m : mux) (p : loop_pc) (st : SSHStream) : mux :=
  {| parent := st; sshS := sshS m; agentS := agentS m;
     serveOnce := serveOnce m; agentRW_closed := agentRW_closed m;
     sshConn_closed := sshConn_closed m; pc := p |}.

Definition push_incoming (s : sshStream) (c : list bytes) : sshStream :=
  {| incomingC := c; errorC := errorC s; requestFn := requestFn s |}.

Definition push_error (s : sshStream) (c : list error) : sshStream :=
  {| incomingC := incomingC s; errorC := c; requestFn := requestFn s |}.

(** One atomic step of the goroutine. *)
Definition mux_step (keyring : option Keyring) (m : mux)
  : outcome (mux * list event) :=
  match pc m with
  | AtRecv =>
      match Recv (parent m) with
      | (st, inr err) => Done (set_pc m (AtSendErr err) st, [])
      | (st, inl req) =>
          match SSHRespFrame req with
          | Some (Frame_Ssh frame) =>
              Done (set_pc m (AtSendSsh (Payload frame)) st, [])
          | Some (Frame_Agent frame) =>
              match keyring with
              | None => Done (set_pc m AtRecv st, [Skipped req])
              | Some _ =>
                  Done ({| parent := st; sshS := sshS m; agentS := agentS m;
                           serveOnce := true;
                           agentRW_closed := agentRW_closed m;
                           sshConn_closed := sshConn_closed m;
                           pc := AtSendAgent (Payload frame) |},
                        if serveOnce m then [] else [ServeAgentStarted])
              end
          | None => Done (set_pc m AtRecv st, [Skipped req])
          end
      end
  | AtSendErr err =>
      match chan_send errorC_cap (errorC (sshS m)) err with
      | None => Blocked
      | Some c =>
          (* return; the deferred function closes agentRW and sshConn *)
          Done ({| parent := parent m; sshS := push_error (sshS m) c;
                   agentS := agentS m; serveOnce := serveOnce m;
                   agentRW_closed := true; sshConn_closed := true;
                   pc := Returned |},
                [ErrorSent ssh err])
      end
  | AtSendSsh payload =>
      match chan_send incomingC_cap (incomingC (sshS m)) payload with
      | None => Blocked
      | Some c =>
          Done ({| parent := parent m; sshS := push_incoming (sshS m) c;
                   agentS := agentS m; serveOnce := serveOnce m;
                   agentRW_closed := agentRW_closed m;
                   sshConn_closed := sshConn_closed m; pc := AtRecv |},
                [Enqueued ssh payload])
      end
  | AtSendAgent payload =>
      match chan_send incomingC_cap (incomingC (agentS m)) payload with
      | None => Blocked
      | Some c =>
          Done ({| parent := parent m; sshS := sshS m;
                   agentS := push_incoming (agentS m) c;
                   serveOnce := serveOnce m;
                   agentRW_closed := agentRW_closed m;
                   sshConn_closed := sshConn_closed m; pc := AtRecv |},
                [Enqueued agent payload])
      end
  | Returned => Blocked
  end.

Definition stream_of (t : tag) (m : mux) : sshStream :=
  match t with ssh => sshS m | agent => agentS m end.

Definition with_stream (t : tag) (m : mux) (s : sshStream) : mux :=
  match t with
  | ssh =>
      {| parent := parent m; sshS := s; agentS := agentS m;
         serveOnce := serveOnce m; agentRW_closed := agentRW_closed m;
         sshConn_closed := sshConn_closed m; pc := pc m |}
  | agent =>
      {| parent := parent m; sshS := sshS m; agentS := s;
         serveOnce := serveOnce m; agentRW_closed := agentRW_closed m;
         sshConn_closed := sshConn_closed m; pc := pc m |}
  end.

(** The goroutines that run beside the multiplexer call [Recv] and [Send]
    on the two virtual streams. *)
Inductive action :=
| Mux
| CallRecv (t : tag) (pick : select_case)
| CallSend (t : tag) (frame : bytes).

Definition recv_event (t : tag) (r : bytes + error) : event :=
  match r with
  | inl frame => Received t frame
  | inr err => ReceivedErr t err
  end.

Definition step (keyring : option Keyring) (a : action) (m : mux)
  : outcome (mux * list event) :=
  match a with
  | Mux => mux_step keyring m
  | CallRecv t pick =>
      match sshStream_Recv pick (stream_of t m) with
      | Done (s, r) => Done (with_stream t m s, [recv_event t r])
      | Blocked => Blocked
      | Panic => Panic
      end
  | CallSend t frame =>
      match sshStream_Send (stream_of t m) (parent m) frame with
      | (st, _) => Done (set_pc m (pc m) st, [])
      end
  end.

(** A schedule is a list of actions; an action that cannot proceed leaves
    the state as it is (the goroutine stays blocked). *)
Fixpoint run (keyring : option Keyring) (sched : list action) (m : mux)
  : mux * list event :=
  match sched with
  | [] => (m, [])
  | a :: rest =>
      match step keyring a m with
      | Done (m', evs) =>
          let (m'', evs') := run keyring rest m' in (m'', evs ++ evs')
      | Blocked | Panic => run keyring rest m
      end
  end.

(** *** The agent reader/writer *)

(** Modelled from the spec: [ReadWriter.Close] is in streamutils, which is
    not among the sources.  Once the reader/writer is closed, a read on it
    returns the end of the stream; until then it reads from its source,
    the agent virtual stream.  This is the read [agent.ServeAgent] loops
    on. *)
Definition agentRW_Recv (pick : select_case) (m : mux)
  : outcome (mux * (bytes + error)) :=
  if agentRW_closed m then Done (m, inr io_EOF)
  else
    match sshStream_Recv pick (agentS m) with
    | Done (s, r) => Done (with_stream agent m s, r)
    | Blocked => Blocked
    | Panic => Panic
    end.

(** *** DialHost *)

Definition HostConn := Conn tag.

Definition start_mux (st : SSHStream) : mux :=
  {| parent := st;
     sshS := newClientStream sshRequestFn;
     agentS := newClientStream agentRequestFn;
     serveOnce := false; agentRW_closed := false; sshConn_closed := false;
     pc := AtRecv |}.

(** Returns the results of the call and, when the call succeeds, the
    state in which the multiplexing goroutine starts. *)
Definition DialHost (c : Client) (hostport cluster : string) (src : Addr)
    (keyring : option Keyring)
  : (option HostConn * option ClusterDetails * option error) * option mux :=
  match ProxySSH (clt c) with
  | inr err =>
      ((None, None, Some (FromGRPC err "unable to establish proxy stream")),
       None)
  | inl stream0 =>
      match Send stream0
              {| DialTarget := Some {| HostPort := hostport;
                                       TargetCluster := cluster |};
                 SSHReqFrame := None |} with
      | (_, Some err) =>
          ((None, None,
            Some (FromGRPC err "failed to send dial target request")), None)
      | (stream1, None) =>
          match Recv stream1 with
          | (_, inr err) =>
              ((None, None,
                Some (FromGRPC err
                        "failed to receive cluster details response")), None)
          | (stream2, inl resp) =>
              match NewReadWriter agent with
              | inr err => ((None, None, Some (Wrap err "")), None)
              | inl agentRW =>
                  match NewReadWriter ssh with
                  | inr err => ((None, None, Some (Wrap err "")), None)
                  | inl sshRW =>
                      let sshConn := NewConn sshRW src hostport in
                      ((Some sshConn, Details resp, None),
                       Some (start_mux stream2))
                  end
              end
          end
      end
  end.

End Client.

(* ================================================================== *)
(** ** The proxy service *)
(* ================================================================== *)

Module Server.

Definition ClusterStream := Stream ProxyClusterRequest ProxyClusterResponse.
Definition SSHStream := Stream ProxySSHRequest ProxySSHResponse.

(** A dialed destination connection. *)
Definition net_Conn := nat.

(** [teleagent.Getter]: the lazy agent capability handed to the Dialer,
    bound to the reader/writer of a virtual stream. *)
Inductive Getter := GetterOver (rw : tag).

(** What one call of the Dialer's [DialHost] does that this package can
    observe: the payloads it writes, while it dials, on the reader/writer
    behind the agent getter it was handed, in order, and what it returns. *)
Record dialed :=
  { agent_writes : list bytes;
    dial_result : net_Conn + error }.

(** The Dialer interface.  Its implementations are not among the sources;
    the service is modelled for any of them. *)
Record Dialer :=
  { DialSite : string -> net_Conn + error;
    DialHost : Addr -> string -> string -> string -> AccessChecker ->
               Getter -> dialed }.

Definition FieldLogger := nat.

Record ServerConfig :=
  { FIPS : bool;
    Logger : option FieldLogger;
    Dialer_ : option Dialer;
    agentGetterFn : option (tag -> Getter);
    accessCheckerFn : option (AuthInfo -> AccessChecker + error) }.

Definition default_Logger : FieldLogger := 0.

Definition default_agentGetterFn (rw : tag) : Getter := GetterOver rw.

Definition default_accessCheckerFn (info : AuthInfo) : AccessChecker + error :=
  match info with
  | IdentityInfo checker => inl checker
  | _ => inr (AccessDenied "client is not authenticated")
  end.

Definition or_default (A : Type) (o : option A) (d : A) : option A :=
  match o with
  | None => Some d
  | Some a => Some a
  end.

Definition CheckAndSetDefaults (c : ServerConfig) : ServerConfig * option error :=
  match Dialer_ c with
  | None => (c, Some (BadParameter "parameter Dialer required"))
  | Some d =>
      ({| FIPS := FIPS c;
          Logger := or_default (Logger c) default_Logger;
          Dialer_ := Some d;
          agentGetterFn := or_default (agentGetterFn c) default_agentGetterFn;
          accessCheckerFn :=
            or_default (accessCheckerFn c) default_accessCheckerFn |},
       None)
  end.

Record Service := { cfg : ServerConfig }.

Definition NewService (c : ServerConfig) : option Service * option error :=
  match CheckAndSetDefaults c with
  | (_, Some err) => (None, Some (Wrap err ""))
  | (c', None) => (Some {| cfg := c' |}, None)
  end.

Definition GetClusterDetails (s : Service) : ClusterDetails :=
  {| FipsEnabled := FIPS (cfg s) |}.

(** *** clusterStream *)

Record clusterStream := { stream : ClusterStream }.

Definition clusterStream_Recv (c : clusterStream)
  : clusterStream * (bytes + error) :=
  match Recv (stream c) with
  | (st, inr err) => ({| stream := st |}, inr (Wrap err ""))
  | (st, inl req) =>
      match ReqFrame req with
      | None => ({| stream := st |}, inr (BadParameter "received invalid frame"))
      | Some f => ({| stream := st |}, inl (Payload f))
      end
  end.

Definition clusterStream_Send (c : clusterStream) (frame : bytes)
  : clusterStream * option error :=
  match Send (stream c) {| RespFrame := Some {| Payload := frame |} |} with
  | (st, err) => ({| stream := st |}, trace_Wrap err "")
  end.

Definition clusterSource (c : clusterStream)
  : outcome (clusterStream * (bytes + error)) :=
  Done (clusterStream_Recv c).

(** *** sshStream: a virtual stream fed by the multiplexer *)

Record sshStream :=
  { incomingC : list bytes;          (* make(chan []byte, 10) *)
    done : bool;                     (* make(chan struct{}): closed? *)
    responseFn : bytes -> ProxySSHResponse }.

Definition incomingC_cap := 10.

Definition newSSHStream (responseFn : bytes -> ProxySSHResponse) : sshStream :=
  {| incomingC := []; done := false; responseFn := responseFn |}.

(** The cases of the [select] in [Close].  [<-s.done] is ready exactly when
    the channel is closed; [default] runs when no other case is ready. *)
Inductive close_case := close_case_done | close_default.

Definition Close_select (s : sshStream) : close_case :=
  if done s then close_case_done else close_default.

(** [Close] as one caller runs it when nobody else runs in between: the
    [select], then, in its [default] case, [close(s.done)]. *)
Definition sshStream_Close (s : sshStream) : outcome (sshStream * option error) :=
  match Close_select s with
  | close_case_done => Done (s, None)
  | close_default =>
      match chan_close (done s) with
      | Done d =>
          Done ({| incomingC := incomingC s; done := d;
                   responseFn := responseFn s |}, None)
      | Blocked => Blocked
      | Panic => Panic
      end
  end.

(** [close(s.done)] alone, the statement of [Close] after its [select]
    took [default].  Where goroutines run side by side another one can run
    between the two, and closing a channel that is closed by then
    panics. *)
Definition Close_finish (s : sshStream) : outcome sshStream :=
  match chan_close (done s) with
  | Done d =>
      Done {| incomingC := incomingC s; done := d; responseFn := responseFn s |}
  | Blocked => Blocked
  | Panic => Panic
  end.

(** The cases of the [select] in [Recv], in source order. *)
Inductive select_case := case_done | case_incomingC.

Definition take_incomingC (s : sshStream) (frame : bytes) (rest : list bytes) :=
  ({| incomingC := rest; done := done s; responseFn := responseFn s |},
   @inl bytes error frame).

(** [Recv]: blocks while neither case is ready; when both are, the
    runtime's choice is [pick]. *)
Definition sshStream_Recv (pick : select_case) (s : sshStream)
  : outcome (sshStream * (bytes + error)) :=
  match done s, incomingC s with
  | false, [] => Blocked
  | true, [] => Done (s, inr io_EOF)
  | false, frame :: ic => Done (take_incomingC s frame ic)
  | true, frame :: ic =>
      match pick with
      | case_done => Done (s, inr io_EOF)
      | case_incomingC => Done (take_incomingC s frame ic)
      end
  end.

Definition sshStream_Send (s : sshStream) (parent : SSHStream) (frame : bytes)
  : SSHStream * option error :=
  match Send parent (responseFn s frame) with
  | (st, err) => (st, trace_Wrap err "")
  end.

Definition agentResponseFn (payload : bytes) : ProxySSHResponse :=
  {| Details := None;
     SSHRespFrame := Some (Frame_Agent {| Payload := payload |}) |}.

Definition sshResponseFn (payload : bytes) : ProxySSHResponse :=
  {| Details := None;
     SSHRespFrame := Some (Frame_Ssh {| Payload := payload |}) |}.

(** *** The multiplexing goroutine of ProxySSH *)

(** Where the goroutine stands.  [AtCloseAgent] and [AtCloseSsh] are the
    [select] of the two [Close] calls, [AtClosingAgent] and [AtClosingSsh]
    the [close(s.done)] that follows when the [select] took [default]. *)
Inductive loop_pc :=
| AtRecv
| AtSendSsh (payload : bytes)
| AtSendAgent (payload : bytes)
| AtCloseAgent (err : error)
| AtClosingAgent (err : error)
| AtCloseSsh (err : error)
| AtClosingSsh (err : error)
| Returned.

(** The state shared by the multiplexer and the goroutines that use the
    two virtual streams.  [sshClosers] and [agentClosers] count the other
    goroutines that are inside [Close] on that stream, between its
    [select] and its [close(s.done)]. *)
Record mux :=
  { parent : SSHStream;
    sshS : sshStream;
    agentS : sshStream;
    pc : loop_pc;
    sshClosers : nat;
    agentClosers : nat }.

Inductive event :=
| Enqueued (t : tag) (payload : bytes)
| Logged (msg : string)
| StreamClosed (t : tag)
| Received (t : tag) (payload : bytes)
| ReceivedErr (t : tag) (err : error).

Definition set_pc (m : mux) (p : loop_pc) (st : SSHStream) : mux :=
  {| parent := st; sshS := sshS m; agentS := agentS m; pc := p;
     sshClosers := sshClosers m; agentClosers := agentClosers m |}.

Definition push_incoming (s : sshStream) (c : list bytes) : sshStream :=
  {| incomingC := c; done := done s; responseFn := responseFn s |}.

Definition stream_of (t : tag) (m : mux) : sshStream :=
  match t with ssh => sshS m | agent => agentS m end.

Definition with_stream (t : tag) (m : mux) (s : sshStream) : mux :=
  match t with
  | ssh => {| parent := parent m; sshS := s; agentS := agentS m; pc := pc m;
              sshClosers := sshClosers m; agentClosers := agentClosers m |}
  | agent => {| parent := parent m; sshS := sshS m; agentS := s; pc := pc m;
                sshClosers := sshClosers m; agentClosers := agentClosers m |}
  end.

Definition closers_of (t : tag) (m : mux) : nat :=
  match t with ssh => sshClosers m | agent => agentClosers m end.

Definition with_closers (t : tag) (m : mux) (n : nat) : mux :=
  match t with
  | ssh => {| parent := parent m; sshS := sshS m; agentS := agentS m;
              pc := pc m; sshClosers := n; agentClosers := agentClosers m |}
  | agent => {| parent := parent m; sshS := sshS m; agentS := agentS m;
                pc := pc m; sshClosers := sshClosers m; agentClosers := n |}
  end.

(** The multiplexer's own [Close] of stream [t], in its two steps: the
    [select], which goes on to [closing] when it took [default] and to
    [after] when the channel was closed already; and [close(s.done)],
    which goes on to [after]. *)
Definition mux_Close_select (t : tag) (m : mux) (closing after : loop_pc)
  : mux :=
  match Close_select (stream_of t m) with
  | close_case_done => set_pc m after (parent m)
  | close_default => set_pc m closing (parent m)
  end.

Definition mux_Close_finish (t : tag) (m : mux) (after : loop_pc)
  : outcome (mux * list event) :=
  match Close_finish (stream_of t m) with
  | Done s => Done (set_pc (with_stream t m s) after (parent m),
                    [StreamClosed t])
  | Blocked => Blocked
  | Panic => Panic
  end.

Section Service.

(** [net.SplitHostPort], [utils.IsOKNetworkError] and [utils.ProxyConn]
    are not among the sources; the service is modelled for any of them.
    [ProxyConn] copies between the two ends until either side ends and
    returns the resulting error. *)
Variable SplitHostPort : string -> option (string * string).
Variable IsOKNetworkError : error -> bool.
Variable ProxyConn : net_Conn -> tag -> option error.

(** The log entry of the goroutine's deferred function. *)
Definition unexpected (err : error) : list event :=
  if IsOKNetworkError err then []
  else [Logged "ssh stream terminated unexpectedly"].

(** One atomic step of the goroutine. *)
Definition mux_step (m : mux) : outcome (mux * list event) :=
  match pc m with
  | AtRecv =>
      match Recv (parent m) with
      | (st, inr err) => Done (set_pc m (AtCloseAgent err) st, [])
      | (st, inl req) =>
          match SSHReqFrame req with
          | Some (Frame_Ssh frame) =>
              Done (set_pc m (AtSendSsh (Payload frame)) st, [])
          | Some (Frame_Agent frame) =>
              Done (set_pc m (AtSendAgent (Payload frame)) st, [])
          | None =>
              Done (set_pc m AtRecv st,
                    [Logged "received unexpected ssh frame"])
          end
      end
  | AtSendSsh payload =>
      match chan_send incomingC_cap (incomingC (sshS m)) payload with
      | None => Blocked
      | Some c =>
          Done ({| parent := parent m; sshS := push_incoming (sshS m) c;
                   agentS := agentS m; pc := AtRecv;
                   sshClosers := sshClosers m;
                   agentClosers := agentClosers m |},
                [Enqueued ssh payload])
      end
  | AtSendAgent payload =>
      match chan_send incomingC_cap (incomingC (agentS m)) payload with
      | None => Blocked
      | Some c =>
          Done ({| parent := parent m; sshS := sshS m;
                   agentS := push_incoming (agentS m) c; pc := AtRecv;
                   sshClosers := sshClosers m;
                   agentClosers := agentClosers m |},
                [Enqueued agent payload])
      end
  | AtCloseAgent err =>
      Done (mux_Close_select agent m (AtClosingAgent err) (AtCloseSsh err), [])
  | AtClosingAgent err => mux_Close_finish agent m (AtCloseSsh err)
  | AtCloseSsh err =>
      match Close_select (sshS m) with
      | close_case_done =>
          Done (set_pc m Returned (parent m), unexpected err)
      | close_default =>
          Done (set_pc m (AtClosingSsh err) (parent m), [])
      end
  | AtClosingSsh err =>
      match mux_Close_finish ssh m Returned with
      | Done (m', evs) => Done (m', evs ++ unexpected err)
      | Blocked => Blocked
      | Panic => Panic
      end
  | Returned => Blocked
  end.

(** The goroutines that run beside the multiplexer call [Recv], [Send]
    and [Close] on the two virtual streams.  A [Close] call is two
    actions, since others can run between them: [CallClose] enters the
    call and runs its [select]; [FinishClose] is one of the goroutines
    that took [default] running [close(s.done)]. *)
Inductive action :=
| Mux
| CallRecv (t : tag) (pick : select_case)
| CallSend (t : tag) (frame : bytes)
| CallClose (t : tag)
| FinishClose (t : tag).

Definition recv_event (t : tag) (r : bytes + error) : event :=
  match r with
  | inl frame => Received t frame
  | inr err => ReceivedErr t err
  end.

Definition step (a : action) (m : mux) : outcome (mux * list event) :=
  match a with
  | Mux => mux_step m
  | CallRecv t pick =>
      match sshStream_Recv pick (stream_of t m) with
      | Done (s, r) => Done (with_stream t m s, [recv_event t r])
      | Blocked => Blocked
      | Panic => Panic
      end
  | CallSend t frame =>
      match sshStream_Send (stream_of t m) (parent m) frame with
      | (st, _) => Done (set_pc m (pc m) st, [])
      end
  | CallClose t =>
      match Close_select (stream_of t m) with
      | close_case_done => Done (m, [])
      | close_default => Done (with_closers t m (S (closers_of t m)), [])
      end
  | FinishClose t =>
      match closers_of t m with
      | 0 => Blocked
      | S n =>
          match Close_finish (stream_of t m) with
          | Done s =>
              Done (with_closers t (with_stream t m s) n, [StreamClosed t])
          | Blocked => Blocked
          | Panic => Panic
          end
      end
  end.

(** A schedule is a list of actions; an action that cannot proceed
    leaves the state as it is; a panic ends the run. *)
Fixpoint run (sched : list action) (m : mux) : option (mux * list event) :=
  match sched with
  | [] => Some (m, [])
  | a :: rest =>
      match step a m with
      | Done (m', evs) =>
          match run rest m' with
          | Some (m'', evs') => Some (m'', evs ++ evs')
          | None => None
          end
      | Blocked => run rest m
      | Panic => None
      end
  end.

(** The same run, kept up to a panic: the state reached, the events up to
    there, and whether the run ended in a panic. *)
Fixpoint exec (sched : list action) (m : mux) : mux * list event * bool :=
  match sched with
  | [] => (m, [], false)
  | a :: rest =>
      match step a m with
      | Done (m', evs) =>
          match exec rest m' with
          | (m'', evs', panicked) => (m'', evs ++ evs', panicked)
          end
      | Blocked => exec rest m
      | Panic => (m, [], true)
      end
  end.

(** *** ProxySSH *)

(** What the handler does that others can observe, in order.  [Sent] is
    a response the handler itself sends on the stream, [AgentSent] one
    that a write on the agent reader/writer puts on the stream while the
    Dialer runs. *)
Inductive hevent :=
| RecvFirst
| GoMux (m : mux)
| CalledDialHost (from : Addr) (host port cluster : string)
    (checker : AccessChecker) (agentGetter : Getter)
| AgentSent (resp : ProxySSHResponse)
| Sent (resp : ProxySSHResponse)
| CalledProxyConn (conn : net_Conn)
| Closed_agentStreamRW.

(** How the handler ends: it returns, or it panics on a nil field of a
    configuration that did not go through [NewService]. *)
Inductive result :=
| Return (err : option error)
| Panicked.

(** The handler's events so far and either a value to continue with or
    its result. *)
Definition M (A : Type) : Type := list hevent * (A + result).

Definition ret (A : Type) (a : A) : M A := ([], inl a).
Definition emit (ev : hevent) : M unit := ([ev], inl tt).
Definition emit_all (evs : list hevent) : M unit := (evs, inl tt).
Definition fail (A : Type) (err : error) : M A :=
  ([], inr (Return (Some err))).
Definition finish (A : Type) (err : option error) : M A :=
  ([], inr (Return err)).
Definition panic (A : Type) : M A := ([], inr Panicked).

Definition bind (A B : Type) (m : M A) (f : A -> M B) : M B :=
  match m with
  | (evs, inl a) => let (evs', r) := f a in (evs ++ evs', r)
  | (evs, inr res) => (evs, inr res)
  end.

(** [defer]: runs [ev] when the rest of the handler ends. *)
Definition defer (A : Type) (ev : hevent) (m : M A) : M A :=
  match m with
  | (evs, inr res) => (evs ++ [ev], inr res)
  | (evs, inl a) => (evs, inl a)
  end.

(** A nil function or interface field panics when it is used. *)
Definition deref (A : Type) (o : option A) : M A :=
  match o with
  | Some a => ret a
  | None => panic A
  end.

Definition or_fail (A : Type) (r : A + error) (wrap : error -> error) : M A :=
  match r with
  | inl a => ret a
  | inr err => fail A (wrap err)
  end.

Notation "x <- m ;; k" := (bind m (fun x => k))
  (at level 61, m at next level, right associativity).

(** The Dialer's writes on the agent reader/writer: each is a [Send] on
    the agent virtual stream [s], which sends a response on the gRPC
    stream; a write the stream refuses puts nothing on it. *)
Fixpoint dial_writes (s : sshStream) (parent : SSHStream) (frames : list bytes)
  : list hevent :=
  match frames with
  | [] => []
  | frame :: rest =>
      match sshStream_Send s parent frame with
      | (parent', None) =>
          AgentSent (responseFn s frame) :: dial_writes s parent' rest
      | (parent', Some _) => dial_writes s parent' rest
      end
  end.

Definition ProxySSH_body (s : Service) (stream0 : SSHStream) : M unit :=
  p <- match peer_FromContext stream0 with
       | None => fail Peer (BadParameter "unable to find peer")
       | Some p => ret p
       end ;;
  checkerFn <- deref (accessCheckerFn (cfg s)) ;;
  checker <- or_fail (checkerFn (PeerAuthInfo p)) (fun err => Wrap err "") ;;
  (* wait for the first request to arrive with the dial request *)
  _ <- emit RecvFirst ;;
  let (stream1, first) := Recv stream0 in
  req <- or_fail first (fun err => Wrap err "failed receiving first frame") ;;
  (* validate the target *)
  target <- match DialTarget req with
            | None =>
                fail TargetHost
                  (BadParameter "first frame must contain a dial target")
            | Some target => ret target
            end ;;
  hp <- match SplitHostPort (HostPort target) with
        | None =>
            fail (string * string)
              (BadParameter "dial target contains an invalid hostport")
        | Some hp => ret hp
        end ;;
  let agentStream := newSSHStream agentResponseFn in
  let sshStream := newSSHStream sshResponseFn in
  (* multiplex incoming frames for the duration of the stream *)
  _ <- emit (GoMux {| parent := stream1; sshS := sshStream;
                      agentS := agentStream; pc := AtRecv;
                      sshClosers := 0; agentClosers := 0 |}) ;;
  agentStreamRW <- or_fail (NewReadWriter agent)
      (fun err => Wrap err "failed constructing ssh agent streamer") ;;
  defer Closed_agentStreamRW
    (dialer <- deref (Dialer_ (cfg s)) ;;
     getterFn <- deref (agentGetterFn (cfg s)) ;;
     _ <- emit (CalledDialHost (PeerAddr p) (fst hp) (snd hp)
                  (TargetCluster target) checker
                  (getterFn (source agentStreamRW))) ;;
     let d := DialHost dialer (PeerAddr p) (fst hp) (snd hp)
                (TargetCluster target) checker
                (getterFn (source agentStreamRW)) in
     _ <- emit_all (dial_writes agentStream stream1 (agent_writes d)) ;;
     conn <- or_fail (dial_result d)
         (fun err => Wrap err "failed to dial target host") ;;
     sshStreamRW <- or_fail (NewReadWriter ssh)
         (fun err => Wrap err "failed constructing ssh streamer") ;;
     (* send back the cluster details to alert the other side that the
        connection has been established *)
     _ <- match send_err stream1 with
          | Some err =>
              fail unit (Wrap err "failed sending cluster details ")
          | None =>
              emit (Sent {| Details := Some {| FipsEnabled := FIPS (cfg s) |};
                            SSHRespFrame := None |})
          end ;;
     (* copy data to/from the connection and ssh stream *)
     _ <- emit (CalledProxyConn conn) ;;
     finish unit (trace_Wrap (ProxyConn conn (source sshStreamRW)) "")).

Definition ProxySSH (s : Service) (stream0 : SSHStream)
  : list hevent * result :=
  match ProxySSH_body s stream0 with
  | (evs, inr res) => (evs, res)
  | (evs, inl _) => (evs, Return None)
  end.

End Service.

(** *** ProxyCluster *)

Section Cluster.

(** [net.Conn.Write] on the dialed connection and [utils.ProxyConn] are not
    among the sources; the handler is modelled for any of them.  [Write]
    returns its error; [ProxyConn] copies between the connection and the
    stream until either side ends and returns the resulting error. *)
Variable ConnWrite : net_Conn -> bytes -> option error.
Variable ProxyClusterConn : net_Conn -> ClusterStream -> option error.

(** What the handler does that others can observe, in order. *)
Inductive cevent :=
| ClusterRecvFirst
| CalledDialSite (clusterName : string)
| CalledWrite (conn : net_Conn) (payload : bytes)
| CalledProxyClusterConn (conn : net_Conn) (rest : ClusterStream).

Definition ProxyCluster (s : Service) (stream0 : ClusterStream)
  : list cevent * result :=
  match Recv stream0 with
  | (_, inr err) =>
      ([ClusterRecvFirst],
       Return (Some (Wrap err "failed receiving first frame")))
  | (stream1, inl req) =>
      match Dialer_ (cfg s) with
      | None => ([ClusterRecvFirst], Panicked)
      | Some dialer =>
          match DialSite dialer (ReqCluster req) with
          | inr err =>
              ([ClusterRecvFirst; CalledDialSite (ReqCluster req)],
               Return (Some (Wrap err "failed dialing cluster")))
          | inl conn =>
              (* A client may provide a frame with the first message; it
                 is written to the connection by hand. *)
              let first :=
                match ReqFrame req with
                | Some frame =>
                    ([CalledWrite conn (Payload frame)],
                     ConnWrite conn (Payload frame))
                | None => ([], None)
                end in
              match first with
              | (evs, Some err) =>
                  ([ClusterRecvFirst; CalledDialSite (ReqCluster req)] ++ evs,
                   Return
                     (Some (Wrap err "failed writing payload from first frame")))
              | (evs, None) =>
                  match NewReadWriter {| stream := stream1 |} with
                  | inr err =>
                      ([ClusterRecvFirst; CalledDialSite (ReqCluster req)]
                         ++ evs,
                       Return (Some (Wrap err "failed constructing streamer")))
                  | inl streamRW =>
                      ([ClusterRecvFirst; CalledDialSite (ReqCluster req)]
                         ++ evs
                         ++ [CalledProxyClusterConn conn
                               (stream (source streamRW))],
                       Return
                         (trace_Wrap
                            (ProxyClusterConn conn (stream (source streamRW)))
                            ""))
                  end
              end
          end
      end
  end.

End Cluster.

End Server.

(* ================================================================== *)
(** ** Sample inputs used to run the model *)
(* ================================================================== *)

Module Samples.

Definition hello : bytes := [x68; x65; x6c; x6c; x6f].

Definition peer0 : Peer :=
  {| PeerAddr := "192.0.2.1:3024"; PeerAuthInfo := IdentityInfo 7 |}.

Definition anonymous : Peer :=
  {| PeerAddr := "192.0.2.9:40000"; PeerAuthInfo := OtherAuthInfo "tls" |}.

(** A cluster stream whose peer ends it with [e] before sending data. *)
Definition terminated (e : error) (p : option Peer) : Client.ClusterStream :=
  {| inbound := []; terminal := e; send_err := None; ctx_peer := p;
     outbox := [] |}.

Definition cluster_client (st : Client.ClusterStream) : Client.Client :=
  {| Client.clt :=
       {| Client.GetClusterDetails := inl (Some {| FipsEnabled := true |});
          Client.ProxyCluster := inl st;
          Client.ProxySSH := inr (Status "unused") |} |}.

Definition ssh_client (st : Client.SSHStream) : Client.Client :=
  {| Client.clt :=
       {| Client.GetClusterDetails := inl (Some {| FipsEnabled := true |});
          Client.ProxyCluster := inr (Status "unused");
          Client.ProxySSH := inl st |} |}.

Definition not_implemented : error := ToGRPC (NotImplemented "not implemented").

(** A stand-in for [net.SplitHostPort]: the port follows the first colon,
    and an address without a colon does not parse. *)
Fixpoint split_colon (s : string) : option (string * string) :=
  match s with
  | EmptyString => None
  | String c rest =>
      if Ascii.eqb c ":"%char then Some (EmptyString, rest)
      else match split_colon rest with
           | Some (h, p) => Some (String c h, p)
           | None => None
           end
  end.

Definition no_network_error_is_ok (_ : error) : bool := false.

(** A stand-in for [utils.IsOKNetworkError]: a clean end of stream. *)
Definition eof_is_ok (e : error) : bool := IsEOF e.

Definition proxy_until_eof (_ : Server.net_Conn) (_ : tag) : option error := None.

Definition dialer_ok : Server.Dialer :=
  {| Server.DialSite := fun _ => inl 1;
     Server.DialHost :=
       fun _ _ _ _ _ _ =>
         {| Server.agent_writes := []; Server.dial_result := inl 2 |} |}.

Definition dialer_down : Server.Dialer :=
  {| Server.DialSite := fun _ => inr (ConnectionProblem (Status "down") "");
     Server.DialHost :=
       fun _ _ _ _ _ _ =>
         {| Server.agent_writes := [];
            Server.dial_result :=
              inr (ConnectionProblem (Status "down") "") |} |}.


Definition config (d : Server.Dialer) : Server.ServerConfig :=
  {| Server.FIPS := true; Server.Logger := None; Server.Dialer_ := Some d;
     Server.agentGetterFn := None; Server.accessCheckerFn := None |}.

(** The service [NewService (config d)] builds. *)
Definition service (d : Server.Dialer) : Server.Service :=
  {| Server.cfg := fst (Server.CheckAndSetDefaults (config d)) |}.

Definition server_stream (p : option Peer) (msgs : list ProxySSHRequest)
  : Server.SSHStream :=
  {| inbound := msgs; terminal := io_EOF; send_err := None; ctx_peer := p;
     outbox := [] |}.

Definition dial_request (hostport : string) : ProxySSHRequest :=
  {| DialTarget := Some {| HostPort := hostport; TargetCluster := "root" |};
     SSHReqFrame := None |}.

Definition ssh_request (payload : bytes) : ProxySSHRequest :=
  {| DialTarget := None;
     SSHReqFrame := Some (Frame_Ssh {| Payload := payload |}) |}.

Definition agent_response (payload : bytes) : ProxySSHResponse :=
  {| Details := None;
     SSHRespFrame := Some (Frame_Agent {| Payload := payload |}) |}.

Definition ssh_response (payload : bytes) : ProxySSHResponse :=
  {| Details := None;
     SSHRespFrame := Some (Frame_Ssh {| Payload := payload |}) |}.

Definition client_stream (msgs : list ProxySSHResponse) (e : error)
  : Client.SSHStream :=
  {| inbound := msgs; terminal := e; send_err := None; ctx_peer := Some peer0;
     outbox := [] |}.

(** Stand-ins for the dialed connection's Write and for ProxyConn on a
    cluster session. *)
Definition write_ok (_ : Server.net_Conn) (_ : bytes) : option error := None.

Definition proxy_cluster_until_eof (_ : Server.net_Conn)
    (_ : Server.ClusterStream) : option error := None.

Definition server_cluster_stream (msgs : list ProxyClusterRequest)
  : Server.ClusterStream :=
  {| inbound := msgs; terminal := io_EOF; send_err := None;
     ctx_peer := Some peer0; outbox := [] |}.

Definition client_cluster_stream (msgs : list ProxyClusterResponse)
  : Client.ClusterStream :=
  {| inbound := msgs; terminal := io_EOF; send_err := None;
     ctx_peer := Some peer0; outbox := [] |}.

End Samples.

(* ================================================================== *)
(** ** Observations on handler traces and multiplexer runs *)
(* ================================================================== *)

Module Trace.

(** Calls of the external Dialer's DialHost in a handler trace. *)
Definition is_dial (ev : Server.hevent) : bool :=
  match ev with Server.CalledDialHost _ _ _ _ _ _ => true | _ => false end.

Definition dial_calls (evs : list Server.hevent) : nat :=
  List.length (filter is_dial evs).

(** The responses the handler itself sent, in order. *)
Fixpoint sent (evs : list Server.hevent) : list ProxySSHResponse :=
  match evs with
  | [] => []
  | Server.Sent resp :: rest => resp :: sent rest
  | _ :: rest => sent rest
  end.

Definition is_go_mux (ev : Server.hevent) : bool :=
  match ev with Server.GoMux _ => true | _ => false end.

Definition mux_started (evs : list Server.hevent) : bool :=
  existsb is_go_mux evs.

(** Every response a handler trace records as put on the stream, in
    order: those the handler sent and those written through the agent
    virtual stream while the Dialer ran.  For a handler that returns
    before it calls ProxyConn these are all the responses on the
    stream. *)
Fixpoint wire (evs : list Server.hevent) : list ProxySSHResponse :=
  match evs with
  | [] => []
  | Server.Sent resp :: rest => resp :: wire rest
  | Server.AgentSent resp :: rest => resp :: wire rest
  | _ :: rest => wire rest
  end.



(** Calling [Close] [n] times in a row: the stream afterwards, what each
    call returned, and the [select] case each call took. *)
Fixpoint Close_times (n : nat) (s : Server.sshStream)
  : outcome (Server.sshStream * list (option error) * list Server.close_case) :=
  match n with
  | 0 => Done (s, [], [])
  | S n' =>
      match Server.sshStream_Close s with
      | Done (s', err) =>
          match Close_times n' s' with
          | Done (s'', errs, cases) =>
              Done (s'', err :: errs, Server.Close_select s :: cases)
          | Blocked => Blocked
          | Panic => Panic
          end
      | Blocked => Blocked
      | Panic => Panic
      end
  end.

(** Frames the multiplexer put on the queue of stream [t], and frames
    [Recv] on stream [t] returned, in order. *)
Definition tag_eqb (a b : tag) : bool :=
  match a, b with
  | ssh, ssh | agent, agent => true
  | _, _ => false
  end.

Fixpoint client_enqueued (t : tag) (evs : list Client.event) : list bytes :=
  match evs with
  | [] => []
  | Client.Enqueued t' payload :: rest =>
      if tag_eqb t t' then payload :: client_enqueued t rest
      else client_enqueued t rest
  | _ :: rest => client_enqueued t rest
  end.

Fixpoint client_received (t : tag) (evs : list Client.event) : list bytes :=
  match evs with
  | [] => []
  | Client.Received t' payload :: rest =>
      if tag_eqb t t' then payload :: client_received t rest
      else client_received t rest
  | _ :: rest => client_received t rest
  end.

Fixpoint server_enqueued (t : tag) (evs : list Server.event) : list bytes :=
  match evs with
  | [] => []
  | Server.Enqueued t' payload :: rest =>
      if tag_eqb t t' then payload :: server_enqueued t rest
      else server_enqueued t rest
  | _ :: rest => server_enqueued t rest
  end.

Fixpoint server_received (t : tag) (evs : list Server.event) : list bytes :=
  match evs with
  | [] => []
  | Server.Received t' payload :: rest =>
      if tag_eqb t t' then payload :: server_received t rest
      else server_received t rest
  | _ :: rest => server_received t rest
  end.

(** How many times [agent.ServeAgent] was started. *)
Definition is_serve (ev : Client.event) : bool :=
  match ev with Client.ServeAgentStarted => true | _ => false end.

Definition serve_starts (evs : list Client.event) : nat :=
  List.length (filter is_serve evs).

Definition has_keyring (keyring : option Client.Keyring) : bool :=
  match keyring with Some _ => true | None => false end.

Definition is_agent_frame (resp : ProxySSHResponse) : bool :=
  match SSHRespFrame resp with
  | Some (Frame_Agent _) => true
  | _ => false
  end.

(** Errors handed to, or returned by, the agent stream. *)
Definition is_agent_error (ev : Client.event) : bool :=
  match ev with
  | Client.ErrorSent agent _ | Client.ReceivedErr agent _ => true
  | _ => false
  end.

(** What holds of the client's shared state in every schedule: the agent
    stream's error channel stays empty; until the goroutine returns, the
    ssh stream's error channel is empty and nothing is closed; once it has
    returned, the agent reader/writer and the connection are closed. *)
Definition client_inv (m : Client.mux) : Prop :=
  Client.errorC (Client.agentS m) = []
  /\ match Client.pc m with
     | Client.Returned =>
         Client.agentRW_closed m = true /\ Client.sshConn_closed m = true
         /\ List.length (Client.errorC (Client.sshS m)) <= 1
     | _ =>
         Client.errorC (Client.sshS m) = []
         /\ Client.agentRW_closed m = false
         /\ Client.sshConn_closed m = false
     end.

(** The client's multiplexer is not about to put a frame on the agent
    stream's queue. *)
Definition not_sending_agent (m : Client.mux) : Prop :=
  match Client.pc m with
  | Client.AtSendAgent _ => False
  | _ => True
  end.

(** How many times the [done] channel of stream [t] was closed. *)
Definition is_closed (t : tag) (ev : Server.event) : bool :=
  match ev with Server.StreamClosed t' => tag_eqb t t' | _ => false end.

Definition closes (t : tag) (evs : list Server.event) : nat :=
  List.length (filter (is_closed t) evs).

(** Nobody but the multiplexer is inside [Close], and when the
    multiplexer is between the [select] and the [close(s.done)] of one of
    its own two calls, that channel is still open. *)
Definition no_pending_close (m : Server.mux) : Prop :=
  Server.sshClosers m = 0 /\ Server.agentClosers m = 0
  /\ match Server.pc m with
     | Server.AtClosingAgent _ => Server.done (Server.agentS m) = false
     | Server.AtClosingSsh _ => Server.done (Server.sshS m) = false
     | _ => True
     end.

(** The stream as the multiplexer finds it: after the first frame. *)
Definition after_first (st : Server.SSHStream) (rest : list ProxySSHRequest)
  : Server.SSHStream :=
  {| inbound := rest; terminal := terminal st; send_err := send_err st;
     ctx_peer := ctx_peer st; outbox := outbox st |}.

(** The events of what the Dialer wrote on the agent virtual stream of the
    session on [st], whose first frame was followed by [rest]. *)
Definition agent_sent (st : Server.SSHStream) (rest : list ProxySSHRequest)
    (d : Server.dialed) : list Server.hevent :=
  Server.dial_writes (Server.newSSHStream Server.agentResponseFn)
    (after_first st rest) (Server.agent_writes d).

(** The server's multiplexer as ProxySSH starts it. *)
Definition server_mux (st : Server.SSHStream) : Server.mux :=
  {| Server.parent := st;
     Server.sshS := Server.newSSHStream Server.sshResponseFn;
     Server.agentS := Server.newSSHStream Server.agentResponseFn;
     Server.pc := Server.AtRecv;
     Server.sshClosers := 0; Server.agentClosers := 0 |}.

End Trace.

(* ================================================================== *)
(** ** Observations: what went through the multiplexers *)
(* ================================================================== *)

Module Obs.

(** The payload a request carries for stream [t], if any. *)
Definition request_payload (t : tag) (req : ProxySSHRequest) : list bytes :=
  match t, SSHReqFrame req with
  | ssh, Some (Frame_Ssh frame) => [Payload frame]
  | agent, Some (Frame_Agent frame) => [Payload frame]
  | _, _ => []
  end.

Definition request_payloads (t : tag) (reqs : list ProxySSHRequest)
  : list bytes :=
  flat_map (request_payload t) reqs.

(** The payload a response carries for stream [t] of a client that was
    given [keyring], if any: agent frames count only with a keyring. *)
Definition response_payload (keyring : option Client.Keyring) (t : tag)
    (resp : ProxySSHResponse) : list bytes :=
  match t, SSHRespFrame resp with
  | ssh, Some (Frame_Ssh frame) => [Payload frame]
  | agent, Some (Frame_Agent frame) =>
      if Trace.has_keyring keyring then [Payload frame] else []
  | _, _ => []
  end.

Definition response_payloads (keyring : option Client.Keyring) (t : tag)
    (resps : list ProxySSHResponse) : list bytes :=
  flat_map (response_payload keyring t) resps.

(** The frame the multiplexer holds while it waits to put it on the queue
    of stream [t]. *)
Definition server_pending (t : tag) (m : Server.mux) : list bytes :=
  match t, Server.pc m with
  | ssh, Server.AtSendSsh payload => [payload]
  | agent, Server.AtSendAgent payload => [payload]
  | _, _ => []
  end.

Definition client_pending (t : tag) (m : Client.mux) : list bytes :=
  match t, Client.pc m with
  | ssh, Client.AtSendSsh payload => [payload]
  | agent, Client.AtSendAgent payload => [payload]
  | _, _ => []
  end.

(** Schedules in which nobody calls Recv on stream [t]. *)
Definition is_recv_on (t : tag) (a : Server.action) : bool :=
  match a with
  | Server.CallRecv t' _ => Trace.tag_eqb t t'
  | _ => false
  end.

Definition never_receives (t : tag) (sched : list Server.action) : bool :=
  negb (existsb (is_recv_on t) sched).

(** Schedules in which nobody but the multiplexer calls Close. *)
Definition is_close (a : Server.action) : bool :=
  match a with
  | Server.CallClose _ | Server.FinishClose _ => true
  | _ => false
  end.

Definition never_closes (sched : list Server.action) : bool :=
  negb (existsb is_close sched).

(** Calls in a trace of the ProxyCluster handler. *)
Fixpoint site_dials (evs : list Server.cevent) : list string :=
  match evs with
  | [] => []
  | Server.CalledDialSite clusterName :: rest => clusterName :: site_dials rest
  | _ :: rest => site_dials rest
  end.

Fixpoint writes (evs : list Server.cevent) : list bytes :=
  match evs with
  | [] => []
  | Server.CalledWrite _ payload :: rest => payload :: writes rest
  | _ :: rest => writes rest
  end.

Definition is_proxy_cluster (ev : Server.cevent) : bool :=
  match ev with Server.CalledProxyClusterConn _ _ => true | _ => false end.

Definition proxied (evs : list Server.cevent) : bool :=
  existsb is_proxy_cluster evs.

(** The payload of an optional frame, as a list of at most one element. *)
Definition frame_payload (frame : option Frame) : list bytes :=
  match frame with
  | Some f => [Payload f]
  | None => []
  end.

(** Events of the ProxySSH handler, by kind. *)
Definition is_closed_agentRW (ev : Server.hevent) : bool :=
  match ev with Server.Closed_agentStreamRW => true | _ => false end.

Definition is_proxy_conn (ev : Server.hevent) : bool :=
  match ev with Server.CalledProxyConn _ => true | _ => false end.

Definition is_sent (ev : Server.hevent) : bool :=
  match ev with Server.Sent _ => true | _ => false end.

(** Every [after]-event of the trace has a [before]-event somewhere before
    it. *)
Fixpoint precedes (A : Type) (before after : A -> bool) (evs : list A) : bool :=
  match evs with
  | [] => true
  | ev :: rest =>
      if before ev then true
      else if after ev then false
      else precedes before after rest
  end.

(** The schedule in which the client's multiplexer runs and each frame it
    puts on a queue is read at once: per response of [resps], the
    multiplexer's receive, then, for a frame it routes, its send and the
    reader's [Recv]; after the last response, the receive that finds the
    stream ended and the send of the error. *)
Fixpoint drain (keyring : option Client.Keyring) (resps : list ProxySSHResponse)
  : list Client.action :=
  match resps with
  | [] => [Client.Mux; Client.Mux]
  | resp :: rest =>
      match SSHRespFrame resp with
      | Some (Frame_Ssh _) =>
          [Client.Mux; Client.Mux; Client.CallRecv ssh Client.case_incomingC]
      | Some (Frame_Agent _) =>
          if Trace.has_keyring keyring
          then [Client.Mux; Client.Mux;
                Client.CallRecv agent Client.case_incomingC]
          else [Client.Mux]
      | None => [Client.Mux]
      end ++ drain keyring rest
  end.

(** The client's multiplexing goroutine has returned. *)
Definition returned (m : Client.mux) : bool :=
  match Client.pc m with Client.Returned => true | _ => false end.

(** Errors the multiplexer put on an error channel, in order. *)
Fixpoint errors_sent (evs : list Client.event) : list (tag * error) :=
  match evs with
  | [] => []
  | Client.ErrorSent t err :: rest => (t, err) :: errors_sent rest
  | _ :: rest => errors_sent rest
  end.

(** The client's view of the unary GetClusterDetails RPC of service [s]. *)
Definition details_rpc (s : Server.Service) : option ClusterDetails + error :=
  inl (Some (Server.GetClusterDetails s)).

End Obs.

(* ================================================================== *)
(** ** Errors *)
(* ================================================================== *)

Lemma error_size_neq (e e' : error) : error_size e <> error_size e' -> e <> e'.
Proof. intros H Heq. apply H. now rewrite Heq. Qed.

Lemma ConnectionProblem_not_raw (e : error) (m1 m2 m3 : string) :
  ConnectionProblem (Wrap (Wrap e m1) m2) m3 <> e.
Proof. apply error_size_neq. simpl. lia. Qed.

Lemma IsEOF_Wrap (e : error) (m : string) : IsEOF (Wrap e m) = IsEOF e.
Proof. reflexivity. Qed.

(* ================================================================== *)
(** ** Cluster sessions: DialCluster and clusterStream *)
(* ================================================================== *)

Example DialCluster_stream_terminated :
  exists conn,
    Client.DialCluster
      (Samples.cluster_client
         (Samples.terminated Samples.not_implemented (Some Samples.peer0)))
      "" "" = (Some conn, None)
    /\ exists conn' err,
        Client.ClusterConn_Read 10 conn = Done (conn', [], Some err)
        /\ IsConnectionProblem err = true.
Proof. eexists. split; [reflexivity|]. eexists _, _. split; reflexivity. Qed.

(** C4, as stated, fails: the first message is sent successfully on a
    stream whose context carries no peer information, and DialCluster
    returns a nil connection and a BadParameter error. *)
Lemma DialCluster_without_peer_fails :
  let st := Samples.terminated Samples.not_implemented None in
  Client.ProxyCluster (Client.clt (Samples.cluster_client st)) = inl st
  /\ snd (Send st {| ReqCluster := "leaf"; ReqFrame := None |}) = None
  /\ Client.DialCluster (Samples.cluster_client st) "leaf" "127.0.0.1:0"
     = (None, Some (BadParameter "unable to retrieve peer information")).
Proof. repeat split. Qed.

(** C4 (amended): when the first (cluster-name) message is sent
    successfully, DialCluster does not wait for the peer.  If the stream's
    context carries peer information it returns a connection and a nil
    error, whatever the peer does next; if the peer ends the stream with an
    error before sending any data, the first Read on that connection
    returns zero bytes and a connection-problem error that is not the
    peer's raw error.  If the context carries no peer information it
    returns a nil connection and a BadParameter error. *)
Theorem DialCluster_lazy_failure
    (c : Client.Client) (cluster : string) (src : Addr)
    (st : Client.ClusterStream) :
  Client.ProxyCluster (Client.clt c) = inl st ->
  send_err st = None ->
  match ctx_peer st with
  | Some p =>
      exists conn,
        Client.DialCluster c cluster src = (Some conn, None)
        /\ LocalAddr conn = src
        /\ RemoteAddr conn = PeerAddr p
        /\ (inbound st = [] -> IsEOF (terminal st) = false ->
            forall n, exists conn' err,
              Client.ClusterConn_Read n conn = Done (conn', [], Some err)
              /\ IsConnectionProblem err = true
              /\ err <> terminal st)
  | None =>
      Client.DialCluster c cluster src
      = (None, Some (BadParameter "unable to retrieve peer information"))
  end.
Proof.
  intros Hopen Hsend.
  unfold Client.DialCluster. rewrite Hopen.
  unfold Send. rewrite Hsend. cbn [NewReadWriter].
  unfold peer_FromContext. cbn [ctx_peer].
  destruct (ctx_peer st) as [p|]; [|reflexivity].
  eexists. split; [reflexivity|]. cbn [NewConn LocalAddr RemoteAddr].
  repeat split.
  intros Hin Heof n.
  unfold Client.ClusterConn_Read, ConnRead, Read. cbn.
  rewrite Hin. cbn. rewrite Heof.
  eexists _, _. split; [reflexivity|]. split; [reflexivity|].
  apply ConnectionProblem_not_raw.
Qed.

Lemma DialCluster_lazy_failure_witness :
  let st := Samples.terminated Samples.not_implemented (Some Samples.peer0) in
  let st' := Samples.terminated Samples.not_implemented None in
  (Client.ProxyCluster (Client.clt (Samples.cluster_client st)) = inl st
   /\ send_err st = None /\ inbound st = [] /\ IsEOF (terminal st) = false
   /\ Client.ProxyCluster (Client.clt (Samples.cluster_client st')) = inl st'
   /\ send_err st' = None)
  /\ (exists conn,
      Client.DialCluster (Samples.cluster_client st) "leaf" "127.0.0.1:0"
      = (Some conn, None)
      /\ exists conn' err,
          Client.ClusterConn_Read 10 conn = Done (conn', [], Some err)
          /\ IsConnectionProblem err = true
          /\ err <> Samples.not_implemented)
  /\ Client.DialCluster (Samples.cluster_client st') "leaf" "127.0.0.1:0"
     = (None, Some (BadParameter "unable to retrieve peer information")).
Proof.
  intros st st'. split; [repeat split|]. split.
  - destruct (@DialCluster_lazy_failure
                (Samples.cluster_client st) "leaf" "127.0.0.1:0" st
                eq_refl eq_refl)
      as (conn & Hdial & _ & _ & Hread).
    exists conn. split; [exact Hdial|].
    exact (Hread eq_refl eq_refl 10).
  - exact (@DialCluster_lazy_failure
             (Samples.cluster_client st') "leaf" "127.0.0.1:0" st'
             eq_refl eq_refl).
Defined.

Lemma Recv_arrives (In Out : Type) (m : In) (s : Stream In Out) :
  Recv (arrives m s) = (s, inl m).
Proof. destruct s. reflexivity. Qed.

Lemma Recv_ended (In Out : Type) (s : Stream In Out) :
  inbound s = [] -> Recv s = (s, inr (terminal s)).
Proof. intros H. unfold Recv. now rewrite H. Qed.

(** *** How the two multiplexers treat an envelope without a frame *)

Lemma client_mux_skips_untagged
    (keyring : option Client.Keyring) (m : Client.mux) (st : Client.SSHStream)
    (details : option ClusterDetails) :
  let resp := {| Details := details; SSHRespFrame := None |} in
  Client.mux_step keyring (Client.set_pc m Client.AtRecv (arrives resp st))
  = Done (Client.set_pc m Client.AtRecv st, [Client.Skipped resp]).
Proof.
  intros resp. unfold Client.mux_step.
  cbn [Client.pc Client.set_pc Client.parent]. now rewrite Recv_arrives.
Qed.

Lemma server_mux_skips_untagged
    (ok : error -> bool) (m : Server.mux) (st : Server.SSHStream)
    (target : option TargetHost) :
  let req := {| DialTarget := target; SSHReqFrame := None |} in
  Server.mux_step ok (Server.set_pc m Server.AtRecv (arrives req st))
  = Done (Server.set_pc m Server.AtRecv st,
          [Server.Logged "received unexpected ssh frame"]).
Proof.
  intros req. unfold Server.mux_step.
  cbn [Server.pc Server.set_pc Server.parent]. now rewrite Recv_arrives.
Qed.

(** C10, as stated, fails: on a cluster session an envelope with a nil
    frame is followed by one that carries data; the Recv that meets the
    first returns the BadParameter error, and the next Recv returns the
    data, on the client and on the server: the read path has not ended. *)
Lemma cluster_Recv_goes_on_after_nil_frame :
  let c := {| Client.stream :=
                Samples.client_cluster_stream
                  [{| RespFrame := None |};
                   {| RespFrame := Some {| Payload := Samples.hello |} |}] |} in
  let s := {| Server.stream :=
                Samples.server_cluster_stream
                  [{| ReqCluster := ""; ReqFrame := None |};
                   {| ReqCluster := "";
                      ReqFrame := Some {| Payload := Samples.hello |} |}] |} in
  snd (Client.clusterStream_Recv c)
  = inr (BadParameter "received invalid frame")
  /\ snd (Client.clusterStream_Recv (fst (Client.clusterStream_Recv c)))
     = inl Samples.hello
  /\ snd (Server.clusterStream_Recv s)
     = inr (BadParameter "received invalid frame")
  /\ snd (Server.clusterStream_Recv (fst (Server.clusterStream_Recv s)))
     = inl Samples.hello
  /\ exists rw err,
      Read Client.clusterSource 5 {| source := c; rBytes := [] |}
      = Done (rw, [], Some err)
      /\ IsConnectionProblem err = true
      /\ exists rw',
          Read Client.clusterSource 5 rw = Done (rw', Samples.hello, None).
Proof.
  repeat split. eexists _, _. split; [reflexivity|]. split; [reflexivity|].
  eexists. reflexivity.
Qed.

(** C10 (amended): on a cluster session, client side and server side, an
    envelope whose frame field is nil is not skipped: the stream source's
    Recv returns a BadParameter error for it, and the Read that called it
    returns zero bytes and that error classified as a connection problem.
    The source stays usable: the Recv after it returns the next envelope's
    frame, so the read path ends only if the reader stops at the error.
    On a host session the multiplexer skips an envelope without a
    recognized frame and stays in its loop, with no error delivered. *)
Theorem cluster_nil_frame_is_an_error :
  (forall (st : Client.ClusterStream) (n : nat),
      let c := {| Client.stream := arrives {| RespFrame := None |} st |} in
      Client.clusterStream_Recv c
      = ({| Client.stream := st |}, inr (BadParameter "received invalid frame"))
      /\ Read Client.clusterSource n {| source := c; rBytes := [] |}
         = Done ({| source := {| Client.stream := st |}; rBytes := [] |}, [],
                 Some (ConnectionProblem
                         (Wrap (BadParameter "received invalid frame") "")
                         "failed to receive on source")))
  /\ (forall (st : Server.ClusterStream) (cluster : string) (n : nat),
      let c := {| Server.stream :=
                    arrives {| ReqCluster := cluster; ReqFrame := None |} st |} in
      Server.clusterStream_Recv c
      = ({| Server.stream := st |}, inr (BadParameter "received invalid frame"))
      /\ Read Server.clusterSource n {| source := c; rBytes := [] |}
         = Done ({| source := {| Server.stream := st |}; rBytes := [] |}, [],
                 Some (ConnectionProblem
                         (Wrap (BadParameter "received invalid frame") "")
                         "failed to receive on source")))
  /\ (forall (st : Client.ClusterStream) (f : Frame),
      let c := {| Client.stream :=
                    arrives {| RespFrame := None |}
                      (arrives {| RespFrame := Some f |} st) |} in
      Client.clusterStream_Recv (fst (Client.clusterStream_Recv c))
      = ({| Client.stream := st |}, inl (Payload f)))
  /\ (forall (st : Server.ClusterStream) (cluster cluster' : string) (f : Frame),
      let c := {| Server.stream :=
                    arrives {| ReqCluster := cluster; ReqFrame := None |}
                      (arrives {| ReqCluster := cluster'; ReqFrame := Some f |}
                         st) |} in
      Server.clusterStream_Recv (fst (Server.clusterStream_Recv c))
      = ({| Server.stream := st |}, inl (Payload f)))
  /\ (forall keyring m st details,
      let resp := {| Details := details; SSHRespFrame := None |} in
      Client.mux_step keyring (Client.set_pc m Client.AtRecv (arrives resp st))
      = Done (Client.set_pc m Client.AtRecv st, [Client.Skipped resp]))
  /\ (forall ok m st target,
      let req := {| DialTarget := target; SSHReqFrame := None |} in
      Server.mux_step ok (Server.set_pc m Server.AtRecv (arrives req st))
      = Done (Server.set_pc m Server.AtRecv st,
              [Server.Logged "received unexpected ssh frame"])).
Proof.
  split; [|split; [|split; [|split; [|split]]]].
  - intros st n c.
    assert (H : Client.clusterStream_Recv c
                = ({| Client.stream := st |},
                   inr (BadParameter "received invalid frame"))).
    { unfold Client.clusterStream_Recv, c. cbn [Client.stream].
      now rewrite Recv_arrives. }
    split; [exact H|].
    unfold Read, Client.clusterSource. cbn [rBytes source]. now rewrite H.
  - intros st cluster n c.
    assert (H : Server.clusterStream_Recv c
                = ({| Server.stream := st |},
                   inr (BadParameter "received invalid frame"))).
    { unfold Server.clusterStream_Recv, c. cbn [Server.stream].
      now rewrite Recv_arrives. }
    split; [exact H|].
    unfold Read, Server.clusterSource. cbn [rBytes source]. now rewrite H.
  - intros st f c. unfold Client.clusterStream_Recv, c. cbn [Client.stream].
    rewrite Recv_arrives. cbn [RespFrame fst Client.stream].
    now rewrite Recv_arrives.
  - intros st cluster cluster' f c.
    unfold Server.clusterStream_Recv, c. cbn [Server.stream].
    rewrite Recv_arrives. cbn [ReqFrame fst Server.stream].
    now rewrite Recv_arrives.
  - intros. apply client_mux_skips_untagged.
  - intros. apply server_mux_skips_untagged.
Qed.

(* ================================================================== *)
(** ** The server's virtual stream: Close and Recv *)
(* ================================================================== *)

Lemma sshStream_Close_spec (s : Server.sshStream) :
  Server.sshStream_Close s
  = Done ({| Server.incomingC := Server.incomingC s; Server.done := true;
             Server.responseFn := Server.responseFn s |}, None).
Proof.
  unfold Server.sshStream_Close, Server.Close_select, chan_close.
  destruct s as [q [|] f]; reflexivity.
Qed.

Lemma sshStream_Close_two_steps (s : Server.sshStream) :
  Server.sshStream_Close s
  = match Server.Close_select s with
    | Server.close_case_done => Done (s, None)
    | Server.close_default =>
        match Server.Close_finish s with
        | Done s' => Done (s', None)
        | Blocked => Blocked
        | Panic => Panic
        end
    end.
Proof.
  unfold Server.sshStream_Close, Server.Close_finish.
  destruct (Server.Close_select s); [reflexivity|].
  now destruct (chan_close (Server.done s)).
Qed.

Lemma Close_select_closed (s : Server.sshStream) :
  Server.done s = true -> Server.Close_select s = Server.close_case_done.
Proof. unfold Server.Close_select. now intros ->. Qed.

Lemma Close_times_closed (n : nat) (s : Server.sshStream) :
  Server.done s = true ->
  Trace.Close_times n s
  = Done (s, repeat None n, repeat Server.close_case_done n).
Proof.
  revert s. induction n as [|n IH]; intros s Hd; [reflexivity|].
  cbn [Trace.Close_times repeat].
  rewrite sshStream_Close_spec.
  assert (Hs : {| Server.incomingC := Server.incomingC s; Server.done := true;
                  Server.responseFn := Server.responseFn s |} = s)
    by (destruct s; cbn in Hd; now subst).
  rewrite Hs, (IH s Hd), (Close_select_closed s Hd). reflexivity.
Qed.

Lemma Recv_after_close (pick : Server.select_case) (s : Server.sshStream) :
  Server.done s = true ->
  Server.sshStream_Recv pick s = Done (s, inr io_EOF)
  \/ exists frame rest,
      Server.incomingC s = frame :: rest
      /\ pick = Server.case_incomingC
      /\ Server.sshStream_Recv pick s
         = Done (Server.take_incomingC s frame rest).
Proof.
  intros Hd. unfold Server.sshStream_Recv. rewrite Hd.
  destruct (Server.incomingC s) as [|frame rest]; [now left|].
  destruct pick; try now left.
  right. now exists frame, rest.
Qed.

Example Close_twice :
  Trace.Close_times 2 (Server.newSSHStream Server.sshResponseFn)
  = Done ({| Server.incomingC := []; Server.done := true;
             Server.responseFn := Server.sshResponseFn |},
          [None; None], [Server.close_default; Server.close_case_done]).
Proof. reflexivity. Qed.

(** C9, as stated, fails: a frame is queued when the stream is closed, and
    a Recv after the Close returns that frame, not io.EOF. *)
Lemma Recv_after_Close_returns_queued_frame :
  let s := {| Server.incomingC := [Samples.hello]; Server.done := false;
              Server.responseFn := Server.sshResponseFn |} in
  let closed := {| Server.incomingC := [Samples.hello]; Server.done := true;
                   Server.responseFn := Server.sshResponseFn |} in
  Server.sshStream_Close s = Done (closed, None)
  /\ Server.sshStream_Recv Server.case_incomingC closed
     = Done ({| Server.incomingC := []; Server.done := true;
                Server.responseFn := Server.sshResponseFn |},
             inl Samples.hello)
  /\ Server.sshStream_Recv Server.case_incomingC closed
     <> Done (closed, inr io_EOF).
Proof. repeat split. discriminate. Qed.

(** C9 (amended): closing a server-side virtual stream is idempotent: any
    number of Close calls in a row all return nil without a panic, and only
    the first of them on an open stream closes the termination channel;
    after a Close every Recv returns at once, io.EOF when no frame is
    queued, and io.EOF or the oldest queued frame (the runtime's choice)
    when one is. *)
Theorem sshStream_Close_idempotent (s : Server.sshStream) (n : nat) :
  exists closed,
    Server.sshStream_Close s = Done (closed, None)
    /\ Server.done closed = true
    /\ Server.incomingC closed = Server.incomingC s
    /\ Trace.Close_times (S n) s
       = Done (closed, repeat None (S n),
               Server.Close_select s :: repeat Server.close_case_done n)
    /\ List.length
         (filter (fun c => match c with
                           | Server.close_default => true
                           | Server.close_case_done => false
                           end)
                 (Server.Close_select s :: repeat Server.close_case_done n))
       = (if Server.done s then 0 else 1)
    /\ (forall pick,
         Server.incomingC closed = [] ->
         Server.sshStream_Recv pick closed = Done (closed, inr io_EOF))
    /\ (forall pick frame rest,
         Server.incomingC closed = frame :: rest ->
         Server.sshStream_Recv pick closed = Done (closed, inr io_EOF)
         \/ Server.sshStream_Recv pick closed
            = Done (Server.take_incomingC closed frame rest)).
Proof.
  eexists. split; [apply sshStream_Close_spec|].
  split; [reflexivity|]. split; [reflexivity|].
  split; [|split; [|split]].
  - cbn [Trace.Close_times]. rewrite sshStream_Close_spec.
    rewrite Close_times_closed by reflexivity. reflexivity.
  - assert (H : forall k,
               filter (fun c => match c with
                                | Server.close_default => true
                                | Server.close_case_done => false
                                end)
                      (repeat Server.close_case_done k) = [])
      by (induction k; [reflexivity | assumption]).
    unfold Server.Close_select. cbn [filter].
    destruct (Server.done s); cbn; now rewrite H.
  - intros pick Hq. unfold Server.sshStream_Recv.
    cbn [Server.done Server.incomingC] in *. now rewrite Hq.
  - intros pick frame rest Hq.
    destruct (@Recv_after_close pick
                {| Server.incomingC := Server.incomingC s; Server.done := true;
                   Server.responseFn := Server.responseFn s |} eq_refl)
      as [H | (f & r & Hq' & _ & H)]; [now left|].
    right. rewrite H. rewrite Hq in Hq'. now inversion Hq'.
Qed.

(* ================================================================== *)
(** ** Host sessions: the ProxySSH handler *)
(* ================================================================== *)

Ltac handler :=
  unfold Server.ProxySSH, Server.ProxySSH_body, Server.bind, Server.or_fail,
    Server.deref, Server.defer, Server.emit, Server.emit_all, Server.ret,
    Server.fail, Server.finish, Server.panic, peer_FromContext, Recv.

Lemma dial_writes_spec (s : Server.sshStream) (parent : Server.SSHStream)
    (frames : list bytes) :
  Server.dial_writes s parent frames
  = match send_err parent with
    | None => map (fun frame => Server.AgentSent (Server.responseFn s frame))
                  frames
    | Some _ => []
    end.
Proof.
  revert parent. induction frames as [|frame rest IH]; intros parent.
  - now destruct (send_err parent).
  - cbn [Server.dial_writes map]. unfold Server.sshStream_Send, Send.
    destruct (send_err parent) as [e|] eqn:He; cbn [trace_Wrap].
    + rewrite IH, He. reflexivity.
    + rewrite IH. reflexivity.
Qed.

Lemma agent_sent_wire (st : Server.SSHStream) (rest : list ProxySSHRequest)
    (d : Server.dialed) (evs : list Server.hevent) :
  Trace.sent (Trace.agent_sent st rest d ++ evs) = Trace.sent evs
  /\ filter Trace.is_dial (Trace.agent_sent st rest d ++ evs)
     = filter Trace.is_dial evs
  /\ filter Obs.is_closed_agentRW (Trace.agent_sent st rest d ++ evs)
     = filter Obs.is_closed_agentRW evs
  /\ existsb Trace.is_go_mux (Trace.agent_sent st rest d ++ evs)
     = existsb Trace.is_go_mux evs
  /\ Obs.precedes Obs.is_sent Obs.is_proxy_conn
       (Trace.agent_sent st rest d ++ evs)
     = Obs.precedes Obs.is_sent Obs.is_proxy_conn evs
  /\ (forall resp,
      In resp (Trace.wire (Trace.agent_sent st rest d)) ->
      Details resp = None /\ Trace.is_agent_frame resp = true)
  /\ Trace.wire (Trace.agent_sent st rest d ++ evs)
     = Trace.wire (Trace.agent_sent st rest d) ++ Trace.wire evs
  /\ (Server.agent_writes d = [] -> Trace.agent_sent st rest d = []).
Proof.
  unfold Trace.agent_sent. rewrite dial_writes_spec.
  cbn [Trace.after_first send_err Server.newSSHStream Server.responseFn].
  destruct (send_err st);
    [cbn; repeat split; try reflexivity;
     first [now intros ? [] | now intros]|].
  induction (Server.agent_writes d) as [|frame frames IH].
  - cbn; repeat split; try reflexivity;
      first [now intros ? [] | now intros].
  - destruct IH as (H1 & H2 & H3 & H4 & H5 & H6 & H7 & _).
    cbn [map app Trace.sent filter existsb Obs.precedes Trace.wire
         Trace.is_dial Obs.is_closed_agentRW Trace.is_go_mux Obs.is_sent
         Obs.is_proxy_conn orb].
    split; [exact H1|]. split; [exact H2|]. split; [exact H3|].
    split; [exact H4|]. split; [exact H5|].
    split; [|split; [now rewrite H7 | discriminate]].
    intros resp [<-|H]; [now split | now apply H6].
Qed.

Section Handler.

Variable SplitHostPort : string -> option (string * string).
Variable ProxyConn : Server.net_Conn -> tag -> option error.

Let ProxySSH := Server.ProxySSH SplitHostPort ProxyConn.

Lemma ProxySSH_no_peer (s : Server.Service) (st : Server.SSHStream) :
  ctx_peer st = None ->
  ProxySSH s st
  = ([], Server.Return (Some (BadParameter "unable to find peer"))).
Proof. intros H. unfold ProxySSH. handler. now rewrite H. Qed.

Lemma ProxySSH_not_authorized (s : Server.Service) (st : Server.SSHStream)
    p checkerFn err :
  ctx_peer st = Some p ->
  Server.accessCheckerFn (Server.cfg s) = Some checkerFn ->
  checkerFn (PeerAuthInfo p) = inr err ->
  ProxySSH s st = ([], Server.Return (Some (Wrap err ""))).
Proof.
  intros Hp Hf He. unfold ProxySSH. handler. now rewrite Hp, Hf, He.
Qed.

Lemma ProxySSH_no_first_frame (s : Server.Service) (st : Server.SSHStream)
    p checkerFn checker :
  ctx_peer st = Some p ->
  Server.accessCheckerFn (Server.cfg s) = Some checkerFn ->
  checkerFn (PeerAuthInfo p) = inl checker ->
  inbound st = [] ->
  ProxySSH s st
  = ([Server.RecvFirst],
     Server.Return
       (Some (Wrap (terminal st) "failed receiving first frame"))).
Proof.
  intros Hp Hf Hc Hin. unfold ProxySSH. handler.
  now rewrite Hp, Hf, Hc, Hin.
Qed.

Lemma ProxySSH_no_dial_target (s : Server.Service) (st : Server.SSHStream)
    p checkerFn checker req rest :
  ctx_peer st = Some p ->
  Server.accessCheckerFn (Server.cfg s) = Some checkerFn ->
  checkerFn (PeerAuthInfo p) = inl checker ->
  inbound st = req :: rest ->
  DialTarget req = None ->
  ProxySSH s st
  = ([Server.RecvFirst],
     Server.Return
       (Some (BadParameter "first frame must contain a dial target"))).
Proof.
  intros Hp Hf Hc Hin Ht. unfold ProxySSH. handler.
  rewrite Hp, Hf, Hc, Hin. cbn. now rewrite Ht.
Qed.

Lemma ProxySSH_invalid_hostport (s : Server.Service) (st : Server.SSHStream)
    p checkerFn checker req rest target :
  ctx_peer st = Some p ->
  Server.accessCheckerFn (Server.cfg s) = Some checkerFn ->
  checkerFn (PeerAuthInfo p) = inl checker ->
  inbound st = req :: rest ->
  DialTarget req = Some target ->
  SplitHostPort (HostPort target) = None ->
  ProxySSH s st
  = ([Server.RecvFirst],
     Server.Return
       (Some (BadParameter "dial target contains an invalid hostport"))).
Proof.
  intros Hp Hf Hc Hin Ht Hs. unfold ProxySSH. handler.
  rewrite Hp, Hf, Hc, Hin. cbn. rewrite Ht. cbn. now rewrite Hs.
Qed.

Lemma ProxySSH_dial_failed (s : Server.Service) (st : Server.SSHStream)
    p checkerFn checker req rest target host port dialer getterFn err :
  ctx_peer st = Some p ->
  Server.accessCheckerFn (Server.cfg s) = Some checkerFn ->
  checkerFn (PeerAuthInfo p) = inl checker ->
  inbound st = req :: rest ->
  DialTarget req = Some target ->
  SplitHostPort (HostPort target) = Some (host, port) ->
  Server.Dialer_ (Server.cfg s) = Some dialer ->
  Server.agentGetterFn (Server.cfg s) = Some getterFn ->
  Server.dial_result
    (Server.DialHost dialer (PeerAddr p) host port (TargetCluster target)
       checker (getterFn agent)) = inr err ->
  ProxySSH s st
  = ([Server.RecvFirst;
      Server.GoMux (Trace.server_mux (Trace.after_first st rest));
      Server.CalledDialHost (PeerAddr p) host port (TargetCluster target)
        checker (getterFn agent)]
     ++ Trace.agent_sent st rest
          (Server.DialHost dialer (PeerAddr p) host port (TargetCluster target)
             checker (getterFn agent))
     ++ [Server.Closed_agentStreamRW],
     Server.Return (Some (Wrap err "failed to dial target host"))).
Proof.
  intros Hp Hf Hc Hin Ht Hs Hd Hg He. unfold ProxySSH. handler.
  rewrite Hp, Hf, Hc, Hin. cbn. rewrite Ht. cbn. rewrite Hs. cbn.
  rewrite Hd, Hg. cbn. rewrite He.
  unfold Trace.agent_sent, Trace.server_mux, Trace.after_first. rewrite Hp.
  cbn. now rewrite app_nil_r.
Qed.

Lemma ProxySSH_dialed (s : Server.Service) (st : Server.SSHStream)
    p checkerFn checker req rest target host port dialer getterFn conn :
  ctx_peer st = Some p ->
  Server.accessCheckerFn (Server.cfg s) = Some checkerFn ->
  checkerFn (PeerAuthInfo p) = inl checker ->
  inbound st = req :: rest ->
  DialTarget req = Some target ->
  SplitHostPort (HostPort target) = Some (host, port) ->
  Server.Dialer_ (Server.cfg s) = Some dialer ->
  Server.agentGetterFn (Server.cfg s) = Some getterFn ->
  Server.dial_result
    (Server.DialHost dialer (PeerAddr p) host port (TargetCluster target)
       checker (getterFn agent)) = inl conn ->
  ProxySSH s st
  = match send_err st with
    | Some err =>
        ([Server.RecvFirst;
          Server.GoMux (Trace.server_mux (Trace.after_first st rest));
          Server.CalledDialHost (PeerAddr p) host port (TargetCluster target)
            checker (getterFn agent);
          Server.Closed_agentStreamRW],
         Server.Return (Some (Wrap err "failed sending cluster details ")))
    | None =>
        ([Server.RecvFirst;
          Server.GoMux (Trace.server_mux (Trace.after_first st rest));
          Server.CalledDialHost (PeerAddr p) host port (TargetCluster target)
            checker (getterFn agent)]
         ++ Trace.agent_sent st rest
              (Server.DialHost dialer (PeerAddr p) host port
                 (TargetCluster target) checker (getterFn agent))
         ++ [Server.Sent {| Details :=
                              Some {| FipsEnabled :=
                                        Server.FIPS (Server.cfg s) |};
                            SSHRespFrame := None |};
             Server.CalledProxyConn conn;
             Server.Closed_agentStreamRW],
         Server.Return (trace_Wrap (ProxyConn conn ssh) ""))
    end.
Proof.
  intros Hp Hf Hc Hin Ht Hs Hd Hg He. unfold ProxySSH. handler.
  rewrite Hp, Hf, Hc, Hin. cbn. rewrite Ht. cbn. rewrite Hs. cbn.
  rewrite Hd, Hg. cbn. rewrite He. cbn.
  unfold Trace.agent_sent, Trace.server_mux, Trace.after_first. rewrite Hp.
  rewrite dial_writes_spec. cbn [send_err].
  destruct (send_err st); cbn; [reflexivity|].
  now rewrite <- !app_assoc.
Qed.

End Handler.

Lemma NewService_fields (c : Server.ServerConfig) (s : Server.Service) :
  Server.NewService c = (Some s, None) ->
  exists dialer getterFn checkerFn,
    Server.Dialer_ (Server.cfg s) = Some dialer
    /\ Server.agentGetterFn (Server.cfg s) = Some getterFn
    /\ Server.accessCheckerFn (Server.cfg s) = Some checkerFn
    /\ Server.FIPS (Server.cfg s) = Server.FIPS c.
Proof.
  unfold Server.NewService, Server.CheckAndSetDefaults, Server.or_default.
  destruct (Server.Dialer_ c) as [d|]; [|discriminate].
  intros H. inversion H; subst; clear H. cbn.
  exists d.
  destruct (Server.agentGetterFn c) as [g|], (Server.accessCheckerFn c) as [f|];
    eexists _, _; repeat split.
Qed.

(** The resolver [NewService] installs when none is configured denies
    every peer that carries no identity. *)
Lemma default_accessCheckerFn_denies (info : AuthInfo) :
  (forall checker, info <> IdentityInfo checker) ->
  Server.default_accessCheckerFn info
  = inr (AccessDenied "client is not authenticated").
Proof.
  intros H. destruct info; try reflexivity. now destruct (H Checker).
Qed.

Section HostSession.

Variable SplitHostPort : string -> option (string * string).
Variable ProxyConn : Server.net_Conn -> tag -> option error.

Let ProxySSH := Server.ProxySSH SplitHostPort ProxyConn.

(** C3: when no peer is attached to the stream's context, or the
    access-checker resolver returns an error for the peer's authentication
    information, ProxySSH returns that step's error (BadParameter for the
    missing peer, the resolver's error wrapped otherwise) with an empty
    trace: the Dialer's DialHost is never called and nothing is received or
    sent. *)
Theorem ProxySSH_unauthorized_never_dials
    (s : Server.Service) (st : Server.SSHStream) :
  (ctx_peer st = None
   \/ exists p checkerFn err,
       ctx_peer st = Some p
       /\ Server.accessCheckerFn (Server.cfg s) = Some checkerFn
       /\ checkerFn (PeerAuthInfo p) = inr err) ->
  exists autherr,
    ProxySSH s st = ([], Server.Return (Some autherr))
    /\ Trace.dial_calls (fst (ProxySSH s st)) = 0
    /\ (ctx_peer st = None -> autherr = BadParameter "unable to find peer")
    /\ (forall p checkerFn err,
         ctx_peer st = Some p ->
         Server.accessCheckerFn (Server.cfg s) = Some checkerFn ->
         checkerFn (PeerAuthInfo p) = inr err ->
         autherr = Wrap err "").
Proof.
  intros [Hnone | (p & f & err & Hp & Hf & He)].
  - exists (BadParameter "unable to find peer").
    unfold ProxySSH. rewrite (ProxySSH_no_peer _ _ _ _ Hnone).
    repeat split. intros p f e Hp. congruence.
  - exists (Wrap err "").
    unfold ProxySSH. rewrite (ProxySSH_not_authorized _ _ _ _ Hp Hf He).
    repeat split; [congruence|].
    intros p' f' e' Hp' Hf' He'. congruence.
Qed.

(** C8: once the peer is authorized and the first message has arrived, a
    message without a dial target, or with a host_port that does not split
    into host and port, makes ProxySSH return a BadParameter error right
    after that one receive: the Dialer is not called, the multiplexer is not
    started, nothing is sent, and the handler makes no second attempt. *)
Theorem ProxySSH_invalid_target_is_fatal
    (s : Server.Service) (st : Server.SSHStream)
    (p : Peer) (checkerFn : AuthInfo -> AccessChecker + error)
    (checker : AccessChecker) (req : ProxySSHRequest)
    (rest : list ProxySSHRequest) :
  ctx_peer st = Some p ->
  Server.accessCheckerFn (Server.cfg s) = Some checkerFn ->
  checkerFn (PeerAuthInfo p) = inl checker ->
  inbound st = req :: rest ->
  (DialTarget req = None
   \/ exists target,
       DialTarget req = Some target
       /\ SplitHostPort (HostPort target) = None) ->
  exists err,
    ProxySSH s st = ([Server.RecvFirst], Server.Return (Some err))
    /\ IsBadParameter err = true
    /\ Trace.dial_calls (fst (ProxySSH s st)) = 0
    /\ Trace.mux_started (fst (ProxySSH s st)) = false
    /\ Trace.sent (fst (ProxySSH s st)) = [].
Proof.
  intros Hp Hf Hc Hin [Ht | (target & Ht & Hs)].
  - eexists. unfold ProxySSH.
    rewrite (ProxySSH_no_dial_target _ _ _ _ Hp Hf Hc Hin Ht).
    repeat split.
  - eexists. unfold ProxySSH.
    rewrite (ProxySSH_invalid_hostport _ _ _ _ Hp Hf Hc Hin Ht Hs).
    repeat split.
Qed.

End HostSession.

Lemma ProxySSH_unauthorized_never_dials_witness :
  let s := Samples.service Samples.dialer_ok in
  let st := Samples.server_stream (Some Samples.anonymous)
              [Samples.dial_request "node:22"] in
  (ctx_peer st = None
   \/ exists p checkerFn err,
       ctx_peer st = Some p
       /\ Server.accessCheckerFn (Server.cfg s) = Some checkerFn
       /\ checkerFn (PeerAuthInfo p) = inr err)
  /\ exists autherr,
      Server.ProxySSH Samples.split_colon Samples.proxy_until_eof s st
      = ([], Server.Return (Some autherr))
      /\ autherr = Wrap (AccessDenied "client is not authenticated") "".
Proof.
  intros s st.
  assert (H : ctx_peer st = None
              \/ exists p checkerFn err,
                  ctx_peer st = Some p
                  /\ Server.accessCheckerFn (Server.cfg s) = Some checkerFn
                  /\ checkerFn (PeerAuthInfo p) = inr err).
  { right.
    exists Samples.anonymous, Server.default_accessCheckerFn,
      (AccessDenied "client is not authenticated").
    repeat split. }
  split; [exact H|].
  destruct (@ProxySSH_unauthorized_never_dials
              Samples.split_colon Samples.proxy_until_eof s st H)
    as (autherr & Hrun & _ & _ & Hauth).
  exists autherr. split; [exact Hrun|].
  apply (Hauth Samples.anonymous Server.default_accessCheckerFn);
    reflexivity.
Defined.

Lemma ProxySSH_invalid_target_is_fatal_witness :
  let s := Samples.service Samples.dialer_ok in
  let st := Samples.server_stream (Some Samples.peer0)
              [Samples.dial_request "no-port"] in
  (ctx_peer st = Some Samples.peer0
   /\ Server.accessCheckerFn (Server.cfg s) = Some Server.default_accessCheckerFn
   /\ Server.default_accessCheckerFn (PeerAuthInfo Samples.peer0) = inl 7
   /\ inbound st = [Samples.dial_request "no-port"]
   /\ Samples.split_colon "no-port" = None)
  /\ exists err,
      Server.ProxySSH Samples.split_colon Samples.proxy_until_eof s st
      = ([Server.RecvFirst], Server.Return (Some err))
      /\ IsBadParameter err = true
      /\ Trace.dial_calls
           (fst (Server.ProxySSH Samples.split_colon Samples.proxy_until_eof
                   s st)) = 0
      /\ Trace.mux_started
           (fst (Server.ProxySSH Samples.split_colon Samples.proxy_until_eof
                   s st)) = false
      /\ Trace.sent
           (fst (Server.ProxySSH Samples.split_colon Samples.proxy_until_eof
                   s st)) = [].
Proof.
  intros s st. split; [repeat split|].
  apply (@ProxySSH_invalid_target_is_fatal
           Samples.split_colon Samples.proxy_until_eof s st Samples.peer0
           Server.default_accessCheckerFn 7 (Samples.dial_request "no-port") []);
    try reflexivity.
  right. eexists. split; reflexivity.
Defined.

(** The virtual streams of the server never carry cluster details. *)
Lemma responseFn_without_details (payload : bytes) :
  Details (Server.sshResponseFn payload) = None
  /\ Details (Server.agentResponseFn payload) = None.
Proof. split; reflexivity. Qed.






Lemma wire_app (e1 e2 : list Server.hevent) :
  Trace.wire (e1 ++ e2) = Trace.wire e1 ++ Trace.wire e2.
Proof.
  induction e1 as [|ev e1 IH]; [reflexivity|].
  destruct ev; cbn [app Trace.wire]; now rewrite IH.
Qed.


Section DetailsGateData.

Variable SplitHostPort : string -> option (string * string).
Variable ProxyConn : Server.net_Conn -> tag -> option error.

Let ProxySSH := Server.ProxySSH SplitHostPort ProxyConn.


End DetailsGateData.



Example ProxySSH_failed_dial_trace :
  Server.ProxySSH Samples.split_colon Samples.proxy_until_eof
    (Samples.service Samples.dialer_down)
    (Samples.server_stream (Some Samples.peer0) [Samples.dial_request "node:22"])
  = ([Server.RecvFirst;
      Server.GoMux (Trace.server_mux (Samples.server_stream (Some Samples.peer0) []));
      Server.CalledDialHost "192.0.2.1:3024" "node" "22" "root" 7
        (Server.GetterOver agent);
      Server.Closed_agentStreamRW],
     Server.Return
       (Some (Wrap (ConnectionProblem (Status "down") "")
                "failed to dial target host"))).
Proof. reflexivity. Qed.

Example ProxySSH_established_trace :
  Server.ProxySSH Samples.split_colon Samples.proxy_until_eof
    (Samples.service Samples.dialer_ok)
    (Samples.server_stream (Some Samples.peer0) [Samples.dial_request "node:22"])
  = ([Server.RecvFirst;
      Server.GoMux (Trace.server_mux (Samples.server_stream (Some Samples.peer0) []));
      Server.CalledDialHost "192.0.2.1:3024" "node" "22" "root" 7
        (Server.GetterOver agent);
      Server.Sent {| Details := Some {| FipsEnabled := true |};
                     SSHRespFrame := None |};
      Server.CalledProxyConn 2;
      Server.Closed_agentStreamRW],
     Server.Return None).
Proof. reflexivity. Qed.

(* ================================================================== *)
(** ** Runs of the client's multiplexer *)
(* ================================================================== *)

Lemma client_enqueued_app (t : tag) (e1 e2 : list Client.event) :
  Trace.client_enqueued t (e1 ++ e2)
  = Trace.client_enqueued t e1 ++ Trace.client_enqueued t e2.
Proof.
  induction e1 as [|ev e1 IH]; [reflexivity|].
  destruct ev; cbn; try exact IH.
  destruct (Trace.tag_eqb t t0); cbn; now rewrite IH.
Qed.

Lemma client_received_app (t : tag) (e1 e2 : list Client.event) :
  Trace.client_received t (e1 ++ e2)
  = Trace.client_received t e1 ++ Trace.client_received t e2.
Proof.
  induction e1 as [|ev e1 IH]; [reflexivity|].
  destruct ev; cbn; try exact IH.
  destruct (Trace.tag_eqb t t0); cbn; now rewrite IH.
Qed.

Lemma serve_starts_app (e1 e2 : list Client.event) :
  Trace.serve_starts (e1 ++ e2)
  = Trace.serve_starts e1 + Trace.serve_starts e2.
Proof.
  unfold Trace.serve_starts. now rewrite filter_app, length_app.
Qed.

Lemma chan_send_inv (T : Type) (cap : nat) (c c' : list T) (v : T) :
  chan_send cap c v = Some c' -> c' = c ++ [v] /\ List.length c < cap.
Proof.
  unfold chan_send. destruct (Nat.ltb (List.length c) cap) eqn:E; [|discriminate].
  intros H. inversion H. split; [reflexivity|]. now apply Nat.ltb_lt.
Qed.

Lemma chan_send_full (T : Type) (cap : nat) (c : list T) (v : T) :
  cap <= List.length c -> chan_send cap c v = None.
Proof.
  intros H. unfold chan_send.
  destruct (Nat.ltb (List.length c) cap) eqn:E; [|reflexivity].
  apply Nat.ltb_lt in E. lia.
Qed.

Lemma chan_send_room (T : Type) (cap : nat) (c : list T) (v : T) :
  List.length c < cap -> chan_send cap c v = Some (c ++ [v]).
Proof.
  intros H. unfold chan_send.
  destruct (Nat.ltb (List.length c) cap) eqn:E; [reflexivity|].
  apply Nat.ltb_ge in E. lia.
Qed.

Lemma Recv_inv (In Out : Type) (s s' : Stream In Out) (r : In + error) :
  Recv s = (s', r) ->
  (exists m, r = inl m /\ inbound s = m :: inbound s')
  \/ (r = inr (terminal s) /\ inbound s = [] /\ s' = s).
Proof.
  unfold Recv. destruct (inbound s) as [|m rest] eqn:E; intros H;
    inversion H; subst; clear H.
  - right. now repeat split.
  - left. exists m. now split.
Qed.

Lemma Send_inbound (In Out : Type) (s s' : Stream In Out) (m : Out)
    (e : option error) :
  Send s m = (s', e) -> inbound s' = inbound s.
Proof.
  unfold Send. destruct (send_err s); intros H; inversion H; now subst.
Qed.

Lemma Recv_terminal (In Out : Type) (s s' : Stream In Out) (r : In + error) :
  Recv s = (s', r) -> terminal s' = terminal s.
Proof.
  unfold Recv. destruct (inbound s); intros H; inversion H; now subst.
Qed.

Lemma client_Send_terminal (s : Client.sshStream) (par st : Client.SSHStream)
    (frame : bytes) (e : option error) :
  Client.sshStream_Send s par frame = (st, e) -> terminal st = terminal par.
Proof.
  unfold Client.sshStream_Send, Send.
  destruct (send_err par); intros H; inversion H; now subst.
Qed.

Lemma client_Send_inbound (s : Client.sshStream) (par st : Client.SSHStream)
    (frame : bytes) (e : option error) :
  Client.sshStream_Send s par frame = (st, e) -> inbound st = inbound par.
Proof.
  unfold Client.sshStream_Send.
  destruct (Send par (Client.requestFn s frame)) as [st' e'] eqn:E.
  intros H. inversion H; subst. exact (Send_inbound _ _ E).
Qed.

Lemma server_Send_inbound (s : Server.sshStream) (par st : Server.SSHStream)
    (frame : bytes) (e : option error) :
  Server.sshStream_Send s par frame = (st, e) -> inbound st = inbound par.
Proof.
  unfold Server.sshStream_Send.
  destruct (Send par (Server.responseFn s frame)) as [st' e'] eqn:E.
  intros H. inversion H; subst. exact (Send_inbound _ _ E).
Qed.

(** Every case of one step of the client's system, as equations on the
    components of the state. *)
Ltac client_step H :=
  unfold Client.step, Client.mux_step, Client.sshStream_Recv,
    Client.take_errorC, Client.take_incomingC,
    Client.set_pc, Client.with_stream, Client.stream_of, Client.push_incoming,
    Client.push_error, Client.recv_event in H;
  cbn in H;
  repeat (first
            [ match type of H with
              | context [match ?x with _ => _ end] => is_var x; destruct x
              end
            | match type of H with
              | context [match ?x with _ => _ end] => destruct x eqn:?
              end ];
          cbn in H);
  try discriminate;
  inversion H; subst; clear H;
  repeat match goal with
         | E : chan_send _ _ _ = Some _ |- _ =>
             apply chan_send_inv in E; destruct E; subst
         | E : Recv _ = (_, _) |- _ =>
             apply Recv_inv in E;
             destruct E as [(? & ? & ?) | (? & ? & ?)]; subst
         | E : Client.sshStream_Send _ _ _ = (_, _) |- _ =>
             apply client_Send_inbound in E
         | E : Server.sshStream_Send _ _ _ = (_, _) |- _ =>
             apply server_Send_inbound in E
         | E : inl _ = inl _ |- _ => injection E as E; subst
         | E : inr _ = inr _ |- _ => injection E as E; subst
         | E : inl _ = inr _ |- _ => discriminate E
         | E : inr _ = inl _ |- _ => discriminate E
         end.

Lemma client_step_fifo (keyring : option Client.Keyring) (a : Client.action)
    (m m' : Client.mux) (evs : list Client.event) (t : tag) :
  Client.step keyring a m = Done (m', evs) ->
  Client.incomingC (Client.stream_of t m) ++ Trace.client_enqueued t evs
  = Trace.client_received t evs ++ Client.incomingC (Client.stream_of t m')
  /\ (List.length (Client.incomingC (Client.stream_of t m)) <= Client.incomingC_cap ->
      List.length (Client.incomingC (Client.stream_of t m')) <= Client.incomingC_cap).
Proof.
  intros H. destruct m as [par s a' once c1 c2 p]. destruct s, a'.
  destruct a as [|[|] pick|[|] frame];
  client_step H; destruct t; cbn in *; subst; cbn;
    rewrite ?app_nil_r, ?length_app; cbn;
    unfold Client.incomingC_cap in *; split; try reflexivity; try lia.
Qed.

Lemma client_run_fifo (keyring : option Client.Keyring)
    (sched : list Client.action) (m : Client.mux) (t : tag) :
  Client.incomingC (Client.stream_of t m)
    ++ Trace.client_enqueued t (snd (Client.run keyring sched m))
  = Trace.client_received t (snd (Client.run keyring sched m))
    ++ Client.incomingC (Client.stream_of t (fst (Client.run keyring sched m)))
  /\ (List.length (Client.incomingC (Client.stream_of t m))
        <= Client.incomingC_cap ->
      List.length
        (Client.incomingC (Client.stream_of t (fst (Client.run keyring sched m))))
        <= Client.incomingC_cap).
Proof.
  revert m. induction sched as [|a rest IH]; intros m.
  - cbn. rewrite app_nil_r. split; [reflexivity | trivial].
  - cbn [Client.run].
    destruct (Client.step keyring a m) as [[m1 e1]| |] eqn:Hstep;
      try apply IH.
    destruct (@client_step_fifo keyring a m m1 e1 t Hstep) as [Hq Hlen].
    destruct (IH m1) as [Hq' Hlen'].
    destruct (Client.run keyring rest m1) as [m2 e2]. cbn [fst snd] in *.
    rewrite client_enqueued_app, client_received_app.
    split; [|auto].
    rewrite app_assoc, Hq, <- app_assoc, Hq', app_assoc. reflexivity.
Qed.

(* ================================================================== *)
(** ** Runs of the server's multiplexer *)
(* ================================================================== *)

Lemma server_enqueued_app (t : tag) (e1 e2 : list Server.event) :
  Trace.server_enqueued t (e1 ++ e2)
  = Trace.server_enqueued t e1 ++ Trace.server_enqueued t e2.
Proof.
  induction e1 as [|ev e1 IH]; [reflexivity|].
  destruct ev; cbn; try exact IH.
  destruct (Trace.tag_eqb t t0); cbn; now rewrite IH.
Qed.

Lemma server_received_app (t : tag) (e1 e2 : list Server.event) :
  Trace.server_received t (e1 ++ e2)
  = Trace.server_received t e1 ++ Trace.server_received t e2.
Proof.
  induction e1 as [|ev e1 IH]; [reflexivity|].
  destruct ev; cbn; try exact IH.
  destruct (Trace.tag_eqb t t0); cbn; now rewrite IH.
Qed.

Ltac server_step H :=
  unfold Server.step, Server.mux_step, Server.mux_Close_select,
    Server.mux_Close_finish, Server.Close_finish, Server.Close_select,
    Server.unexpected, chan_close,
    Server.sshStream_Recv, Server.take_incomingC,
    Server.set_pc, Server.with_stream, Server.with_closers, Server.closers_of,
    Server.stream_of, Server.push_incoming, Server.recv_event in H;
  cbn in H;
  repeat (first
            [ match type of H with
              | context [match ?x with _ => _ end] => is_var x; destruct x
              end
            | match type of H with
              | context [match ?x with _ => _ end] => destruct x eqn:?
              end ];
          cbn in H);
  try discriminate;
  inversion H; subst; clear H;
  repeat match goal with
         | E : chan_send _ _ _ = Some _ |- _ =>
             apply chan_send_inv in E; destruct E; subst
         | E : Recv _ = (_, _) |- _ =>
             apply Recv_inv in E;
             destruct E as [(? & ? & ?) | (? & ? & ?)]; subst
         | E : Client.sshStream_Send _ _ _ = (_, _) |- _ =>
             apply client_Send_inbound in E
         | E : Server.sshStream_Send _ _ _ = (_, _) |- _ =>
             apply server_Send_inbound in E
         | E : inl _ = inl _ |- _ => injection E as E; subst
         | E : inr _ = inr _ |- _ => injection E as E; subst
         | E : inl _ = inr _ |- _ => discriminate E
         | E : inr _ = inl _ |- _ => discriminate E
         end.

(** A run that does not panic is the run kept up to a panic. *)
Lemma server_run_exec (ok : error -> bool) (sched : list Server.action)
    (m : Server.mux) :
  Server.run ok sched m
  = match Server.exec ok sched m with
    | (m', evs, false) => Some (m', evs)
    | (_, _, true) => None
    end.
Proof.
  revert m. induction sched as [|a rest IH]; intros m; [reflexivity|].
  cbn [Server.run Server.exec].
  destruct (Server.step ok a m) as [[m1 e1]| |]; [|apply IH | reflexivity].
  rewrite IH. now destruct (Server.exec ok rest m1) as [[m2 e2] [|]].
Qed.

(** Induction on the steps of a run whose actions all satisfy [allowed]:
    a relation between the state at the start, the events, and the state
    reached, up to a panic if there is one. *)
Lemma server_exec_rel (ok : error -> bool) (allowed : Server.action -> bool)
    (R : Server.mux -> list Server.event -> Server.mux -> Prop) :
  (forall m, R m [] m) ->
  (forall a m m1 e1 m2 e2,
      allowed a = true ->
      Server.step ok a m = Done (m1, e1) ->
      R m1 e2 m2 -> R m (e1 ++ e2) m2) ->
  forall sched m,
    forallb allowed sched = true ->
    R m (snd (fst (Server.exec ok sched m)))
        (fst (fst (Server.exec ok sched m))).
Proof.
  intros Hrefl Hstep sched.
  induction sched as [|a rest IH]; intros m Hall; [apply Hrefl|].
  cbn [forallb] in Hall. apply andb_prop in Hall. destruct Hall as [Ha Hall].
  cbn [Server.exec].
  destruct (Server.step ok a m) as [[m1 e1]| |] eqn:E.
  - specialize (IH m1 Hall).
    destruct (Server.exec ok rest m1) as [[m2 e2] panicked].
    cbn [fst snd] in *. now apply (Hstep a m m1 e1 m2 e2).
  - now apply IH.
  - apply Hrefl.
Qed.

Lemma forallb_any (A : Type) (l : list A) : forallb (fun _ => true) l = true.
Proof. induction l; [reflexivity | assumption]. Qed.

Lemma server_step_fifo (ok : error -> bool) (a : Server.action)
    (m m' : Server.mux) (evs : list Server.event) (t : tag) :
  Server.step ok a m = Done (m', evs) ->
  Server.incomingC (Server.stream_of t m) ++ Trace.server_enqueued t evs
  = Trace.server_received t evs ++ Server.incomingC (Server.stream_of t m')
  /\ (List.length (Server.incomingC (Server.stream_of t m))
        <= Server.incomingC_cap ->
      List.length (Server.incomingC (Server.stream_of t m'))
        <= Server.incomingC_cap).
Proof.
  intros H. destruct m as [par s a' p n1 n2]. destruct s, a'.
  destruct a as [|[|] pick|[|] frame|[|]|[|]];
  server_step H; destruct t; cbn in *; subst; cbn;
    rewrite ?server_enqueued_app, ?server_received_app; cbn;
    rewrite ?app_nil_r, ?length_app; cbn;
    unfold Server.incomingC_cap in *; split; try reflexivity; try lia.
Qed.

(** In every schedule, up to a panic if there is one: the frames put on a
    queue are those received from it followed by those still in it, and
    the queue keeps within its capacity. *)
Lemma server_run_fifo (ok : error -> bool) (sched : list Server.action)
    (m : Server.mux) (t : tag) :
  let m' := fst (fst (Server.exec ok sched m)) in
  let evs := snd (fst (Server.exec ok sched m)) in
  Server.incomingC (Server.stream_of t m) ++ Trace.server_enqueued t evs
  = Trace.server_received t evs ++ Server.incomingC (Server.stream_of t m')
  /\ (List.length (Server.incomingC (Server.stream_of t m))
        <= Server.incomingC_cap ->
      List.length (Server.incomingC (Server.stream_of t m'))
        <= Server.incomingC_cap).
Proof.
  apply (@server_exec_rel ok (fun _ => true)
           (fun m evs m' =>
              Server.incomingC (Server.stream_of t m)
                ++ Trace.server_enqueued t evs
              = Trace.server_received t evs
                  ++ Server.incomingC (Server.stream_of t m')
              /\ (List.length (Server.incomingC (Server.stream_of t m))
                    <= Server.incomingC_cap ->
                  List.length (Server.incomingC (Server.stream_of t m'))
                    <= Server.incomingC_cap)));
    [| |apply forallb_any].
  - intros m0. cbn. rewrite app_nil_r. split; [reflexivity | trivial].
  - intros a m0 m1 e1 m2 e2 _ Hstep [Hq' Hlen'].
    destruct (@server_step_fifo ok a m0 m1 e1 t Hstep) as [Hq Hlen].
    rewrite server_enqueued_app, server_received_app.
    split; [|auto].
    rewrite app_assoc, Hq, <- app_assoc, Hq', app_assoc. reflexivity.
Qed.

(* ================================================================== *)
(** ** Virtual streams: order and loss of frames *)
(* ================================================================== *)

Lemma server_Recv_done_keeps_queue (s : Server.sshStream) :
  Server.done s = true ->
  Server.sshStream_Recv Server.case_done s = Done (s, inr io_EOF).
Proof.
  intros H. unfold Server.sshStream_Recv. rewrite H.
  now destruct (Server.incomingC s).
Qed.

Lemma server_run_app (ok : error -> bool) (s1 s2 : list Server.action)
    (m m1 : Server.mux) (e1 : list Server.event) :
  Server.run ok s1 m = Some (m1, e1) ->
  Server.run ok (s1 ++ s2) m
  = match Server.run ok s2 m1 with
    | Some (m2, e2) => Some (m2, e1 ++ e2)
    | None => None
    end.
Proof.
  revert m m1 e1. induction s1 as [|a s1 IH]; intros m m1 e1 H.
  - cbn in H. inversion H; subst. cbn.
    now destruct (Server.run ok s2 m1) as [[m2 e2]|].
  - cbn [Server.run app] in *.
    destruct (Server.step ok a m) as [[m' e']| |]; try discriminate.
    + destruct (Server.run ok s1 m') as [[m'' e'']|] eqn:Hr; [|discriminate].
      inversion H; subst. rewrite (IH _ _ _ Hr).
      destruct (Server.run ok s2 m1) as [[m2 e2]|]; [|reflexivity].
      now rewrite app_assoc.
    + now apply IH.
Qed.

Lemma server_run_Recv_done (ok : error -> bool) (n : nat) (m : Server.mux) :
  Server.done (Server.sshS m) = true ->
  Server.run ok (repeat (Server.CallRecv ssh Server.case_done) n) m
  = Some (m, repeat (Server.ReceivedErr ssh io_EOF) n).
Proof.
  intros Hd. induction n as [|n IH]; [reflexivity|].
  cbn [repeat Server.run Server.step Server.stream_of].
  rewrite (server_Recv_done_keeps_queue _ Hd).
  assert (Hm : Server.with_stream ssh m (Server.sshS m) = m) by now destruct m.
  rewrite Hm, IH. reflexivity.
Qed.

Lemma server_received_errs (t : tag) (n : nat) (e : error) :
  Trace.server_received t (repeat (Server.ReceivedErr ssh e) n) = [].
Proof. induction n; [reflexivity | exact IHn]. Qed.

(** C2 (code bug): frames queued when the session ends are lost.  Server
    side: the client sends one ssh frame and ends the stream; the
    multiplexer queues the frame and closes both virtual streams; the next
    Recv returns io.EOF with the frame still queued, and so does every
    later Recv for which the runtime picks the [done] case: the frame is
    never returned, though the multiplexer's own comment says that all
    data is flushed.  Client side: a Recv returns the stream's error while
    a frame queued before it is still in the queue. *)
Theorem queued_frames_lost_at_termination :
  (let m0 := Trace.server_mux
               (Samples.server_stream (Some Samples.peer0)
                  [Samples.ssh_request Samples.hello]) in
   let closed := {| Server.incomingC := [Samples.hello]; Server.done := true;
                    Server.responseFn := Server.sshResponseFn |} in
   let mux_runs := repeat Server.Mux 7 in
   exists m,
     Server.run Samples.eof_is_ok
       (mux_runs ++ [Server.CallRecv ssh Server.case_done]) m0
     = Some (m, [Server.Enqueued ssh Samples.hello; Server.StreamClosed agent;
                 Server.StreamClosed ssh; Server.ReceivedErr ssh io_EOF])
     /\ Server.sshS m = closed
     /\ Server.pc m = Server.Returned
     /\ forall n,
         exists evs,
           Server.run Samples.eof_is_ok
             (mux_runs ++ repeat (Server.CallRecv ssh Server.case_done) n) m0
           = Some (m, evs)
           /\ Trace.server_enqueued ssh evs = [Samples.hello]
           /\ Trace.server_received ssh evs = [])
  /\ (let m0 := Client.start_mux
                  (Samples.client_stream [Samples.ssh_response Samples.hello]
                     (Status "transport is closing")) in
      exists m,
        Client.run None
          [Client.Mux; Client.Mux; Client.Mux; Client.Mux;
           Client.CallRecv ssh Client.case_errorC] m0
        = (m, [Client.Enqueued ssh Samples.hello;
               Client.ErrorSent ssh (Status "transport is closing");
               Client.ReceivedErr ssh (Wrap (Status "transport is closing") "")])
        /\ Client.incomingC (Client.sshS m) = [Samples.hello]).
Proof.
  split.
  - intros m0 closed mux_runs. eexists. split; [reflexivity|].
    split; [reflexivity|]. split; [reflexivity|].
    intros n. eexists.
    split.
    + erewrite server_run_app by reflexivity.
      rewrite server_run_Recv_done by reflexivity. reflexivity.
    + rewrite server_enqueued_app, server_received_app,
        server_received_errs.
      split; [|reflexivity].
      cbn. clear. induction n; [reflexivity | exact IHn].
  - intros m0. eexists. split; reflexivity.
Qed.

Lemma client_Recv_before_termination (pick : Client.select_case)
    (s : Client.sshStream) (frame : bytes) (rest : list bytes) :
  Client.errorC s = [] ->
  Client.incomingC s = frame :: rest ->
  Client.sshStream_Recv pick s = Done (Client.take_incomingC s frame rest).
Proof.
  intros He Hq. unfold Client.sshStream_Recv. now rewrite He, Hq.
Qed.

Lemma server_Recv_before_termination (pick : Server.select_case)
    (s : Server.sshStream) (frame : bytes) (rest : list bytes) :
  Server.done s = false ->
  Server.incomingC s = frame :: rest ->
  Server.sshStream_Recv pick s = Done (Server.take_incomingC s frame rest).
Proof.
  intros Hd Hq. unfold Server.sshStream_Recv. now rewrite Hd, Hq.
Qed.

Lemma client_mux_send (keyring : option Client.Keyring) (m : Client.mux)
    (t : tag) (payload : bytes) :
  Client.pc m = match t with
                | ssh => Client.AtSendSsh payload
                | agent => Client.AtSendAgent payload
                end ->
  let q := Client.incomingC (Client.stream_of t m) in
  (Client.incomingC_cap <= List.length q ->
   Client.mux_step keyring m = Blocked)
  /\ (List.length q < Client.incomingC_cap ->
      exists m',
        Client.mux_step keyring m = Done (m', [Client.Enqueued t payload])
        /\ Client.incomingC (Client.stream_of t m') = q ++ [payload]
        /\ Client.pc m' = Client.AtRecv).
Proof.
  intros Hpc q. unfold Client.mux_step. subst q.
  destruct t; rewrite Hpc; cbn [Client.stream_of]; split; intros H.
  - now rewrite chan_send_full.
  - rewrite chan_send_room by exact H. eexists. repeat split.
  - now rewrite chan_send_full.
  - rewrite chan_send_room by exact H. eexists. repeat split.
Qed.

Lemma server_mux_send (ok : error -> bool) (m : Server.mux)
    (t : tag) (payload : bytes) :
  Server.pc m = match t with
                | ssh => Server.AtSendSsh payload
                | agent => Server.AtSendAgent payload
                end ->
  let q := Server.incomingC (Server.stream_of t m) in
  (Server.incomingC_cap <= List.length q ->
   Server.mux_step ok m = Blocked)
  /\ (List.length q < Server.incomingC_cap ->
      exists m',
        Server.mux_step ok m = Done (m', [Server.Enqueued t payload])
        /\ Server.incomingC (Server.stream_of t m') = q ++ [payload]
        /\ Server.pc m' = Server.AtRecv).
Proof.
  intros Hpc q. unfold Server.mux_step. subst q.
  destruct t; rewrite Hpc; cbn [Server.stream_of]; split; intros H.
  - now rewrite chan_send_full.
  - rewrite chan_send_room by exact H. eexists. repeat split.
  - now rewrite chan_send_full.
  - rewrite chan_send_room by exact H. eexists. repeat split.
Qed.

(** X20: order and bound of the queues.  For every virtual stream, ssh or
    agent, on the client and on the server, and for every schedule of the
    multiplexer and the callers of Recv, Send and Close, up to a panic if
    there is one: the queue never holds more than 10 frames; the
    multiplexer blocks on a full queue, holding its frame, and appends the
    frame when there is room; the frames returned by Recv so far, followed
    by the frames still queued, are exactly the frames enqueued so far, in
    order; and as long as the stream's termination signal has not fired
    (no error in errorC on the client, done not closed on the server), a
    Recv with a frame queued returns the oldest queued frame. *)
Theorem virtual_stream_fifo :
  (forall keyring st sched t,
      Trace.client_enqueued t (snd (Client.run keyring sched (Client.start_mux st)))
      = Trace.client_received t
          (snd (Client.run keyring sched (Client.start_mux st)))
        ++ Client.incomingC
             (Client.stream_of t
                (fst (Client.run keyring sched (Client.start_mux st))))
      /\ List.length
           (Client.incomingC
              (Client.stream_of t
                 (fst (Client.run keyring sched (Client.start_mux st)))))
         <= 10)
  /\ (forall ok st sched t,
      let m := fst (fst (Server.exec ok sched (Trace.server_mux st))) in
      let evs := snd (fst (Server.exec ok sched (Trace.server_mux st))) in
      Trace.server_enqueued t evs
      = Trace.server_received t evs
          ++ Server.incomingC (Server.stream_of t m)
      /\ List.length (Server.incomingC (Server.stream_of t m)) <= 10)
  /\ (forall keyring m t payload,
      Client.pc m = match t with
                    | ssh => Client.AtSendSsh payload
                    | agent => Client.AtSendAgent payload
                    end ->
      let q := Client.incomingC (Client.stream_of t m) in
      (10 <= List.length q -> Client.mux_step keyring m = Blocked)
      /\ (List.length q < 10 ->
          exists m',
            Client.mux_step keyring m = Done (m', [Client.Enqueued t payload])
            /\ Client.incomingC (Client.stream_of t m') = q ++ [payload]
            /\ Client.pc m' = Client.AtRecv))
  /\ (forall ok m t payload,
      Server.pc m = match t with
                    | ssh => Server.AtSendSsh payload
                    | agent => Server.AtSendAgent payload
                    end ->
      let q := Server.incomingC (Server.stream_of t m) in
      (10 <= List.length q -> Server.mux_step ok m = Blocked)
      /\ (List.length q < 10 ->
          exists m',
            Server.mux_step ok m = Done (m', [Server.Enqueued t payload])
            /\ Server.incomingC (Server.stream_of t m') = q ++ [payload]
            /\ Server.pc m' = Server.AtRecv))
  /\ (forall pick s frame rest,
      Client.errorC s = [] ->
      Client.incomingC s = frame :: rest ->
      Client.sshStream_Recv pick s = Done (Client.take_incomingC s frame rest))
  /\ (forall pick s frame rest,
      Server.done s = false ->
      Server.incomingC s = frame :: rest ->
      Server.sshStream_Recv pick s = Done (Server.take_incomingC s frame rest)).
Proof.
  split; [|split; [|split; [|split; [|split]]]].
  - intros keyring st sched t.
    destruct (client_run_fifo keyring sched (Client.start_mux st) t)
      as [Hq Hlen].
    split.
    + rewrite <- Hq. now destruct t.
    + apply Hlen. destruct t; cbn; unfold Client.incomingC_cap; lia.
  - intros ok st sched t m evs.
    destruct (server_run_fifo ok sched (Trace.server_mux st) t)
      as [Hq Hlen].
    fold m in Hq, Hlen. fold evs in Hq. split.
    + rewrite <- Hq. now destruct t.
    + apply Hlen. destruct t; cbn; unfold Server.incomingC_cap; lia.
  - intros keyring m t payload Hpc. exact (client_mux_send keyring m t payload Hpc).
  - intros ok m t payload Hpc. exact (server_mux_send ok m t payload Hpc).
  - intros. now apply client_Recv_before_termination.
  - intros. now apply server_Recv_before_termination.
Qed.

(* ================================================================== *)
(** ** The client's multiplexer: lazy agent serving *)
(* ================================================================== *)

Lemma client_step_serve (keyring : option Client.Keyring) (a : Client.action)
    (m m' : Client.mux) (evs : list Client.event) :
  Client.step keyring a m = Done (m', evs) ->
  exists consumed,
    inbound (Client.parent m) = consumed ++ inbound (Client.parent m')
    /\ Client.serveOnce m'
       = Client.serveOnce m
         || (Trace.has_keyring keyring && existsb Trace.is_agent_frame consumed)
    /\ Trace.serve_starts evs
       = (if Client.serveOnce m then 0
          else if Client.serveOnce m' then 1 else 0).
Proof.
  intros H. destruct m as [par s a' once c1 c2 p]. destruct s, a'.
  destruct a as [|[|] pick|[|] frame];
    client_step H; cbn in *;
    first
      [ exists []; cbn; rewrite ?andb_false_r, ?orb_false_r;
        repeat split;
        solve [ congruence
              | repeat match goal with
                       | |- context [if ?b then _ else _] => destruct b
                       end; reflexivity ]
      | match goal with
        | E : inbound _ = ?r :: _ |- _ =>
            exists [r]; cbn; unfold Trace.is_agent_frame;
            repeat match goal with
                   | E' : SSHRespFrame _ = _ |- _ => rewrite E'
                   end;
            cbn; rewrite ?andb_false_r, ?orb_false_r, ?orb_true_r;
            repeat split;
            solve [ congruence
                  | repeat match goal with
                           | |- context [if ?b then _ else _] => destruct b
                           end; reflexivity ]
        end ].
Qed.

Lemma client_run_serve (keyring : option Client.Keyring)
    (sched : list Client.action) (m : Client.mux) :
  exists consumed,
    inbound (Client.parent m)
    = consumed ++ inbound (Client.parent (fst (Client.run keyring sched m)))
    /\ Client.serveOnce (fst (Client.run keyring sched m))
       = Client.serveOnce m
         || (Trace.has_keyring keyring && existsb Trace.is_agent_frame consumed)
    /\ Trace.serve_starts (snd (Client.run keyring sched m))
       = (if Client.serveOnce m then 0
          else if Client.serveOnce (fst (Client.run keyring sched m))
               then 1 else 0).
Proof.
  revert m. induction sched as [|a rest IH]; intros m.
  - exists []. cbn. rewrite andb_false_r, orb_false_r.
    repeat split. now destruct (Client.serveOnce m).
  - cbn [Client.run].
    destruct (Client.step keyring a m) as [[m1 e1]| |] eqn:Hstep;
      try apply IH.
    destruct (client_step_serve _ _ _ Hstep) as (c1 & Hc1 & Ho1 & Hs1).
    destruct (IH m1) as (c2 & Hc2 & Ho2 & Hs2).
    destruct (Client.run keyring rest m1) as [m2 e2]. cbn [fst snd] in *.
    exists (c1 ++ c2). split; [|split].
    + rewrite Hc1, Hc2. now rewrite app_assoc.
    + rewrite Ho2, Ho1, existsb_app.
      destruct (Client.serveOnce m), (Trace.has_keyring keyring),
        (existsb Trace.is_agent_frame c1), (existsb Trace.is_agent_frame c2);
        reflexivity.
    + rewrite serve_starts_app, Hs1, Hs2, Ho2, Ho1.
      destruct (Client.serveOnce m), (Trace.has_keyring keyring),
        (existsb Trace.is_agent_frame c1), (existsb Trace.is_agent_frame c2);
        reflexivity.
Qed.

(** C7: in every schedule of a client host session, agent.ServeAgent is
    started at most once, and it has been started exactly when a keyring was
    supplied and the multiplexer has taken at least one agent-tagged frame
    from the stream: never without a keyring, never before the first agent
    frame, and not again for later agent frames. *)
Theorem agent_served_once_and_lazily
    (keyring : option Client.Keyring) (st : Client.SSHStream)
    (sched : list Client.action) :
  let m := fst (Client.run keyring sched (Client.start_mux st)) in
  let evs := snd (Client.run keyring sched (Client.start_mux st)) in
  exists consumed,
    inbound st = consumed ++ inbound (Client.parent m)
    /\ Trace.serve_starts evs
       = (if Trace.has_keyring keyring && existsb Trace.is_agent_frame consumed
          then 1 else 0)
    /\ Trace.serve_starts evs <= 1
    /\ (keyring = None -> Trace.serve_starts evs = 0)
    /\ (existsb Trace.is_agent_frame (inbound st) = false ->
        Trace.serve_starts evs = 0).
Proof.
  intros m evs.
  destruct (client_run_serve keyring sched (Client.start_mux st))
    as (c & Hc & Ho & Hs).
  fold m in Hc, Ho, Hs. fold evs in Hs. cbn in Hc, Ho, Hs.
  exists c. split; [exact Hc|].
  assert (Hcount : Trace.serve_starts evs
                   = (if Trace.has_keyring keyring
                         && existsb Trace.is_agent_frame c
                      then 1 else 0))
    by (rewrite Hs, Ho; reflexivity).
  split; [exact Hcount|]. split; [|split].
  - rewrite Hcount.
    destruct (Trace.has_keyring keyring && existsb Trace.is_agent_frame c); lia.
  - intros ->. now rewrite Hcount.
  - intros Hnone. rewrite Hcount.
    rewrite Hc, existsb_app in Hnone. apply orb_false_elim in Hnone.
    destruct Hnone as [-> _]. now rewrite andb_false_r.
Qed.

Example agent_served_once :
  Trace.serve_starts
    (snd (Client.run (Some 1)
            [Client.Mux; Client.Mux; Client.Mux; Client.Mux; Client.Mux]
            (Client.start_mux
               (Samples.client_stream
                  [Samples.agent_response Samples.hello;
                   Samples.agent_response Samples.hello;
                   Samples.ssh_response Samples.hello] io_EOF)))) = 1
  /\ Trace.serve_starts
       (snd (Client.run None
               [Client.Mux; Client.Mux; Client.Mux; Client.Mux; Client.Mux]
               (Client.start_mux
                  (Samples.client_stream
                     [Samples.agent_response Samples.hello;
                      Samples.agent_response Samples.hello;
                      Samples.ssh_response Samples.hello] io_EOF)))) = 0.
Proof. split; reflexivity. Qed.

(* ================================================================== *)
(** ** The client's multiplexer: the terminal error *)
(* ================================================================== *)

Lemma client_inv_start (st : Client.SSHStream) :
  Trace.client_inv (Client.start_mux st).
Proof. repeat split. Qed.

Lemma client_step_inv (keyring : option Client.Keyring) (a : Client.action)
    (m m' : Client.mux) (evs : list Client.event) :
  Trace.client_inv m ->
  Client.step keyring a m = Done (m', evs) ->
  Trace.client_inv m' /\ existsb Trace.is_agent_error evs = false.
Proof.
  intros [Ha Hp] H. destruct m as [par s a' once c1 c2 p]. destruct s, a'.
  cbn in Ha. subst.
  destruct a as [|[|] pick|[|] frame];
    client_step H; unfold Trace.client_inv; cbn in *;
    try discriminate;
    try (destruct p; cbn in *);
    intuition (try discriminate; try congruence; subst; cbn; try lia).
Qed.

Lemma client_run_inv (keyring : option Client.Keyring)
    (sched : list Client.action) (m : Client.mux) :
  Trace.client_inv m ->
  Trace.client_inv (fst (Client.run keyring sched m))
  /\ existsb Trace.is_agent_error (snd (Client.run keyring sched m)) = false.
Proof.
  revert m. induction sched as [|a rest IH]; intros m Hinv.
  - now split.
  - cbn [Client.run].
    destruct (Client.step keyring a m) as [[m1 e1]| |] eqn:Hstep;
      try now apply IH.
    destruct (@client_step_inv keyring a m m1 e1 Hinv Hstep) as [Hinv1 He1].
    destruct (IH m1 Hinv1) as [Hinv2 He2].
    destruct (Client.run keyring rest m1) as [m2 e2]. cbn [fst snd] in *.
    split; [exact Hinv2|]. rewrite existsb_app, He1, He2. reflexivity.
Qed.

Lemma client_Recv_error (pick : Client.select_case) (s : Client.sshStream)
    (e : error) :
  Client.errorC s = [e] ->
  (Client.incomingC s = [] \/ pick = Client.case_errorC) ->
  Client.sshStream_Recv pick s
  = Done (Client.push_error s [], inr (Wrap e "")).
Proof.
  intros He Hq. unfold Client.sshStream_Recv, Client.take_errorC. rewrite He.
  destruct (Client.incomingC s) as [|frame ic] eqn:Hic.
  - unfold Client.push_error. now rewrite Hic.
  - destruct Hq as [Hq | ->]; [discriminate|].
    unfold Client.push_error. now rewrite Hic.
Qed.

Lemma client_run_rel (keyring : option Client.Keyring)
    (R : Client.mux -> list Client.event -> Client.mux -> Prop) :
  (forall m, R m [] m) ->
  (forall a m m1 e1 m2 e2,
      Client.step keyring a m = Done (m1, e1) ->
      R m1 e2 m2 -> R m (e1 ++ e2) m2) ->
  forall sched m,
    R m (snd (Client.run keyring sched m)) (fst (Client.run keyring sched m)).
Proof.
  intros Hrefl Hstep sched.
  induction sched as [|a rest IH]; intros m; [apply Hrefl|].
  cbn [Client.run].
  destruct (Client.step keyring a m) as [[m1 e1]| |] eqn:E; try apply IH.
  specialize (IH m1).
  destruct (Client.run keyring rest m1) as [m2 e2]. cbn [fst snd] in *.
  now apply (Hstep a m m1 e1 m2 e2).
Qed.

Lemma client_run_app (keyring : option Client.Keyring)
    (s1 s2 : list Client.action) (m : Client.mux) :
  Client.run keyring (s1 ++ s2) m
  = (fst (Client.run keyring s2 (fst (Client.run keyring s1 m))),
     snd (Client.run keyring s1 m)
       ++ snd (Client.run keyring s2 (fst (Client.run keyring s1 m)))).
Proof.
  revert m. induction s1 as [|a s1 IH]; intros m.
  - cbn. now destruct (Client.run keyring s2 m).
  - cbn [app Client.run].
    destruct (Client.step keyring a m) as [[m1 e1]| |]; try apply IH.
    rewrite IH.
    destruct (Client.run keyring s1 m1) as [m2 e2]. cbn [fst snd].
    now rewrite app_assoc.
Qed.

Lemma errors_sent_app (e1 e2 : list Client.event) :
  Obs.errors_sent (e1 ++ e2) = Obs.errors_sent e1 ++ Obs.errors_sent e2.
Proof.
  induction e1 as [|ev e1 IH]; [reflexivity|].
  destruct ev; cbn [app Obs.errors_sent]; now rewrite IH.
Qed.

(** One step of the client's system and the error: the multiplexer holds
    no error but the one its receive returned, and puts it on the ssh
    stream's error channel, once, as it returns. *)
Lemma client_step_error (keyring : option Client.Keyring) (a : Client.action)
    (m m' : Client.mux) (evs : list Client.event) :
  (forall e, Client.pc m = Client.AtSendErr e ->
             e = terminal (Client.parent m)) ->
  Client.step keyring a m = Done (m', evs) ->
  terminal (Client.parent m') = terminal (Client.parent m)
  /\ (forall e, Client.pc m' = Client.AtSendErr e ->
                e = terminal (Client.parent m'))
  /\ (Obs.returned m = true -> Obs.returned m' = true)
  /\ Obs.errors_sent evs
     = (if Obs.returned m then []
        else if Obs.returned m' then [(ssh, terminal (Client.parent m))]
             else []).
Proof.
  intros Hinv H. unfold Obs.returned.
  destruct m as [par s a' once c1 c2 p]. cbn in Hinv |- *.
  destruct a as [|t pick|t frame]; cbn [Client.step] in H.
  - unfold Client.mux_step in H. cbn [Client.pc Client.parent] in H.
    destruct p as [|e|payload|payload|].
    + destruct (Recv par) as [st r] eqn:ER.
      pose proof (Recv_terminal _ ER) as HT.
      destruct r as [req|err].
      * destruct (SSHRespFrame req) as [[f|f]|]; [|destruct keyring|];
          cbn in H; inversion H; subst; cbn;
          repeat split; try discriminate; auto;
          now destruct once.
      * apply Recv_inv in ER.
        destruct ER as [(x & Hx & _)|(Hx & _ & ->)]; [discriminate|].
        inversion Hx; subst. inversion H; subst. cbn.
        repeat split; try discriminate; auto.
        intros e He. now inversion He.
    + destruct (chan_send Client.errorC_cap (Client.errorC (Client.sshS _)) e)
        eqn:Ec; [|discriminate].
      inversion H; subst. cbn. rewrite (Hinv e eq_refl).
      repeat split; try discriminate; auto.
    + destruct (chan_send _ _ _); [|discriminate].
      inversion H; subst. cbn. repeat split; try discriminate; auto.
    + destruct (chan_send _ _ _); [|discriminate].
      inversion H; subst. cbn. repeat split; try discriminate; auto.
    + discriminate.
  - destruct (Client.sshStream_Recv pick _) as [[s' r]| |]; try discriminate.
    inversion H; subst.
    destruct t, r; cbn; repeat split; auto; now destruct p.
  - destruct (Client.sshStream_Send _ _ _) as [st e] eqn:ES.
    pose proof (client_Send_terminal _ _ _ ES) as HT.
    inversion H; subst. cbn in *.
    repeat split; auto; try (rewrite HT; auto); now destruct p.
Qed.

Lemma client_run_error (keyring : option Client.Keyring)
    (sched : list Client.action) (m : Client.mux) :
  (forall e, Client.pc m = Client.AtSendErr e ->
             e = terminal (Client.parent m)) ->
  let m' := fst (Client.run keyring sched m) in
  let evs := snd (Client.run keyring sched m) in
  terminal (Client.parent m') = terminal (Client.parent m)
  /\ (forall e, Client.pc m' = Client.AtSendErr e ->
                e = terminal (Client.parent m'))
  /\ (Obs.returned m = true -> Obs.returned m' = true)
  /\ Obs.errors_sent evs
     = (if Obs.returned m then []
        else if Obs.returned m' then [(ssh, terminal (Client.parent m))]
             else []).
Proof.
  intros Hinv m' evs. subst m' evs. revert Hinv.
  apply (@client_run_rel keyring
           (fun m evs m' =>
              (forall e, Client.pc m = Client.AtSendErr e ->
                         e = terminal (Client.parent m)) ->
              terminal (Client.parent m') = terminal (Client.parent m)
              /\ (forall e, Client.pc m' = Client.AtSendErr e ->
                            e = terminal (Client.parent m'))
              /\ (Obs.returned m = true -> Obs.returned m' = true)
              /\ Obs.errors_sent evs
                 = (if Obs.returned m then []
                    else if Obs.returned m'
                         then [(ssh, terminal (Client.parent m))]
                         else []))).
  - intros m0 Hinv. repeat split; auto.
    now destruct (Obs.returned m0).
  - intros a m0 m1 e1 m2 e2 Hstep IH Hinv.
    destruct (@client_step_error keyring a m0 m1 e1 Hinv Hstep)
      as (HT1 & Hinv1 & Hr1 & He1).
    destruct (IH Hinv1) as (HT2 & Hinv2 & Hr2 & He2).
    split; [congruence|]. split; [exact Hinv2|]. split; [auto|].
    rewrite errors_sent_app, He1, He2, HT1.
    destruct (Obs.returned m0) eqn:E0.
    + now rewrite (Hr1 eq_refl).
    + destruct (Obs.returned m1) eqn:E1.
      * now rewrite (Hr2 eq_refl).
      * reflexivity.
Qed.

(** The multiplexer whose receive has failed delivers the error in its
    next two steps, neither of which can block. *)
Lemma client_mux_delivers (keyring : option Client.Keyring) (m : Client.mux) :
  Client.pc m = Client.AtRecv ->
  inbound (Client.parent m) = [] ->
  Client.errorC (Client.sshS m) = [] ->
  Client.run keyring [Client.Mux; Client.Mux] m
  = ({| Client.parent := Client.parent m;
        Client.sshS := Client.push_error (Client.sshS m)
                         [terminal (Client.parent m)];
        Client.agentS := Client.agentS m;
        Client.serveOnce := Client.serveOnce m;
        Client.agentRW_closed := true;
        Client.sshConn_closed := true;
        Client.pc := Client.Returned |},
     [Client.ErrorSent ssh (terminal (Client.parent m))]).
Proof.
  intros Hpc Hin Herr.
  destruct m as [par s a once c1 c2 p]. cbn in Hpc, Hin, Herr. subst p.
  cbn [Client.run Client.step]. unfold Client.mux_step at 1.
  cbn [Client.pc Client.parent]. rewrite (Recv_ended _ Hin).
  unfold Client.mux_step, Client.set_pc. cbn.
  rewrite Herr. reflexivity.
Qed.

(** Under the schedule that reads each frame as it is queued, the
    multiplexer gets to the end of the stream and delivers the error. *)
Lemma client_drain (keyring : option Client.Keyring)
    (resps : list ProxySSHResponse) (m : Client.mux) :
  Client.pc m = Client.AtRecv ->
  inbound (Client.parent m) = resps ->
  (forall t, Client.incomingC (Client.stream_of t m) = []
             /\ Client.errorC (Client.stream_of t m) = []) ->
  let d := Client.run keyring (Obs.drain keyring resps) m in
  Client.pc (fst d) = Client.Returned
  /\ Client.errorC (Client.sshS (fst d)) = [terminal (Client.parent m)]
  /\ Client.errorC (Client.agentS (fst d)) = []
  /\ Obs.errors_sent (snd d) = [(ssh, terminal (Client.parent m))]
  /\ Client.agentRW_closed (fst d) = true
  /\ Client.sshConn_closed (fst d) = true.
Proof.
  revert m. induction resps as [|resp rest IH]; intros m Hpc Hin Hq d.
  - subst d. cbn [Obs.drain].
    rewrite (client_mux_delivers keyring m Hpc Hin (proj2 (Hq ssh))).
    cbn. repeat split. exact (proj2 (Hq agent)).
  - subst d. cbn [Obs.drain]. rewrite client_run_app.
    destruct m as [par s a once c1 c2 p]. cbn in Hpc, Hin. subst p.
    destruct par as [inb term se cp ob]. cbn in Hin. subst inb.
    destruct (Hq ssh) as [Hs1 Hs2]. destruct (Hq agent) as [Ha1 Ha2].
    destruct s as [sq se' sf], a as [aq ae af]. cbn in Hs1, Hs2, Ha1, Ha2.
    subst sq se' aq ae. cbn [fst snd Client.parent terminal].
    destruct once;
      (destruct resp as [det [[f|f]|]]; [|destruct keyring as [k|]|]);
      cbn [SSHRespFrame Trace.has_keyring];
      match goal with
      | |- context [Client.run ?k (Obs.drain ?k rest) (fst ?r)] =>
          let r' := eval cbn in r in
          change r with r';
          cbn [fst snd];
          match goal with
          | |- context [Client.run k (Obs.drain k rest) ?m1] =>
              destruct (IH m1 eq_refl eq_refl) as (H1 & H2 & H3 & H4 & H5 & H6);
              [intros [|]; split; reflexivity|];
              cbn [Client.parent terminal] in H2, H4;
              rewrite errors_sent_app, H4;
              repeat split; try assumption; reflexivity
          end
      end.
Qed.

(** C6: in every schedule of a client host session, no error is ever put
    into, or returned from, the agent virtual stream, whose error channel
    stays empty: the one error the multiplexer ever hands on is the one
    its receive on the parent stream returned, it goes to the ssh stream's
    error channel, once, as the multiplexer returns.  Whenever that
    receive fails the error is delivered: the multiplexer's next two steps
    cannot block, put the error into the ssh stream's error channel and
    return, leaving the agent stream untouched, and the deferred function
    closes the agent reader/writer and the connection; the agent
    reader/writer is closed at no other point.  A later Recv on the ssh
    stream returns the error (wrapped): at once when no frame is queued,
    and whenever the runtime picks the error case otherwise; a read of the
    agent reader/writer never returns it: it returns a frame, or, once the
    reader/writer is closed, the end of the stream.  Under the schedule
    that reads every frame as it is queued, the multiplexer does get to
    the failing receive. *)
Theorem terminal_error_only_to_ssh_stream
    (keyring : option Client.Keyring) (st : Client.SSHStream)
    (sched : list Client.action) :
  let m := fst (Client.run keyring sched (Client.start_mux st)) in
  let evs := snd (Client.run keyring sched (Client.start_mux st)) in
  Client.errorC (Client.agentS m) = []
  /\ existsb Trace.is_agent_error evs = false
  /\ Obs.errors_sent evs
     = (if Obs.returned m then [(ssh, terminal st)] else [])
  /\ (Client.agentRW_closed m = true <-> Client.pc m = Client.Returned)
  /\ (forall pick m' r,
      Client.agentRW_Recv pick m = Done (m', r) ->
      (exists frame, r = inl frame)
      \/ (r = inr io_EOF /\ Client.pc m = Client.Returned))
  /\ (Client.pc m = Client.AtRecv ->
      inbound (Client.parent m) = [] ->
      exists m2,
        Client.run keyring [Client.Mux; Client.Mux] m
        = (m2, [Client.ErrorSent ssh (terminal st)])
        /\ Client.pc m2 = Client.Returned
        /\ Client.errorC (Client.sshS m2) = [terminal st]
        /\ Client.incomingC (Client.sshS m2) = Client.incomingC (Client.sshS m)
        /\ Client.agentS m2 = Client.agentS m
        /\ Client.agentRW_closed m2 = true
        /\ Client.sshConn_closed m2 = true
        /\ (forall pick,
            Client.incomingC (Client.sshS m2) = []
            \/ pick = Client.case_errorC ->
            Client.sshStream_Recv pick (Client.sshS m2)
            = Done (Client.push_error (Client.sshS m2) [],
                    inr (Wrap (terminal st) "")))
        /\ (forall pick,
            Client.agentRW_Recv pick m2 = Done (m2, inr io_EOF)))
  /\ (forall e,
      Client.pc m = Client.AtSendErr e ->
      e = terminal st
      /\ exists m',
          Client.mux_step keyring m = Done (m', [Client.ErrorSent ssh e])
          /\ Client.errorC (Client.sshS m') = [e]
          /\ Client.incomingC (Client.sshS m')
             = Client.incomingC (Client.sshS m)
          /\ Client.agentS m' = Client.agentS m
          /\ Client.pc m' = Client.Returned
          /\ Client.agentRW_closed m' = true
          /\ Client.sshConn_closed m' = true
          /\ (forall pick,
              Client.incomingC (Client.sshS m') = []
              \/ pick = Client.case_errorC ->
              Client.sshStream_Recv pick (Client.sshS m')
              = Done (Client.push_error (Client.sshS m') [],
                      inr (Wrap e ""))))
  /\ (let d := Client.run keyring (Obs.drain keyring (inbound st))
                 (Client.start_mux st) in
      Client.pc (fst d) = Client.Returned
      /\ Client.errorC (Client.sshS (fst d)) = [terminal st]
      /\ Client.errorC (Client.agentS (fst d)) = []
      /\ Obs.errors_sent (snd d) = [(ssh, terminal st)]
      /\ Client.agentRW_closed (fst d) = true
      /\ Client.sshConn_closed (fst d) = true).
Proof.
  intros m evs.
  destruct (@client_run_inv keyring sched (Client.start_mux st)
              (client_inv_start st)) as [[Hagent Hpc] Hevs].
  fold m in Hagent, Hpc. fold evs in Hevs.
  destruct (@client_run_error keyring sched (Client.start_mux st))
    as (HT & Hheld & _ & Hsent); [discriminate|].
  fold m in HT, Hheld, Hsent. fold evs in Hsent. cbn in HT, Hsent.
  split; [exact Hagent|]. split; [exact Hevs|]. split; [exact Hsent|].
  split; [|split; [|split; [|split]]].
  - destruct (Client.pc m); split; intros H;
      try discriminate; try reflexivity;
      destruct Hpc as (H1 & H2 & H3); congruence.
  - intros pick m' r. unfold Client.agentRW_Recv.
    destruct (Client.agentRW_closed m) eqn:Hc.
    + intros H. inversion H; subst. right. split; [reflexivity|].
      destruct (Client.pc m); try reflexivity;
        destruct Hpc as (_ & H2 & _); congruence.
    + unfold Client.sshStream_Recv. rewrite Hagent.
      destruct (Client.incomingC (Client.agentS m)); [discriminate|].
      unfold Client.take_incomingC. intros H. inversion H; subst.
      left. eauto.
  - intros Hat Hin. rewrite Hat in Hpc. destruct Hpc as (Herr & _ & _).
    rewrite (client_mux_delivers keyring m Hat Hin Herr). rewrite HT.
    eexists. split; [reflexivity|].
    cbn [Client.sshS Client.agentS Client.pc Client.agentRW_closed
         Client.sshConn_closed Client.errorC Client.incomingC
         Client.push_error].
    repeat split.
    + intros pick Hq. apply client_Recv_error; [reflexivity | exact Hq].
  - intros e Hat. pose proof (Hheld e Hat) as He. rewrite HT in He.
    split; [exact He|].
    rewrite Hat in Hpc. destruct Hpc as (Herr & _ & _).
    unfold Client.mux_step. rewrite Hat, Herr. cbn.
    eexists. split; [reflexivity|].
    cbn [Client.sshS Client.agentS Client.pc Client.agentRW_closed
         Client.sshConn_closed Client.errorC Client.incomingC
         Client.push_error].
    repeat split.
    intros pick Hq. apply client_Recv_error; [reflexivity | exact Hq].
  - exact (@client_drain keyring (inbound st) (Client.start_mux st)
             eq_refl eq_refl
             (fun t => match t with
                       | ssh => conj eq_refl eq_refl
                       | agent => conj eq_refl eq_refl
                       end)).
Qed.

Example terminal_error_delivered :
  let m := fst (Client.run (Some 1)
                  [Client.Mux; Client.Mux; Client.Mux; Client.Mux;
                   Client.CallRecv ssh Client.case_incomingC;
                   Client.CallRecv ssh Client.case_incomingC]
                  (Client.start_mux
                     (Samples.client_stream
                        [Samples.ssh_response Samples.hello]
                        (Status "transport is closing")))) in
  let evs := snd (Client.run (Some 1)
                    [Client.Mux; Client.Mux; Client.Mux; Client.Mux;
                     Client.CallRecv ssh Client.case_incomingC;
                     Client.CallRecv ssh Client.case_incomingC]
                    (Client.start_mux
                       (Samples.client_stream
                          [Samples.ssh_response Samples.hello]
                          (Status "transport is closing")))) in
  evs = [Client.Enqueued ssh Samples.hello;
         Client.ErrorSent ssh (Status "transport is closing");
         Client.Received ssh Samples.hello;
         Client.ReceivedErr ssh (Wrap (Status "transport is closing") "")]
  /\ Client.agentRW_closed m = true
  /\ Client.errorC (Client.agentS m) = [].
Proof. repeat split. Qed.

(* ================================================================== *)
(** ** Routing by frame tag *)
(* ================================================================== *)












Example server_routes_ssh_frame :
  Server.run Samples.eof_is_ok [Server.Mux; Server.Mux]
    (Trace.server_mux
       (Samples.server_stream (Some Samples.peer0)
          [Samples.ssh_request Samples.hello]))
  = Some ({| Server.parent := Samples.server_stream (Some Samples.peer0) [];
             Server.sshS := {| Server.incomingC := [Samples.hello];
                               Server.done := false;
                               Server.responseFn := Server.sshResponseFn |};
             Server.agentS := Server.newSSHStream Server.agentResponseFn;
             Server.pc := Server.AtRecv;
             Server.sshClosers := 0; Server.agentClosers := 0 |},
          [Server.Enqueued ssh Samples.hello]).
Proof. reflexivity. Qed.

(* ================================================================== *)
(** ** Close under arbitrary schedules *)
(* ================================================================== *)

Lemma closes_app (t : tag) (e1 e2 : list Server.event) :
  Trace.closes t (e1 ++ e2) = Trace.closes t e1 + Trace.closes t e2.
Proof. unfold Trace.closes. now rewrite filter_app, length_app. Qed.

Lemma server_step_closes (ok : error -> bool) (a : Server.action)
    (m m' : Server.mux) (evs : list Server.event) (t : tag) :
  Server.step ok a m = Done (m', evs) ->
  (Server.done (Server.stream_of t m) = true ->
   Server.done (Server.stream_of t m') = true)
  /\ Trace.closes t evs
     = (if Server.done (Server.stream_of t m) then 0
        else if Server.done (Server.stream_of t m') then 1 else 0).
Proof.
  intros H. destruct m as [par s a' p n1 n2]. destruct s, a'.
  destruct a as [|[|] pick|[|] frame|[|]|[|]];
    server_step H; destruct t; cbn in *;
    unfold Trace.closes; rewrite ?filter_app, ?length_app; cbn;
    repeat match goal with
           | |- context [if ?b then _ else _] => destruct b
           end;
    cbn; split; try reflexivity; try congruence; try lia; auto.
Qed.

(** In every schedule of the multiplexer and of callers of Recv, Send and
    Close, up to a panic if there is one, the [done] channel of each
    stream is closed at most once, and stays closed. *)
Lemma server_run_closes_once (ok : error -> bool) (sched : list Server.action)
    (m : Server.mux) (t : tag) :
  let m' := fst (fst (Server.exec ok sched m)) in
  let evs := snd (fst (Server.exec ok sched m)) in
  (Server.done (Server.stream_of t m) = true ->
   Server.done (Server.stream_of t m') = true)
  /\ Trace.closes t evs
     = (if Server.done (Server.stream_of t m) then 0
        else if Server.done (Server.stream_of t m') then 1 else 0).
Proof.
  apply (@server_exec_rel ok (fun _ => true)
           (fun m evs m' =>
              (Server.done (Server.stream_of t m) = true ->
               Server.done (Server.stream_of t m') = true)
              /\ Trace.closes t evs
                 = (if Server.done (Server.stream_of t m) then 0
                    else if Server.done (Server.stream_of t m') then 1
                         else 0)));
    [| |apply forallb_any].
  - intros m0. split; [auto|].
    now destruct (Server.done (Server.stream_of t m0)).
  - intros a m0 m1 e1 m2 e2 _ Hstep [Hm2 Hc2].
    destruct (@server_step_closes ok a m0 m1 e1 t Hstep) as [Hm1 Hc1].
    split; [auto|]. rewrite closes_app, Hc1, Hc2.
    destruct (Server.done (Server.stream_of t m0)) eqn:E0.
    + now rewrite (Hm1 eq_refl).
    + destruct (Server.done (Server.stream_of t m1)) eqn:E1.
      * now rewrite (Hm2 eq_refl).
      * reflexivity.
Qed.

(** Two Close calls that overlap panic: both take the [default] case of
    the [select], and the second [close(s.done)] finds the channel
    closed. *)
Example overlapping_Close_panics :
  Server.run Samples.eof_is_ok
    [Server.CallClose ssh; Server.CallClose ssh;
     Server.FinishClose ssh; Server.FinishClose ssh]
    (Trace.server_mux (Samples.server_stream (Some Samples.peer0) []))
  = None
  /\ exists m,
      Server.run Samples.eof_is_ok
        [Server.CallClose ssh; Server.FinishClose ssh;
         Server.CallClose ssh; Server.FinishClose ssh]
        (Trace.server_mux (Samples.server_stream (Some Samples.peer0) []))
      = Some (m, [Server.StreamClosed ssh])
      /\ Server.done (Server.sshS m) = true.
Proof. split; [reflexivity|]. eexists. split; reflexivity. Qed.

(* ================================================================== *)
(** ** Configuration of the service *)
(* ================================================================== *)

(** X1: CheckAndSetDefaults on a configuration with a Dialer never fails,
    keeps FIPS, the Dialer and every optional field that was configured,
    fills the missing optional fields with the defaults, and is idempotent:
    applying it to its own result changes nothing. *)
Theorem CheckAndSetDefaults_idempotent
    (c : Server.ServerConfig) (d : Server.Dialer) :
  Server.Dialer_ c = Some d ->
  exists c',
    Server.CheckAndSetDefaults c = (c', None)
    /\ Server.CheckAndSetDefaults c' = (c', None)
    /\ Server.FIPS c' = Server.FIPS c
    /\ Server.Dialer_ c' = Some d
    /\ Server.Logger c'
       = Some (match Server.Logger c with
               | Some l => l
               | None => Server.default_Logger
               end)
    /\ Server.agentGetterFn c'
       = Some (match Server.agentGetterFn c with
               | Some g => g
               | None => Server.default_agentGetterFn
               end)
    /\ Server.accessCheckerFn c'
       = Some (match Server.accessCheckerFn c with
               | Some f => f
               | None => Server.default_accessCheckerFn
               end).
Proof.
  intros Hd. unfold Server.CheckAndSetDefaults. rewrite Hd.
  eexists. split; [reflexivity|]. cbn.
  destruct (Server.Logger c), (Server.agentGetterFn c),
    (Server.accessCheckerFn c); repeat split.
Qed.

Lemma CheckAndSetDefaults_idempotent_witness :
  Server.Dialer_ (Samples.config Samples.dialer_ok) = Some Samples.dialer_ok
  /\ exists c',
      Server.CheckAndSetDefaults (Samples.config Samples.dialer_ok) = (c', None)
      /\ Server.CheckAndSetDefaults c' = (c', None)
      /\ Server.accessCheckerFn c' = Some Server.default_accessCheckerFn.
Proof.
  split; [reflexivity|].
  destruct (@CheckAndSetDefaults_idempotent
              (Samples.config Samples.dialer_ok) Samples.dialer_ok eq_refl)
    as (c' & H1 & H2 & _ & _ & _ & _ & H3).
  exists c'. repeat split; assumption.
Defined.

Section Configured.

Variable SplitHostPort : string -> option (string * string).
Variable ProxyConn : Server.net_Conn -> tag -> option error.
Variable ConnWrite : Server.net_Conn -> bytes -> option error.
Variable ProxyClusterConn :
  Server.net_Conn -> Server.ClusterStream -> option error.

Let ProxySSH := Server.ProxySSH SplitHostPort ProxyConn.
Let ProxyCluster := Server.ProxyCluster ConnWrite ProxyClusterConn.

(** The handler of a configured service, case by case. *)
Lemma ProxySSH_cases (s : Server.Service) (st : Server.SSHStream)
    dialer getterFn checkerFn :
  Server.Dialer_ (Server.cfg s) = Some dialer ->
  Server.agentGetterFn (Server.cfg s) = Some getterFn ->
  Server.accessCheckerFn (Server.cfg s) = Some checkerFn ->
  ProxySSH s st
  = match ctx_peer st with
    | None => ([], Server.Return (Some (BadParameter "unable to find peer")))
    | Some p =>
        match checkerFn (PeerAuthInfo p) with
        | inr err => ([], Server.Return (Some (Wrap err "")))
        | inl checker =>
            match inbound st with
            | [] =>
                ([Server.RecvFirst],
                 Server.Return
                   (Some (Wrap (terminal st) "failed receiving first frame")))
            | req :: rest =>
                match DialTarget req with
                | None =>
                    ([Server.RecvFirst],
                     Server.Return
                       (Some (BadParameter
                                "first frame must contain a dial target")))
                | Some target =>
                    match SplitHostPort (HostPort target) with
                    | None =>
                        ([Server.RecvFirst],
                         Server.Return
                           (Some (BadParameter
                                    "dial target contains an invalid hostport")))
                    | Some (host, port) =>
                        let mux := Trace.server_mux (Trace.after_first st rest) in
                        let call :=
                          Server.CalledDialHost (PeerAddr p) host port
                            (TargetCluster target) checker (getterFn agent) in
                        let d :=
                          Server.DialHost dialer (PeerAddr p) host port
                            (TargetCluster target) checker (getterFn agent) in
                        match Server.dial_result d with
                        | inr err =>
                            ([Server.RecvFirst; Server.GoMux mux; call]
                             ++ Trace.agent_sent st rest d
                             ++ [Server.Closed_agentStreamRW],
                             Server.Return
                               (Some (Wrap err "failed to dial target host")))
                        | inl conn =>
                            match send_err st with
                            | Some err =>
                                ([Server.RecvFirst; Server.GoMux mux; call;
                                  Server.Closed_agentStreamRW],
                                 Server.Return
                                   (Some (Wrap err
                                            "failed sending cluster details ")))
                            | None =>
                                ([Server.RecvFirst; Server.GoMux mux; call]
                                 ++ Trace.agent_sent st rest d
                                 ++ [Server.Sent
                                       {| Details :=
                                            Some (Server.GetClusterDetails s);
                                          SSHRespFrame := None |};
                                     Server.CalledProxyConn conn;
                                     Server.Closed_agentStreamRW],
                                 Server.Return
                                   (trace_Wrap (ProxyConn conn ssh) ""))
                            end
                        end
                    end
                end
            end
        end
    end.
Proof.
  intros Hd Hg Hf. unfold ProxySSH.
  destruct (ctx_peer st) as [p|] eqn:Hp;
    [|now apply ProxySSH_no_peer].
  destruct (checkerFn (PeerAuthInfo p)) as [checker|err] eqn:Hc;
    [|now apply (ProxySSH_not_authorized _ _ _ _ Hp Hf Hc)].
  destruct (inbound st) as [|req rest] eqn:Hin;
    [now apply (ProxySSH_no_first_frame _ _ _ _ Hp Hf Hc Hin)|].
  destruct (DialTarget req) as [target|] eqn:Ht;
    [|now apply (ProxySSH_no_dial_target _ _ _ _ Hp Hf Hc Hin Ht)].
  destruct (SplitHostPort (HostPort target)) as [[host port]|] eqn:Hs;
    [|now apply (ProxySSH_invalid_hostport _ _ _ _ Hp Hf Hc Hin Ht Hs)].
  cbv zeta.
  destruct (Server.dial_result
              (Server.DialHost dialer (PeerAddr p) host port
                 (TargetCluster target) checker (getterFn agent)))
    as [conn|err] eqn:He.
  - rewrite (@ProxySSH_dialed SplitHostPort ProxyConn s st p checkerFn checker
               req rest target host port dialer getterFn conn
               Hp Hf Hc Hin Ht Hs Hd Hg He).
    reflexivity.
  - rewrite (@ProxySSH_dial_failed SplitHostPort ProxyConn s st p checkerFn
               checker req rest target host port dialer getterFn err
               Hp Hf Hc Hin Ht Hs Hd Hg He).
    reflexivity.
Qed.

Ltac handler_cases s st Hd Hg Hf :=
  rewrite (@ProxySSH_cases s st _ _ _ Hd Hg Hf); cbv zeta;
  repeat match goal with
         | |- context [match ?x with _ => _ end] =>
             lazymatch x with
             | Trace.mux_started _ => fail
             | _ => destruct x eqn:?
             end
         end.

(** What the Dialer wrote on the agent stream changes none of the
    observations made on a trace below. *)
Ltac quiet_agent :=
  match goal with
  | |- context [Trace.agent_sent ?st ?rest ?d ++ ?tail] =>
      let F1 := fresh in
      let F2 := fresh in
      let F3 := fresh in
      let F4 := fresh in
      let F5 := fresh in
      destruct (agent_sent_wire st rest d tail)
        as (F1 & F2 & F3 & F4 & F5 & _);
      cbn [app Trace.sent filter existsb Obs.precedes Trace.dial_calls
           Trace.mux_started Trace.is_dial Obs.is_closed_agentRW
           Trace.is_go_mux Obs.is_sent Obs.is_proxy_conn orb fst snd];
      unfold Trace.dial_calls, Trace.mux_started;
      cbn [app Trace.sent filter existsb Obs.precedes
           Trace.is_dial Obs.is_closed_agentRW
           Trace.is_go_mux Obs.is_sent Obs.is_proxy_conn orb fst snd];
      rewrite ?F1, ?F2, ?F3, ?F4, ?F5; clear F1 F2 F3 F4 F5
  | _ => idtac
  end.

Lemma last_app_cons (A : Type) (l l' : list A) (x d : A) :
  last (l ++ x :: l') d = last (x :: l') d.
Proof.
  induction l as [|y l IH]; [reflexivity|].
  cbn [app]. rewrite <- IH. cbn [last].
  now destruct (l ++ x :: l') eqn:E; [destruct l; discriminate|].
Qed.

Lemma agent_sent_only (st : Server.SSHStream) (rest : list ProxySSHRequest)
    (d : Server.dialed) (ev : Server.hevent) :
  In ev (Trace.agent_sent st rest d) -> exists resp, ev = Server.AgentSent resp.
Proof.
  unfold Trace.agent_sent. rewrite dial_writes_spec.
  destruct (send_err (Trace.after_first st rest)); [intros []|].
  rewrite in_map_iff. intros (frame & <- & _). eauto.
Qed.

(** X2: NewService fails exactly when the configuration has no Dialer, with
    a BadParameter error; a service it returns never panics on a nil
    configuration field, in ProxySSH or in ProxyCluster, whatever the
    stream brings. *)
Theorem NewService_requires_only_Dialer (c : Server.ServerConfig) :
  (Server.Dialer_ c = None ->
   Server.NewService c
   = (None, Some (Wrap (BadParameter "parameter Dialer required") "")))
  /\ (forall d, Server.Dialer_ c = Some d ->
      exists s,
        Server.NewService c = (Some s, None)
        /\ (forall st, snd (ProxySSH s st) <> Server.Panicked)
        /\ (forall st, snd (ProxyCluster s st) <> Server.Panicked)).
Proof.
  split.
  - intros H. unfold Server.NewService, Server.CheckAndSetDefaults.
    now rewrite H.
  - intros d Hd.
    destruct (Server.NewService c) as [[s|] [e|]] eqn:Hnew;
      try (unfold Server.NewService, Server.CheckAndSetDefaults in Hnew;
           rewrite Hd in Hnew; discriminate).
    exists s. split; [reflexivity|].
    destruct (NewService_fields _ Hnew) as (dialer & getterFn & checkerFn
                                            & Hd' & Hg & Hf & _).
    split; intros st.
    + handler_cases s st Hd' Hg Hf; cbn; discriminate.
    + unfold ProxyCluster, Server.ProxyCluster. rewrite Hd'.
      repeat match goal with
             | |- context [match ?x with _ => _ end] => destruct x eqn:?
             end; cbn; discriminate.
Qed.

(** X3: the deferred Close of the agent reader/writer runs on every return
    after the multiplexer was started, exactly once and as the handler's
    last action, and never when the handler returned before starting the
    multiplexer. *)
Theorem agent_reader_closed_on_every_return
    (c : Server.ServerConfig) (s : Server.Service) (st : Server.SSHStream) :
  Server.NewService c = (Some s, None) ->
  let evs := fst (ProxySSH s st) in
  List.length (filter Obs.is_closed_agentRW evs)
  = (if Trace.mux_started evs then 1 else 0)
  /\ (Trace.mux_started evs = true ->
      last evs Server.RecvFirst = Server.Closed_agentStreamRW).
Proof.
  intros Hnew evs. subst evs.
  destruct (NewService_fields _ Hnew) as (dialer & getterFn & checkerFn
                                          & Hd & Hg & Hf & _).
  handler_cases s st Hd Hg Hf; quiet_agent;
    unfold Trace.mux_started;
    cbn [fst filter Obs.is_closed_agentRW List.length existsb
         Trace.is_go_mux orb];
    (split; [reflexivity|]); intros Hm; try discriminate Hm;
    try reflexivity;
    (etransitivity; [apply (@last_app_cons _ (_ :: _)) | reflexivity]).
Qed.

(** X4: in every run of the handler the Dialer's DialHost is called at most
    once and at most one response is sent by the handler itself; the
    multiplexer is started before the Dialer is called, and exactly in the
    runs that reach the dial; ProxyConn is called only after the cluster
    details were sent. *)
Theorem ProxySSH_order
    (c : Server.ServerConfig) (s : Server.Service) (st : Server.SSHStream) :
  Server.NewService c = (Some s, None) ->
  let evs := fst (ProxySSH s st) in
  Trace.dial_calls evs <= 1
  /\ List.length (Trace.sent evs) <= 1
  /\ Obs.precedes Trace.is_go_mux Trace.is_dial evs = true
  /\ Obs.precedes Obs.is_sent Obs.is_proxy_conn evs = true
  /\ (Trace.mux_started evs = true <-> Trace.dial_calls evs = 1).
Proof.
  intros Hnew evs. subst evs.
  destruct (NewService_fields _ Hnew) as (dialer & getterFn & checkerFn
                                          & Hd & Hg & Hf & _).
  handler_cases s st Hd Hg Hf; quiet_agent; cbn;
    repeat split; intros; try reflexivity; try discriminate; try lia.
Qed.

(** X5: whenever the handler calls the Dialer's DialHost, the source
    address is the peer's address, host and port are the two halves of the
    first frame's host_port, the cluster is the first frame's cluster, and
    the access checker is the one the resolver returned for the peer's
    authentication information. *)
Theorem DialHost_called_with_first_frame
    (c : Server.ServerConfig) (s : Server.Service) (st : Server.SSHStream)
    (from : Addr) (host port cluster : string) (checker : AccessChecker)
    (getter : Server.Getter) :
  Server.NewService c = (Some s, None) ->
  In (Server.CalledDialHost from host port cluster checker getter)
    (fst (ProxySSH s st)) ->
  exists p checkerFn req rest target,
    ctx_peer st = Some p
    /\ from = PeerAddr p
    /\ Server.accessCheckerFn (Server.cfg s) = Some checkerFn
    /\ checkerFn (PeerAuthInfo p) = inl checker
    /\ inbound st = req :: rest
    /\ DialTarget req = Some target
    /\ SplitHostPort (HostPort target) = Some (host, port)
    /\ cluster = TargetCluster target.
Proof.
  intros Hnew.
  destruct (NewService_fields _ Hnew) as (dialer & getterFn & checkerFn
                                          & Hd & Hg & Hf & _).
  handler_cases s st Hd Hg Hf; cbn [fst app In]; intros Hin;
    repeat match goal with
           | H : _ \/ _ |- _ => destruct H as [H | H]
           | H : False |- _ => destruct H
           | H : In _ (_ ++ _) |- _ => apply in_app_or in H
           | H : In _ (Trace.agent_sent _ _ _) |- _ =>
               apply agent_sent_only in H; destruct H as (? & H)
           | H : In _ (_ :: _) |- _ => cbn [In] in H
           | H : In _ [] |- _ => destruct H
           end;
    try discriminate;
    match goal with
    | H : Server.CalledDialHost _ _ _ _ _ _ = _ |- _ =>
        inversion H; subst; clear H
    end;
    eexists _, checkerFn, _, _, _; repeat split; eassumption.
Qed.

(** X6: in every run in which the handler reaches ProxyConn, the one
    response it has sent carries exactly the details GetClusterDetails
    reports and no frame, and the handler returns what ProxyConn returned
    (wrapped, nil staying nil); a client whose DialHost receives that
    response first returns a connection from [src] to [hostport], those
    details and no error, and starts its multiplexer on the rest of the
    stream with empty queues. *)
Theorem established_session
    (c0 : Server.ServerConfig) (s : Server.Service) (st : Server.SSHStream)
    (conn : Server.net_Conn) :
  Server.NewService c0 = (Some s, None) ->
  In (Server.CalledProxyConn conn) (fst (ProxySSH s st)) ->
  let details := {| Details := Some (Server.GetClusterDetails s);
                    SSHRespFrame := None |} in
  Trace.sent (fst (ProxySSH s st)) = [details]
  /\ Server.FIPS (Server.cfg s) = Server.FIPS c0
  /\ snd (ProxySSH s st)
     = Server.Return (trace_Wrap (ProxyConn conn ssh) "")
  /\ forall c hostport cluster src keyring cst,
      Client.ProxySSH (Client.clt c) = inl (arrives details cst) ->
      send_err cst = None ->
      exists cst',
        Client.DialHost c hostport cluster src keyring
        = ((Some (NewConn {| source := ssh; rBytes := [] |} src hostport),
            Some {| FipsEnabled := Server.FIPS c0 |}, None),
           Some (Client.start_mux cst'))
        /\ inbound cst' = inbound cst
        /\ outbox cst'
           = outbox cst
             ++ [{| DialTarget := Some {| HostPort := hostport;
                                          TargetCluster := cluster |};
                    SSHReqFrame := None |}].
Proof.
  intros Hnew.
  destruct (NewService_fields _ Hnew) as (dialer & getterFn & checkerFn
                                          & Hd & Hg & Hf & Hfips).
  handler_cases s st Hd Hg Hf; cbn [fst snd app In]; intros Hin;
    repeat match goal with
           | H : _ \/ _ |- _ => destruct H as [H | H]
           | H : False |- _ => destruct H
           | H : In _ (_ ++ _) |- _ => apply in_app_or in H
           | H : In _ (Trace.agent_sent _ _ _) |- _ =>
               apply agent_sent_only in H; destruct H as (? & H)
           | H : In _ (_ :: _) |- _ => cbn [In] in H
           | H : In _ [] |- _ => destruct H
           end;
    try discriminate.
  match goal with
  | H : Server.CalledProxyConn _ = _ |- _ => inversion H; subst; clear H
  end.
  split; [quiet_agent; reflexivity|].
  split; [exact Hfips|]. split; [reflexivity|].
  intros c hostport cluster src keyring cst Hopen Hsend.
  unfold Client.DialHost. rewrite Hopen.
  unfold Send. cbn [send_err arrives]. rewrite Hsend.
  unfold Recv. cbn.
  eexists. split.
  - unfold Server.GetClusterDetails. rewrite Hfips. reflexivity.
  - split; reflexivity.
Qed.

(** X7: ProxyCluster asks the Dialer for the cluster named in the first
    message, once, with the name as it arrived (no validation at this
    layer), and not at all when no first message arrives.  When it reaches
    ProxyConn, the dial succeeded, the only write to the connection is the
    payload of the first message's frame (none when the message had no
    frame), made before ProxyConn, ProxyConn runs on the stream after the
    first message, and the handler returns what ProxyConn returned; when it
    does not reach ProxyConn it returns an error. *)
Theorem ProxyCluster_first_frame
    (c : Server.ServerConfig) (s : Server.Service)
    (st : Server.ClusterStream) :
  Server.NewService c = (Some s, None) ->
  let evs := fst (ProxyCluster s st) in
  Obs.site_dials evs = map ReqCluster (firstn 1 (inbound st))
  /\ (Obs.proxied evs = true ->
      exists req rest dialer conn,
        inbound st = req :: rest
        /\ Server.Dialer_ (Server.cfg s) = Some dialer
        /\ Server.DialSite dialer (ReqCluster req) = inl conn
        /\ evs = [Server.ClusterRecvFirst; Server.CalledDialSite (ReqCluster req)]
                 ++ map (Server.CalledWrite conn)
                      (Obs.frame_payload (ReqFrame req))
                 ++ [Server.CalledProxyClusterConn conn (fst (Recv st))]
        /\ Obs.writes evs = Obs.frame_payload (ReqFrame req)
        /\ snd (ProxyCluster s st)
           = Server.Return
               (trace_Wrap (ProxyClusterConn conn (fst (Recv st))) ""))
  /\ (Obs.proxied evs = false ->
      exists err, snd (ProxyCluster s st) = Server.Return (Some err)).
Proof.
  intros Hnew evs. subst evs.
  destruct (NewService_fields _ Hnew) as (dialer & getterFn & checkerFn
                                          & Hd & _ & _ & _).
  unfold ProxyCluster, Server.ProxyCluster, Recv. rewrite Hd.
  destruct (inbound st) as [|req rest] eqn:Hin; cbn.
  { repeat split; [discriminate | eauto]. }
  destruct (Server.DialSite dialer (ReqCluster req)) as [conn|err] eqn:Hs; cbn.
  2:{ repeat split; [discriminate | eauto]. }
  destruct (ReqFrame req) as [frame|] eqn:Hf; cbn.
  - destruct (ConnWrite conn (Payload frame)) as [err|]; cbn.
    + repeat split; [discriminate | eauto].
    + split; [reflexivity|]. split; [|discriminate].
      intros _. exists req, rest, dialer, conn. rewrite Hf. cbn.
      repeat split. exact Hs.
  - split; [reflexivity|]. split; [|discriminate].
    intros _. exists req, rest, dialer, conn. rewrite Hf. cbn.
    repeat split. exact Hs.
Qed.

(** X8: the first message of the client's DialCluster, received by
    ProxyCluster, makes the server dial exactly the cluster the client
    named and write nothing to the dialed connection before proxying. *)
Theorem DialCluster_reaches_DialSite
    (c : Client.Client) (cluster : string) (src : Addr)
    (cst : Client.ClusterStream) (p : Peer)
    (c0 : Server.ServerConfig) (s : Server.Service)
    (sst : Server.ClusterStream) :
  Client.ProxyCluster (Client.clt c) = inl cst ->
  send_err cst = None ->
  ctx_peer cst = Some p ->
  Server.NewService c0 = (Some s, None) ->
  exists conn first,
    Client.DialCluster c cluster src = (Some conn, None)
    /\ outbox (Client.stream (source (connRW conn))) = outbox cst ++ [first]
    /\ Obs.site_dials (fst (ProxyCluster s (arrives first sst))) = [cluster]
    /\ Obs.writes (fst (ProxyCluster s (arrives first sst))) = [].
Proof.
  intros Hopen Hsend Hpeer Hnew.
  destruct (NewService_fields _ Hnew) as (dialer & getterFn & checkerFn
                                          & Hd & _ & _ & _).
  unfold Client.DialCluster. rewrite Hopen. unfold Send. rewrite Hsend.
  cbn [NewReadWriter]. unfold peer_FromContext. cbn [ctx_peer].
  rewrite Hpeer.
  eexists _, _. split; [reflexivity|]. split; [cbn; reflexivity|].
  unfold ProxyCluster, Server.ProxyCluster. rewrite Recv_arrives, Hd.
  cbn [ReqCluster ReqFrame].
  destruct (Server.DialSite dialer cluster); cbn; split; reflexivity.
Qed.

End Configured.

Lemma agent_reader_closed_on_every_return_witness :
  let s := Samples.service Samples.dialer_down in
  let st := Samples.server_stream (Some Samples.peer0)
              [Samples.dial_request "node:22"] in
  let evs := fst (Server.ProxySSH Samples.split_colon Samples.proxy_until_eof
                    s st) in
  Server.NewService (Samples.config Samples.dialer_down) = (Some s, None)
  /\ List.length (filter Obs.is_closed_agentRW evs)
     = (if Trace.mux_started evs then 1 else 0)
  /\ (Trace.mux_started evs = true ->
      last evs Server.RecvFirst = Server.Closed_agentStreamRW).
Proof.
  intros s st evs. split; [reflexivity|].
  apply (@agent_reader_closed_on_every_return
           Samples.split_colon Samples.proxy_until_eof
           (Samples.config Samples.dialer_down) s st).
  reflexivity.
Defined.

Lemma ProxySSH_order_witness :
  let s := Samples.service Samples.dialer_ok in
  let st := Samples.server_stream (Some Samples.peer0)
              [Samples.dial_request "node:22"] in
  let evs := fst (Server.ProxySSH Samples.split_colon Samples.proxy_until_eof
                    s st) in
  Server.NewService (Samples.config Samples.dialer_ok) = (Some s, None)
  /\ Trace.dial_calls evs <= 1
  /\ List.length (Trace.sent evs) <= 1
  /\ Obs.precedes Trace.is_go_mux Trace.is_dial evs = true
  /\ Obs.precedes Obs.is_sent Obs.is_proxy_conn evs = true
  /\ (Trace.mux_started evs = true <-> Trace.dial_calls evs = 1).
Proof.
  intros s st evs. split; [reflexivity|].
  apply (@ProxySSH_order Samples.split_colon Samples.proxy_until_eof
           (Samples.config Samples.dialer_ok) s st).
  reflexivity.
Defined.

Lemma DialHost_called_with_first_frame_witness :
  let s := Samples.service Samples.dialer_ok in
  let st := Samples.server_stream (Some Samples.peer0)
              [Samples.dial_request "node:22"] in
  (Server.NewService (Samples.config Samples.dialer_ok) = (Some s, None)
   /\ In (Server.CalledDialHost "192.0.2.1:3024" "node" "22" "root" 7
            (Server.GetterOver agent))
        (fst (Server.ProxySSH Samples.split_colon Samples.proxy_until_eof
                s st)))
  /\ exists p checkerFn req rest target,
      ctx_peer st = Some p
      /\ "192.0.2.1:3024" = PeerAddr p
      /\ Server.accessCheckerFn (Server.cfg s) = Some checkerFn
      /\ checkerFn (PeerAuthInfo p) = inl 7
      /\ inbound st = req :: rest
      /\ DialTarget req = Some target
      /\ Samples.split_colon (HostPort target) = Some ("node", "22")
      /\ "root" = TargetCluster target.
Proof.
  intros s st.
  assert (Hin : In (Server.CalledDialHost "192.0.2.1:3024" "node" "22" "root" 7
                      (Server.GetterOver agent))
                  (fst (Server.ProxySSH Samples.split_colon
                          Samples.proxy_until_eof s st)))
    by (cbn; auto).
  split; [split; [reflexivity | exact Hin]|].
  exact (@DialHost_called_with_first_frame
           Samples.split_colon Samples.proxy_until_eof
           (Samples.config Samples.dialer_ok) s st
           "192.0.2.1:3024" "node" "22" "root" 7 (Server.GetterOver agent)
           eq_refl Hin).
Defined.

Lemma established_session_witness :
  let s := Samples.service Samples.dialer_ok in
  let st := Samples.server_stream (Some Samples.peer0)
              [Samples.dial_request "node:22"] in
  let details := {| Details := Some {| FipsEnabled := true |};
                    SSHRespFrame := None |} in
  (Server.NewService (Samples.config Samples.dialer_ok) = (Some s, None)
   /\ In (Server.CalledProxyConn 2)
        (fst (Server.ProxySSH Samples.split_colon Samples.proxy_until_eof
                s st)))
  /\ Trace.sent (fst (Server.ProxySSH Samples.split_colon
                        Samples.proxy_until_eof s st)) = [details]
  /\ snd (Server.ProxySSH Samples.split_colon Samples.proxy_until_eof s st)
     = Server.Return None
  /\ exists cst',
      Client.DialHost
        (Samples.ssh_client (arrives details (Samples.client_stream [] io_EOF)))
        "node:22" "root" "127.0.0.1:0" None
      = ((Some (NewConn {| source := ssh; rBytes := [] |}
                  "127.0.0.1:0" "node:22"),
          Some {| FipsEnabled := true |}, None),
         Some (Client.start_mux cst')).
Proof.
  intros s st details.
  assert (Hin : In (Server.CalledProxyConn 2)
                  (fst (Server.ProxySSH Samples.split_colon
                          Samples.proxy_until_eof s st)))
    by (cbn; auto 10).
  split; [split; [reflexivity | exact Hin]|].
  destruct (@established_session
              Samples.split_colon Samples.proxy_until_eof
              (Samples.config Samples.dialer_ok) s st 2 eq_refl Hin)
    as (Hsent & _ & Hret & Hclient).
  split; [exact Hsent|]. split; [exact Hret|].
  destruct (Hclient
              (Samples.ssh_client
                 (arrives details (Samples.client_stream [] io_EOF)))
              "node:22" "root" "127.0.0.1:0" None
              (Samples.client_stream [] io_EOF) eq_refl eq_refl)
    as (cst' & Hdial & _).
  exists cst'. exact Hdial.
Defined.

Lemma ProxyCluster_first_frame_witness :
  let s := Samples.service Samples.dialer_ok in
  let st := Samples.server_cluster_stream
              [{| ReqCluster := "leaf";
                  ReqFrame := Some {| Payload := Samples.hello |} |}] in
  let evs := fst (Server.ProxyCluster Samples.write_ok
                    Samples.proxy_cluster_until_eof s st) in
  Server.NewService (Samples.config Samples.dialer_ok) = (Some s, None)
  /\ Obs.site_dials evs = ["leaf"]
  /\ Obs.proxied evs = true
  /\ Obs.writes evs = [Samples.hello].
Proof.
  intros s st evs. split; [reflexivity|].
  destruct (@ProxyCluster_first_frame
              Samples.write_ok Samples.proxy_cluster_until_eof
              (Samples.config Samples.dialer_ok) s st eq_refl)
    as (Hdial & Hproxied & _).
  split; [exact Hdial|]. split; [reflexivity|].
  destruct (Hproxied eq_refl) as (req & rest & d & conn & Hin & _ & _ & _ & Hw & _).
  fold evs in Hw. rewrite Hw. inversion Hin; subst. reflexivity.
Defined.

Lemma DialCluster_reaches_DialSite_witness :
  let cst := Samples.client_cluster_stream [] in
  let s := Samples.service Samples.dialer_ok in
  (Client.ProxyCluster (Client.clt (Samples.cluster_client cst)) = inl cst
   /\ send_err cst = None
   /\ ctx_peer cst = Some Samples.peer0
   /\ Server.NewService (Samples.config Samples.dialer_ok) = (Some s, None))
  /\ exists conn first,
      Client.DialCluster (Samples.cluster_client cst) "leaf" "127.0.0.1:0"
      = (Some conn, None)
      /\ outbox (Client.stream (source (connRW conn))) = outbox cst ++ [first]
      /\ Obs.site_dials
           (fst (Server.ProxyCluster Samples.write_ok
                   Samples.proxy_cluster_until_eof s
                   (arrives first (Samples.server_cluster_stream []))))
         = ["leaf"]
      /\ Obs.writes
           (fst (Server.ProxyCluster Samples.write_ok
                   Samples.proxy_cluster_until_eof s
                   (arrives first (Samples.server_cluster_stream []))))
         = [].
Proof.
  intros cst s. split; [repeat split|].
  exact (@DialCluster_reaches_DialSite
           Samples.write_ok Samples.proxy_cluster_until_eof
           (Samples.cluster_client cst) "leaf" "127.0.0.1:0" cst Samples.peer0
           (Samples.config Samples.dialer_ok) s
           (Samples.server_cluster_stream []) eq_refl eq_refl eq_refl eq_refl).
Defined.

(* ================================================================== *)
(** ** Client and server, end to end *)
(* ================================================================== *)

Section EndToEnd.

Variable SplitHostPort : string -> option (string * string).
Variable ProxyConn : Server.net_Conn -> tag -> option error.

Let ProxySSH := Server.ProxySSH SplitHostPort ProxyConn.


End EndToEnd.


(** X10: cluster frames survive the wire in both directions: what
    clusterStream.Send of one side sends, clusterStream.Recv of the other
    side returns as the same payload, the empty payload included (a sent
    frame is never mistaken for a missing one). *)
Theorem clusterStream_round_trip (frame : bytes) :
  (forall (cst : Client.ClusterStream) (sst : Server.ClusterStream),
      send_err cst = None ->
      exists cst' m,
        Client.clusterStream_Send {| Client.stream := cst |} frame
        = ({| Client.stream := cst' |}, None)
        /\ outbox cst' = outbox cst ++ [m]
        /\ Server.clusterStream_Recv {| Server.stream := arrives m sst |}
           = ({| Server.stream := sst |}, inl frame))
  /\ (forall (sst : Server.ClusterStream) (cst : Client.ClusterStream),
      send_err sst = None ->
      exists sst' m,
        Server.clusterStream_Send {| Server.stream := sst |} frame
        = ({| Server.stream := sst' |}, None)
        /\ outbox sst' = outbox sst ++ [m]
        /\ Client.clusterStream_Recv {| Client.stream := arrives m cst |}
           = ({| Client.stream := cst |}, inl frame)).
Proof.
  split.
  - intros cst sst Hsend.
    unfold Client.clusterStream_Send, Send. cbn [Client.stream].
    rewrite Hsend. eexists _, _. split; [reflexivity|].
    split; [reflexivity|].
    unfold Server.clusterStream_Recv. cbn [Server.stream].
    now rewrite Recv_arrives.
  - intros sst cst Hsend.
    unfold Server.clusterStream_Send, Send. cbn [Server.stream].
    rewrite Hsend. eexists _, _. split; [reflexivity|].
    split; [reflexivity|].
    unfold Client.clusterStream_Recv. cbn [Client.stream].
    now rewrite Recv_arrives.
Qed.

(** X11: DialHost accepts whatever its first receive returns: it hands back
    the response's details as they are (nil when the response has none)
    with a connection from [src] to [hostport] and no error, and starts the
    multiplexer with empty queues on the messages after the first, so a
    frame carried by the first response is delivered to no virtual
    stream. *)
Theorem DialHost_first_response
    (c : Client.Client) (hostport cluster : string) (src : Addr)
    (keyring : option Client.Keyring) (cst : Client.SSHStream)
    (resp : ProxySSHResponse) :
  Client.ProxySSH (Client.clt c) = inl (arrives resp cst) ->
  send_err cst = None ->
  exists m,
    Client.DialHost c hostport cluster src keyring
    = ((Some (NewConn {| source := ssh; rBytes := [] |} src hostport),
        Details resp, None), Some m)
    /\ inbound (Client.parent m) = inbound cst
    /\ Client.pc m = Client.AtRecv
    /\ Client.serveOnce m = false
    /\ forall t,
        Client.incomingC (Client.stream_of t m) = []
        /\ Client.errorC (Client.stream_of t m) = [].
Proof.
  intros Hopen Hsend. unfold Client.DialHost. rewrite Hopen.
  unfold Send. cbn [send_err arrives]. rewrite Hsend.
  unfold Recv. cbn.
  eexists. split; [reflexivity|]. repeat split; destruct t; reflexivity.
Qed.

Lemma DialHost_first_response_witness :
  let cst := Samples.client_stream [] io_EOF in
  let resp := Samples.ssh_response Samples.hello in
  (Client.ProxySSH (Client.clt (Samples.ssh_client (arrives resp cst)))
   = inl (arrives resp cst)
   /\ send_err cst = None)
  /\ exists m,
      Client.DialHost (Samples.ssh_client (arrives resp cst))
        "node:22" "root" "127.0.0.1:0" None
      = ((Some (NewConn {| source := ssh; rBytes := [] |}
                  "127.0.0.1:0" "node:22"), None, None), Some m)
      /\ inbound (Client.parent m) = []
      /\ Client.incomingC (Client.sshS m) = [].
Proof.
  intros cst resp. split; [split; reflexivity|].
  destruct (@DialHost_first_response
              (Samples.ssh_client (arrives resp cst))
              "node:22" "root" "127.0.0.1:0" None cst resp eq_refl eq_refl)
    as (m & Hdial & Hin & _ & _ & Hq).
  exists m. split; [exact Hdial|]. split; [exact Hin|].
  exact (proj1 (Hq ssh)).
Defined.

(* ================================================================== *)
(** ** Demultiplexing *)
(* ================================================================== *)

Lemma request_payloads_app (t : tag) (a b : list ProxySSHRequest) :
  Obs.request_payloads t (a ++ b)
  = Obs.request_payloads t a ++ Obs.request_payloads t b.
Proof. unfold Obs.request_payloads. now rewrite flat_map_app. Qed.

Lemma response_payloads_app (keyring : option Client.Keyring) (t : tag)
    (a b : list ProxySSHResponse) :
  Obs.response_payloads keyring t (a ++ b)
  = Obs.response_payloads keyring t a ++ Obs.response_payloads keyring t b.
Proof. unfold Obs.response_payloads. now rewrite flat_map_app. Qed.

Ltac by_tag t :=
  destruct t; cbn;
  unfold Obs.request_payload, Obs.response_payload, Trace.has_keyring; cbn;
  repeat match goal with
         | E : SSHReqFrame _ = _ |- _ => rewrite E
         | E : SSHRespFrame _ = _ |- _ => rewrite E
         end;
  cbn; rewrite ?app_nil_r; reflexivity.

Lemma server_step_demux (ok : error -> bool) (a : Server.action)
    (m m' : Server.mux) (evs : list Server.event) :
  Server.step ok a m = Done (m', evs) ->
  exists consumed,
    inbound (Server.parent m) = consumed ++ inbound (Server.parent m')
    /\ forall t,
        Obs.server_pending t m ++ Obs.request_payloads t consumed
        = Trace.server_enqueued t evs ++ Obs.server_pending t m'.
Proof.
  intros H. destruct m as [par s a' p n1 n2]. destruct s, a'.
  destruct a as [|[|] pick|[|] frame|[|]|[|]];
    server_step H; cbn in *;
    first
      [ exists []; split; [cbn; congruence | intros t; by_tag t]
      | match goal with
        | E : inbound _ = ?r :: _ |- _ =>
            exists [r]; split; [cbn; congruence | intros t; by_tag t]
        end ].
Qed.

Lemma server_run_demux (ok : error -> bool) (sched : list Server.action)
    (m : Server.mux) :
  let m' := fst (fst (Server.exec ok sched m)) in
  let evs := snd (fst (Server.exec ok sched m)) in
  exists consumed,
    inbound (Server.parent m) = consumed ++ inbound (Server.parent m')
    /\ forall t,
        Obs.server_pending t m ++ Obs.request_payloads t consumed
        = Trace.server_enqueued t evs ++ Obs.server_pending t m'.
Proof.
  apply (@server_exec_rel ok (fun _ => true)
           (fun m evs m' =>
              exists consumed,
                inbound (Server.parent m)
                = consumed ++ inbound (Server.parent m')
                /\ forall t,
                    Obs.server_pending t m ++ Obs.request_payloads t consumed
                    = Trace.server_enqueued t evs
                        ++ Obs.server_pending t m'));
    [| |apply forallb_any].
  - intros m0. exists []. split; [reflexivity|].
    intros t. cbn. now rewrite app_nil_r.
  - intros a m0 m1 e1 m2 e2 _ Hstep (c2 & Hc2 & Hp2).
    destruct (@server_step_demux ok a m0 m1 e1 Hstep) as (c1 & Hc1 & Hp1).
    exists (c1 ++ c2). split.
    + rewrite Hc1, Hc2. now rewrite app_assoc.
    + intros t. rewrite request_payloads_app, server_enqueued_app.
      rewrite app_assoc, Hp1, <- app_assoc, Hp2, app_assoc. reflexivity.
Qed.

Lemma server_step_no_close (ok : error -> bool) (a : Server.action)
    (m : Server.mux) :
  Obs.is_close a = false ->
  Trace.no_pending_close m ->
  Server.step ok a m <> Panic
  /\ forall m' evs,
      Server.step ok a m = Done (m', evs) -> Trace.no_pending_close m'.
Proof.
  intros Ha Hinv. destruct m as [par s a' p n1 n2]. destruct s, a'.
  unfold Trace.no_pending_close in *. cbn in Hinv.
  destruct Hinv as (-> & -> & Hpc).
  destruct a as [|[|] pick|[|] frame|[|]|[|]]; try discriminate Ha;
    (split; [intros H | intros m' evs H]);
    server_step H; cbn in *; repeat split; congruence.
Qed.

(** A schedule in which nobody but the multiplexer calls Close does not
    panic. *)
Lemma server_run_no_close (ok : error -> bool) (sched : list Server.action)
    (m : Server.mux) :
  Obs.never_closes sched = true ->
  Trace.no_pending_close m ->
  Server.run ok sched m
  = Some (fst (fst (Server.exec ok sched m)),
          snd (fst (Server.exec ok sched m))).
Proof.
  revert m. induction sched as [|a rest IH]; intros m Hn Hinv; [reflexivity|].
  unfold Obs.never_closes in Hn. cbn [existsb] in Hn.
  apply negb_true_iff, orb_false_elim in Hn. destruct Hn as [Ha Hrest].
  assert (Hn' : Obs.never_closes rest = true)
    by (unfold Obs.never_closes; now rewrite Hrest).
  destruct (@server_step_no_close ok a m Ha Hinv) as [Hpanic Hnext].
  cbn [Server.run Server.exec].
  destruct (Server.step ok a m) as [[m1 e1]| |] eqn:Hstep.
  - rewrite (IH m1 Hn' (Hnext m1 e1 eq_refl)).
    now destruct (Server.exec ok rest m1) as [[m2 e2] panicked].
  - now apply IH.
  - now destruct Hpanic.
Qed.

Lemma no_pending_close_start (st : Server.SSHStream) :
  Trace.no_pending_close (Trace.server_mux st).
Proof. repeat split. Qed.

(** X12: the server's multiplexer demultiplexes faithfully: in every
    schedule, up to a panic if there is one, for each of the two virtual
    streams, the frames Recv has returned, then the frames still queued,
    then the frame the multiplexer is holding, are exactly the payloads of
    the messages with that tag that it has taken from the parent stream,
    in the order they arrived; nothing is invented, duplicated, reordered
    or moved to the other stream.  A schedule in which nobody but the
    multiplexer calls Close does not panic. *)
Theorem server_demultiplexes
    (ok : error -> bool) (st : Server.SSHStream) (sched : list Server.action) :
  let m := fst (fst (Server.exec ok sched (Trace.server_mux st))) in
  let evs := snd (fst (Server.exec ok sched (Trace.server_mux st))) in
  (exists consumed,
      inbound st = consumed ++ inbound (Server.parent m)
      /\ forall t,
          Obs.request_payloads t consumed
          = Trace.server_received t evs
            ++ Server.incomingC (Server.stream_of t m)
            ++ Obs.server_pending t m)
  /\ (Obs.never_closes sched = true ->
      Server.run ok sched (Trace.server_mux st) = Some (m, evs)).
Proof.
  intros m evs. split.
  - destruct (server_run_demux ok sched (Trace.server_mux st))
      as (consumed & Hc & Hp).
    fold m in Hc, Hp. fold evs in Hp.
    exists consumed. split; [exact Hc|].
    intros t.
    destruct (server_run_fifo ok sched (Trace.server_mux st) t) as [Hq _].
    fold m in Hq. fold evs in Hq.
    specialize (Hp t).
    assert (Hp0 : Obs.server_pending t (Trace.server_mux st) = [])
      by now destruct t.
    assert (Hq0 : Server.incomingC (Server.stream_of t (Trace.server_mux st))
                  = [])
      by now destruct t.
    rewrite Hp0 in Hp. rewrite Hq0 in Hq. cbn in Hp, Hq.
    rewrite Hp, Hq, app_assoc. reflexivity.
  - intros Hn.
    exact (server_run_no_close ok sched Hn (no_pending_close_start st)).
Qed.

Lemma client_step_demux (keyring : option Client.Keyring) (a : Client.action)
    (m m' : Client.mux) (evs : list Client.event) :
  Client.step keyring a m = Done (m', evs) ->
  exists consumed,
    inbound (Client.parent m) = consumed ++ inbound (Client.parent m')
    /\ forall t,
        Obs.client_pending t m ++ Obs.response_payloads keyring t consumed
        = Trace.client_enqueued t evs ++ Obs.client_pending t m'.
Proof.
  intros H. destruct m as [par s a' once c1 c2 p]. destruct s, a'.
  destruct a as [|[|] pick|[|] frame];
    client_step H; cbn in *;
    first
      [ exists []; split; [cbn; congruence | intros t; by_tag t]
      | match goal with
        | E : inbound _ = ?r :: _ |- _ =>
            exists [r]; split; [cbn; congruence | intros t; by_tag t]
        end ].
Qed.

Lemma client_run_demux (keyring : option Client.Keyring)
    (sched : list Client.action) (m : Client.mux) :
  exists consumed,
    inbound (Client.parent m)
    = consumed ++ inbound (Client.parent (fst (Client.run keyring sched m)))
    /\ forall t,
        Obs.client_pending t m ++ Obs.response_payloads keyring t consumed
        = Trace.client_enqueued t (snd (Client.run keyring sched m))
          ++ Obs.client_pending t (fst (Client.run keyring sched m)).
Proof.
  revert m. induction sched as [|a rest IH]; intros m.
  - exists []. cbn. repeat split. intros t. now rewrite app_nil_r.
  - cbn [Client.run].
    destruct (Client.step keyring a m) as [[m1 e1]| |] eqn:Hstep;
      try apply IH.
    destruct (@client_step_demux keyring a m m1 e1 Hstep) as (c1 & Hc1 & Hp1).
    destruct (IH m1) as (c2 & Hc2 & Hp2).
    destruct (Client.run keyring rest m1) as [m2 e2]. cbn [fst snd] in *.
    exists (c1 ++ c2). split.
    + rewrite Hc1, Hc2. now rewrite app_assoc.
    + intros t. rewrite response_payloads_app, client_enqueued_app.
      rewrite app_assoc, Hp1, <- app_assoc, Hp2, app_assoc. reflexivity.
Qed.

(** X13: the client's multiplexer demultiplexes faithfully: in every
    schedule, for each of the two virtual streams, the frames Recv has
    returned, then the frames still queued, then the frame the multiplexer
    is holding, are exactly the payloads of the responses with that tag that
    it has taken from the parent stream, in order, where agent-tagged
    responses count only if a keyring was supplied (without one, nothing
    ever reaches the agent stream). *)
Theorem client_demultiplexes
    (keyring : option Client.Keyring) (st : Client.SSHStream)
    (sched : list Client.action) :
  let m := fst (Client.run keyring sched (Client.start_mux st)) in
  let evs := snd (Client.run keyring sched (Client.start_mux st)) in
  exists consumed,
    inbound st = consumed ++ inbound (Client.parent m)
    /\ forall t,
        Obs.response_payloads keyring t consumed
        = Trace.client_received t evs
          ++ Client.incomingC (Client.stream_of t m)
          ++ Obs.client_pending t m.
Proof.
  intros m evs.
  destruct (client_run_demux keyring sched (Client.start_mux st))
    as (consumed & Hc & Hp).
  exists consumed. split; [exact Hc|].
  intros t. specialize (Hp t).
  destruct (client_run_fifo keyring sched (Client.start_mux st) t) as [Hq _].
  fold m in Hp, Hq. fold evs in Hp, Hq.
  assert (Hp0 : Obs.client_pending t (Client.start_mux st) = [])
    by now destruct t.
  assert (Hq0 : Client.incomingC (Client.stream_of t (Client.start_mux st)) = [])
    by now destruct t.
  rewrite Hp0 in Hp. rewrite Hq0 in Hq. cbn in Hp, Hq.
  rewrite Hp, Hq, app_assoc. reflexivity.
Qed.

(* ================================================================== *)
(** ** Tagged frames between the two multiplexers *)
(* ================================================================== *)

(** X14: a frame sent with Send on the client's ssh (agent) virtual stream
    is put on the wire as one message which the server's multiplexer puts
    on the queue of its ssh (agent) virtual stream, where the next Recv
    returns the same payload; the other server stream receives nothing. *)
Theorem client_frame_reaches_server_stream
    (t : tag) (frame : bytes) (cst : Client.SSHStream)
    (sst : Server.SSHStream) (ok : error -> bool)
    (pick : Server.select_case) :
  send_err cst = None ->
  exists cst' req m,
    Client.sshStream_Send (Client.stream_of t (Client.start_mux cst)) cst frame
    = (cst', None)
    /\ outbox cst' = outbox cst ++ [req]
    /\ Server.run ok [Server.Mux; Server.Mux; Server.CallRecv t pick]
         (Trace.server_mux (arrives req sst))
       = Some (m, [Server.Enqueued t frame; Server.Received t frame])
    /\ Server.parent m = sst
    /\ forall t', Server.incomingC (Server.stream_of t' m) = [].
Proof.
  intros Hsend.
  unfold Client.sshStream_Send, Send. rewrite Hsend.
  eexists _, _, _. split; [reflexivity|]. split; [reflexivity|].
  unfold Server.run, Server.step, Server.mux_step, Trace.server_mux.
  cbn [Server.pc Server.parent]. rewrite Recv_arrives.
  destruct t; cbn; (split; [reflexivity|]);
    (split; [reflexivity|]); intros [|]; reflexivity.
Qed.

Lemma client_frame_reaches_server_stream_witness :
  let cst := Samples.client_stream [] io_EOF in
  send_err cst = None
  /\ exists cst' req m,
      Client.sshStream_Send (Client.stream_of agent (Client.start_mux cst)) cst
        Samples.hello = (cst', None)
      /\ outbox cst' = outbox cst ++ [req]
      /\ Server.run Samples.eof_is_ok
           [Server.Mux; Server.Mux; Server.CallRecv agent Server.case_done]
           (Trace.server_mux
              (arrives req (Samples.server_stream (Some Samples.peer0) [])))
         = Some (m, [Server.Enqueued agent Samples.hello;
                     Server.Received agent Samples.hello])
      /\ Server.parent m = Samples.server_stream (Some Samples.peer0) []
      /\ forall t', Server.incomingC (Server.stream_of t' m) = [].
Proof.
  intros cst. split; [reflexivity|].
  exact (@client_frame_reaches_server_stream
           agent Samples.hello cst
           (Samples.server_stream (Some Samples.peer0) [])
           Samples.eof_is_ok Server.case_done eq_refl).
Defined.



(* ================================================================== *)
(** ** The server's multiplexer: termination and back-pressure *)
(* ================================================================== *)

Lemma server_step_closed_on_return (ok : error -> bool) (a : Server.action)
    (m m' : Server.mux) (evs : list Server.event) :
  match Server.pc m with
  | Server.Returned =>
      Server.done (Server.sshS m) = true /\ Server.done (Server.agentS m) = true
  | Server.AtCloseSsh _ | Server.AtClosingSsh _ =>
      Server.done (Server.agentS m) = true
  | _ => True
  end ->
  Server.step ok a m = Done (m', evs) ->
  match Server.pc m' with
  | Server.Returned =>
      Server.done (Server.sshS m') = true
      /\ Server.done (Server.agentS m') = true
  | Server.AtCloseSsh _ | Server.AtClosingSsh _ =>
      Server.done (Server.agentS m') = true
  | _ => True
  end.
Proof.
  intros Hinv H. destruct m as [par s a' p n1 n2]. destruct s, a'.
  destruct a as [|[|] pick|[|] frame|[|]|[|]];
    server_step H; cbn in *; try tauto;
    try (destruct p; cbn in *; tauto).
Qed.

Lemma server_step_closes_late (ok : error -> bool) (a : Server.action)
    (m m' : Server.mux) (evs : list Server.event) :
  Obs.is_close a = false ->
  (Server.done (Server.sshS m) = true -> Server.pc m = Server.Returned) ->
  (Server.done (Server.agentS m) = true ->
   Server.pc m = Server.Returned
   \/ exists e, Server.pc m = Server.AtCloseSsh e
                \/ Server.pc m = Server.AtClosingSsh e) ->
  Server.step ok a m = Done (m', evs) ->
  (Server.done (Server.sshS m') = true -> Server.pc m' = Server.Returned)
  /\ (Server.done (Server.agentS m') = true ->
      Server.pc m' = Server.Returned
      \/ exists e, Server.pc m' = Server.AtCloseSsh e
                   \/ Server.pc m' = Server.AtClosingSsh e).
Proof.
  intros Ha H1 H2 H. destruct m as [par s a' p n1 n2]. destruct s, a'.
  destruct a as [|[|] pick|[|] frame|[|]|[|]]; try discriminate Ha;
    server_step H; cbn in *;
    split; intros Hd;
    try discriminate;
    try (specialize (H1 Hd)); try (specialize (H2 Hd));
    repeat match goal with
           | H : _ \/ _ |- _ => destruct H
           | H : exists _, _ |- _ => destruct H
           end;
    try discriminate; try subst; eauto.
Qed.

Lemma forallb_not_existsb (A : Type) (f : A -> bool) (l : list A) :
  negb (existsb f l) = true -> forallb (fun a => negb (f a)) l = true.
Proof.
  induction l as [|x l IH]; [reflexivity|].
  cbn [existsb forallb]. intros H.
  apply negb_true_iff, orb_false_elim in H. destruct H as [-> H].
  cbn. apply IH. now rewrite H.
Qed.

(** X16: the server's multiplexer returns only with both virtual streams
    closed, so that afterwards no Recv on either stream blocks, in every
    schedule, up to a panic if Close calls of other goroutines overlap with
    each other or with the multiplexer's; and a schedule in which nobody
    else calls Close does not panic, and in it a virtual stream is closed
    only once the multiplexer's receive on the parent stream has failed
    (the ssh stream exactly when the multiplexer has returned). *)
Theorem server_streams_closed_on_return
    (ok : error -> bool) (st : Server.SSHStream) (sched : list Server.action) :
  let m := fst (fst (Server.exec ok sched (Trace.server_mux st))) in
  let evs := snd (fst (Server.exec ok sched (Trace.server_mux st))) in
  (Server.pc m = Server.Returned ->
   Server.done (Server.sshS m) = true
   /\ Server.done (Server.agentS m) = true
   /\ forall t pick,
       Server.sshStream_Recv pick (Server.stream_of t m) <> Blocked)
  /\ (Obs.never_closes sched = true ->
      Server.run ok sched (Trace.server_mux st) = Some (m, evs)
      /\ (Server.done (Server.sshS m) = true -> Server.pc m = Server.Returned)
      /\ (Server.done (Server.agentS m) = true ->
          Server.pc m = Server.Returned
          \/ exists e, Server.pc m = Server.AtCloseSsh e
                       \/ Server.pc m = Server.AtClosingSsh e)).
Proof.
  intros m evs. split.
  - assert (Hinv : match Server.pc m with
                   | Server.Returned =>
                       Server.done (Server.sshS m) = true
                       /\ Server.done (Server.agentS m) = true
                   | Server.AtCloseSsh _ | Server.AtClosingSsh _ =>
                       Server.done (Server.agentS m) = true
                   | _ => True
                   end).
    { apply (@server_exec_rel ok (fun _ => true)
               (fun m0 _ m' =>
                  match Server.pc m0 with
                  | Server.Returned =>
                      Server.done (Server.sshS m0) = true
                      /\ Server.done (Server.agentS m0) = true
                  | Server.AtCloseSsh _ | Server.AtClosingSsh _ =>
                      Server.done (Server.agentS m0) = true
                  | _ => True
                  end ->
                  match Server.pc m' with
                  | Server.Returned =>
                      Server.done (Server.sshS m') = true
                      /\ Server.done (Server.agentS m') = true
                  | Server.AtCloseSsh _ | Server.AtClosingSsh _ =>
                      Server.done (Server.agentS m') = true
                  | _ => True
                  end));
        [auto | | apply forallb_any | exact I].
      intros a m0 m1 e1 m2 e2 _ Hstep IH H0. apply IH.
      exact (@server_step_closed_on_return ok a m0 m1 e1 H0 Hstep). }
    intros Hret. rewrite Hret in Hinv. destruct Hinv as [Hs Ha].
    split; [exact Hs|]. split; [exact Ha|].
    intros t pick. unfold Server.sshStream_Recv.
    destruct t; cbn [Server.stream_of]; rewrite ?Hs, ?Ha;
      repeat match goal with
             | |- context [match ?x with _ => _ end] => destruct x
             end; discriminate.
  - intros Hn.
    split; [exact (server_run_no_close ok sched Hn
                     (no_pending_close_start st))|].
    apply (@server_exec_rel ok (fun a => negb (Obs.is_close a))
             (fun m0 _ m' =>
                (Server.done (Server.sshS m0) = true ->
                 Server.pc m0 = Server.Returned) ->
                (Server.done (Server.agentS m0) = true ->
                 Server.pc m0 = Server.Returned
                 \/ exists e, Server.pc m0 = Server.AtCloseSsh e
                              \/ Server.pc m0 = Server.AtClosingSsh e) ->
                (Server.done (Server.sshS m') = true ->
                 Server.pc m' = Server.Returned)
                /\ (Server.done (Server.agentS m') = true ->
                    Server.pc m' = Server.Returned
                    \/ exists e, Server.pc m' = Server.AtCloseSsh e
                                 \/ Server.pc m' = Server.AtClosingSsh e)));
      [auto | | now apply forallb_not_existsb | discriminate | discriminate].
    intros a m0 m1 e1 m2 e2 Ha Hstep IH H1 H2.
    apply negb_true_iff in Ha.
    destruct (@server_step_closes_late ok a m0 m1 e1 Ha H1 H2 Hstep)
      as [H1' H2'].
    now apply IH.
Qed.

Lemma server_step_stuck (ok : error -> bool) (a : Server.action)
    (m m' : Server.mux) (evs : list Server.event) (t : tag) (payload : bytes) :
  Obs.is_recv_on t a = false ->
  Obs.server_pending t m = [payload] ->
  List.length (Server.incomingC (Server.stream_of t m)) = Server.incomingC_cap ->
  Server.step ok a m = Done (m', evs) ->
  Obs.server_pending t m' = [payload]
  /\ Server.incomingC (Server.stream_of t m')
     = Server.incomingC (Server.stream_of t m)
  /\ inbound (Server.parent m') = inbound (Server.parent m)
  /\ Trace.server_enqueued t evs = [].
Proof.
  intros Ha Hp Hlen H. destruct m as [par s a' p n1 n2]. destruct s, a'.
  unfold Server.incomingC_cap in Hlen.
  destruct a as [|[|] pick|[|] frame|[|]|[|]]; destruct t; cbn in *;
    try discriminate Ha;
    destruct p; try discriminate Hp;
    server_step H; cbn in *; unfold Server.incomingC_cap in *;
    try lia; try (repeat split; congruence).
Qed.

(** X17: a multiplexer that holds a frame for a virtual stream whose queue
    is full stays where it is in every schedule in which nobody calls Recv
    on that stream, Close calls on the stream included, up to a panic if
    such calls overlap: it takes nothing more from the parent stream, for
    either virtual stream, and the queue keeps its ten frames.  Only a
    Recv frees it (all data must be consumed to prevent leaking the
    multiplexing goroutine).  When nobody calls Close either, the run does
    not panic. *)
Theorem full_queue_blocks_multiplexer
    (ok : error -> bool) (sched : list Server.action) (m : Server.mux)
    (t : tag) (payload : bytes) :
  Obs.never_receives t sched = true ->
  Obs.server_pending t m = [payload] ->
  List.length (Server.incomingC (Server.stream_of t m)) = 10 ->
  let m' := fst (fst (Server.exec ok sched m)) in
  let evs := snd (fst (Server.exec ok sched m)) in
  Server.pc m' = Server.pc m
  /\ Obs.server_pending t m' = [payload]
  /\ Server.incomingC (Server.stream_of t m')
     = Server.incomingC (Server.stream_of t m)
  /\ inbound (Server.parent m') = inbound (Server.parent m)
  /\ Trace.server_enqueued t evs = []
  /\ (Obs.never_closes sched = true -> Trace.no_pending_close m ->
      Server.run ok sched m = Some (m', evs)).
Proof.
  intros Hn Hp Hlen m' evs.
  assert (Hpc : forall x y : Server.mux,
             Obs.server_pending t x = [payload] ->
             Obs.server_pending t y = [payload] ->
             Server.pc y = Server.pc x).
  { intros x y Hx Hy. unfold Obs.server_pending in *.
    destruct t, (Server.pc x), (Server.pc y); try discriminate; congruence. }
  assert (H : Obs.server_pending t m' = [payload]
              /\ Server.incomingC (Server.stream_of t m')
                 = Server.incomingC (Server.stream_of t m)
              /\ inbound (Server.parent m') = inbound (Server.parent m)
              /\ Trace.server_enqueued t evs = []).
  { apply (@server_exec_rel ok (fun a => negb (Obs.is_recv_on t a))
             (fun m0 evs0 m1 =>
                Obs.server_pending t m0 = [payload] ->
                List.length (Server.incomingC (Server.stream_of t m0))
                = Server.incomingC_cap ->
                Obs.server_pending t m1 = [payload]
                /\ Server.incomingC (Server.stream_of t m1)
                   = Server.incomingC (Server.stream_of t m0)
                /\ inbound (Server.parent m1) = inbound (Server.parent m0)
                /\ Trace.server_enqueued t evs0 = []));
      [ | | now apply forallb_not_existsb | exact Hp | exact Hlen].
    - intros m0 Hp0 _. now repeat split.
    - intros a m0 m1 e1 m2 e2 Ha Hstep IH Hp0 Hlen0.
      apply negb_true_iff in Ha.
      destruct (@server_step_stuck ok a m0 m1 e1 t payload Ha Hp0 Hlen0 Hstep)
        as (Hp1 & Hq1 & Hi1 & He1).
      destruct (IH Hp1) as (Hp2 & Hq2 & Hi2 & He2); [now rewrite Hq1|].
      split; [exact Hp2|]. split; [congruence|]. split; [congruence|].
      now rewrite server_enqueued_app, He1, He2. }
  destruct H as (Hp' & Hq' & Hi' & He').
  split; [now apply Hpc|]. split; [exact Hp'|]. split; [exact Hq'|].
  split; [exact Hi'|]. split; [exact He'|].
  intros Hc Hinv. exact (server_run_no_close ok sched Hc Hinv).
Qed.

Lemma full_queue_blocks_multiplexer_witness :
  let full := repeat Samples.hello 10 in
  let m := {| Server.parent :=
                Samples.server_stream (Some Samples.peer0)
                  [Samples.ssh_request Samples.hello];
              Server.sshS := {| Server.incomingC := full; Server.done := false;
                                Server.responseFn := Server.sshResponseFn |};
              Server.agentS := Server.newSSHStream Server.agentResponseFn;
              Server.pc := Server.AtSendSsh Samples.hello;
              Server.sshClosers := 0; Server.agentClosers := 0 |} in
  let sched := [Server.Mux; Server.CallClose ssh; Server.Mux;
                Server.FinishClose ssh;
                Server.CallRecv agent Server.case_done; Server.Mux] in
  let m' := fst (fst (Server.exec Samples.eof_is_ok sched m)) in
  let evs := snd (fst (Server.exec Samples.eof_is_ok sched m)) in
  (Obs.never_receives ssh sched = true
   /\ Obs.server_pending ssh m = [Samples.hello]
   /\ List.length (Server.incomingC (Server.stream_of ssh m)) = 10)
  /\ Server.pc m' = Server.pc m
  /\ Obs.server_pending ssh m' = [Samples.hello]
  /\ Server.incomingC (Server.stream_of ssh m')
     = Server.incomingC (Server.stream_of ssh m)
  /\ inbound (Server.parent m') = inbound (Server.parent m)
  /\ Trace.server_enqueued ssh evs = [].
Proof.
  intros full m sched m' evs. split; [repeat split|].
  destruct (@full_queue_blocks_multiplexer
              Samples.eof_is_ok sched m ssh Samples.hello
              eq_refl eq_refl eq_refl)
    as (H1 & H2 & H3 & H4 & H5 & _).
  repeat split; assumption.
Defined.

(* ================================================================== *)
(** ** The client's multiplexer: the agent responder comes first *)
(* ================================================================== *)

Lemma client_step_serve_first (keyring : option Client.Keyring)
    (a : Client.action) (m m' : Client.mux) (evs : list Client.event) :
  (Client.serveOnce m = false -> Trace.not_sending_agent m) ->
  Client.step keyring a m = Done (m', evs) ->
  (Client.serveOnce m' = false ->
   Trace.not_sending_agent m'
   /\ Trace.client_enqueued agent evs = []
   /\ Client.serveOnce m = false).
Proof.
  intros Hinv H. destruct m as [par s a' once c1 c2 p]. destruct s, a'.
  unfold Trace.not_sending_agent in *. cbn in Hinv.
  destruct a as [|[|] pick|[|] frame];
    client_step H; cbn in *; intros Hf;
    try discriminate;
    try (specialize (Hinv Hf));
    try (repeat split; tauto);
    try (destruct p; cbn in *; repeat split; tauto).
Qed.

Lemma client_run_serve_first (keyring : option Client.Keyring)
    (sched : list Client.action) (m : Client.mux) :
  (Client.serveOnce m = false -> Trace.not_sending_agent m) ->
  Client.serveOnce (fst (Client.run keyring sched m)) = false ->
  Trace.not_sending_agent (fst (Client.run keyring sched m))
  /\ Trace.client_enqueued agent (snd (Client.run keyring sched m)) = []
  /\ Client.serveOnce m = false.
Proof.
  revert m. induction sched as [|a rest IH]; intros m Hinv.
  - cbn. intros Hf. repeat split; auto.
  - cbn [Client.run].
    destruct (Client.step keyring a m) as [[m1 e1]| |] eqn:Hstep;
      try now apply IH.
    pose proof (@client_step_serve_first keyring a m m1 e1 Hinv Hstep) as Hs.
    assert (Hinv1 : Client.serveOnce m1 = false -> Trace.not_sending_agent m1)
      by (intros Hf; now destruct (Hs Hf)).
    specialize (IH m1 Hinv1).
    destruct (Client.run keyring rest m1) as [m2 e2]. cbn [fst snd] in *.
    intros Hf. destruct (IH Hf) as (Hn2 & He2 & Hf1).
    destruct (Hs Hf1) as (_ & He1 & Hf0).
    repeat split; [exact Hn2 | | exact Hf0].
    now rewrite client_enqueued_app, He1, He2.
Qed.

(** X18: in every schedule of a client host session, by the time the
    multiplexer holds an agent frame or has put one on the agent stream's
    queue, agent.ServeAgent has been started: no agent frame is queued for
    a responder that does not exist. *)
Theorem agent_served_before_first_agent_frame
    (keyring : option Client.Keyring) (st : Client.SSHStream)
    (sched : list Client.action) :
  let m := fst (Client.run keyring sched (Client.start_mux st)) in
  let evs := snd (Client.run keyring sched (Client.start_mux st)) in
  (Trace.client_enqueued agent evs <> [] \/ Obs.client_pending agent m <> []) ->
  Trace.serve_starts evs = 1 /\ Client.serveOnce m = true.
Proof.
  intros m evs Hsome.
  destruct (client_run_serve keyring sched (Client.start_mux st))
    as (c & _ & _ & Hs).
  fold m in Hs. fold evs in Hs. cbn in Hs.
  destruct (Client.serveOnce m) eqn:Hf; [now split|].
  exfalso.
  destruct (@client_run_serve_first keyring sched (Client.start_mux st))
    as (Hn & He & _); [intros _; exact I | exact Hf |].
  fold m in Hn. fold evs in He.
  destruct Hsome as [H | H]; [now apply H|].
  apply H. unfold Obs.client_pending, Trace.not_sending_agent in *.
  now destruct (Client.pc m).
Qed.

Lemma agent_served_before_first_agent_frame_witness :
  let st := Samples.client_stream [Samples.agent_response Samples.hello] io_EOF in
  let m := fst (Client.run (Some 1) [Client.Mux] (Client.start_mux st)) in
  let evs := snd (Client.run (Some 1) [Client.Mux] (Client.start_mux st)) in
  (Trace.client_enqueued agent evs <> [] \/ Obs.client_pending agent m <> [])
  /\ Trace.serve_starts evs = 1 /\ Client.serveOnce m = true.
Proof.
  intros st m evs.
  assert (H : Trace.client_enqueued agent evs <> []
              \/ Obs.client_pending agent m <> [])
    by (right; discriminate).
  split; [exact H|].
  exact (@agent_served_before_first_agent_frame
           (Some 1) st [Client.Mux] H).
Defined.

(* ================================================================== *)
(** ** GetClusterDetails *)
(* ================================================================== *)

(** X19: the client's ClusterDetails over a service built by NewService
    returns exactly the FIPS flag of the configuration the service was
    built from, and no error; when the RPC fails it returns nil details and
    the error converted from gRPC. *)
Theorem ClusterDetails_reports_FIPS
    (c0 : Server.ServerConfig) (s : Server.Service) (c : Client.Client) :
  Server.NewService c0 = (Some s, None) ->
  (Client.GetClusterDetails (Client.clt c) = Obs.details_rpc s ->
   Client.ClusterDetails_ c
   = (Some {| FipsEnabled := Server.FIPS c0 |}, None))
  /\ (forall err,
      Client.GetClusterDetails (Client.clt c) = inr err ->
      Client.ClusterDetails_ c = (None, Some (FromGRPC err ""))).
Proof.
  intros Hnew.
  destruct (NewService_fields _ Hnew) as (_ & _ & _ & _ & _ & _ & Hfips).
  unfold Client.ClusterDetails_. split.
  - intros ->. unfold Obs.details_rpc, Server.GetClusterDetails.
    now rewrite Hfips.
  - now intros err ->.
Qed.

Lemma ClusterDetails_reports_FIPS_witness :
  let s := Samples.service Samples.dialer_ok in
  let c := {| Client.clt :=
                {| Client.GetClusterDetails := Obs.details_rpc s;
                   Client.ProxyCluster := inr (Status "unused");
                   Client.ProxySSH := inr (Status "unused") |} |} in
  Server.NewService (Samples.config Samples.dialer_ok) = (Some s, None)
  /\ Client.ClusterDetails_ c = (Some {| FipsEnabled := true |}, None).
Proof.
  intros s c. split; [reflexivity|].
  exact (proj1 (@ClusterDetails_reports_FIPS
                  (Samples.config Samples.dialer_ok) s c eq_refl) eq_refl).
Defined.
